(** * Poker equity estimator: hand evaluator and Monte Carlo tree search

    A shallow embedding of [Project_2_Poker] ([deck.py], [evaluator.py],
    [mcts.py], [main.py]) and the properties its specification states.

    Conventions of the embedding:
    - Python [int] is [Z]; the statistics [wins] (sums of 0, 0.5 and 1, all
      exactly representable as doubles) are kept as reduced rationals [Q];
    - a Python exception is a value [Raise e] of the [result] type;
    - [dict] and [Counter] are insertion-ordered association lists;
    - the ambient random source ([random.shuffle], [random.sample]) and the
      value of the floating-point UCB1 expression are the fields of the
      class [Ambient], constrained only by the laws of [AmbientLaws]. *)

From Stdlib Require Import ZArith QArith Lia Lqa Sorted.
From stdpp Require Import base list strings sorting.

Local Open Scope Z_scope.

(** ** Exceptions *)

Inductive exn : Type :=
| KeyError | ValueError | StopIteration | ZeroDivisionError
| AttributeError | IndexError | TypeError
| Stuck   (* the embedding ran out of fuel or followed a dangling node id *).

Inductive result (A : Type) : Type :=
| Ok (a : A)
| Raise (e : exn).
Arguments Ok {A} a.
Arguments Raise {A} e.

#[global] Instance result_ret : MRet result := λ A a, Ok a.
#[global] Instance result_bind : MBind result :=
  λ A B f r, match r with Ok a => f a | Raise e => Raise e end.

Fixpoint mapR {A B} (f : A → result B) (l : list A) : result (list B) :=
  match l with
  | [] => Ok []
  | x :: t => y ← f x; ys ← mapR f t; Ok (y :: ys)
  end.

(** ** deck.py: cards *)

Record Card : Type := mkCard { card_num : string; suit : string }.

#[global] Instance Card_eq_dec : EqDecision Card.
Proof. solve_decision. Defined.

(** ** The ambient random source and floating-point unit

    [random.shuffle] and [random.sample] draw from a hidden generator state;
    the embedding threads that state explicitly.  [ucb_value wins visits n]
    is the double that Python computes for
    [wins / visits + sqrt(2) * sqrt(log(n) / visits)]. *)

Class Ambient : Type := {
  rng : Type;
  shuffle : rng → list Card → list Card * rng;
  sample : ∀ {A : Type}, rng → list A → nat → list A * rng;
  ucb_value : Q → Z → Z → Q
}.

(** ** evaluator.py *)

Module Evaluator.

Definition CARD_VALUE_MAP : list (string * Z) :=
  [("2", 2); ("3", 3); ("4", 4); ("5", 5); ("6", 6); ("7", 7); ("8", 8);
   ("9", 9); ("T", 10); ("J", 11); ("Q", 12); ("K", 13); ("A", 14)]%string.

(** [d[k]] on an insertion-ordered dict; [KeyError] when the key is absent. *)
Fixpoint dict_get {K V} `{EqDecision K} (d : list (K * V)) (k : K) : result V :=
  match d with
  | [] => Raise KeyError
  | (k', v) :: t => if decide (k' = k) then Ok v else dict_get t k
  end.

Definition card_value (c : Card) : result Z := dict_get CARD_VALUE_MAP (card_num c).

Definition valid_card (c : Card) : Prop := ∃ v, card_value c = Ok v.

(** [sorted(l, reverse=True)] on integers. *)
Fixpoint insert_desc (x : Z) (l : list Z) : list Z :=
  match l with
  | [] => [x]
  | y :: t => if y <=? x then x :: y :: t else y :: insert_desc x t
  end.

Definition sorted_desc (l : list Z) : list Z := foldr insert_desc [] l.

(** [max(l)]: [ValueError] on the empty list. *)
Definition py_max (l : list Z) : result Z :=
  match l with
  | [] => Raise ValueError
  | x :: t => Ok (foldl Z.max x t)
  end.

(** [next(v for v in l if p v)]: [StopIteration] when nothing qualifies. *)
Definition py_next {A} (p : A → bool) (l : list A) : result A :=
  match find p l with
  | Some x => Ok x
  | None => Raise StopIteration
  end.

(** [next(value for value, count in d.items() if count == n)]. *)
Definition next_with_count (n : Z) (d : list (Z * Z)) : result Z :=
  kc ← py_next (λ kc, snd kc =? n) d; Ok (fst kc).

(** [Counter(values)]: keys in order of first occurrence. *)
Fixpoint counter_add (v : Z) (d : list (Z * Z)) : list (Z * Z) :=
  match d with
  | [] => [(v, 1)]
  | (k, c) :: t => if k =? v then (k, c + 1) :: t else (k, c) :: counter_add v t
  end.

Definition Counter (values : list Z) : list (Z * Z) :=
  foldl (λ d v, counter_add v d) [] values.

Definition zmem (x : Z) (l : list Z) : bool := existsb (Z.eqb x) l.

Definition check_straight (values : list Z) : bool :=
  let values := sorted_desc (remove_dups values) in
  if existsb (λ i : nat, nth i values 0 - nth (i + 4) values 0 =? 4)
       (seq 0 (length values - 4))
  then true
  else if forallb (λ v, zmem v values) [14; 2; 3; 4; 5] then true
  else false.

Definition HandRank : Type := Z * list Z.

Definition rank_five_card_hand (hand : list Card) : result HandRank :=
  vs ← mapR card_value hand;
  let values := sorted_desc vs in
  let suits := map suit hand in
  let value_counts := Counter values in
  let counts := map snd value_counts in
  let is_flush := Nat.eqb (length (remove_dups suits)) 1 in
  let is_straight := check_straight values in
  if is_flush && is_straight then
    m ← py_max values;
    if m =? 14 then Ok (9, values) else Ok (8, values)
  else if zmem 4 counts then
    four_of_a_kind ← next_with_count 4 value_counts;
    high_card ← py_max (List.filter (λ v, negb (v =? four_of_a_kind)) values);
    Ok (7, [four_of_a_kind; high_card])
  else if zmem 3 counts && zmem 2 counts then
    three_of_a_kind ← next_with_count 3 value_counts;
    pair ← next_with_count 2 value_counts;
    Ok (6, [three_of_a_kind; pair])
  else if is_flush then Ok (5, values)
  else if is_straight then Ok (4, values)
  else if zmem 3 counts then
    three_of_a_kind ← next_with_count 3 value_counts;
    let high_cards :=
      take 2 (sorted_desc (List.filter (λ v, negb (v =? three_of_a_kind)) values)) in
    Ok (3, three_of_a_kind :: high_cards)
  else if Nat.eqb (length (List.filter (λ n, n =? 2) counts)) 2 then
    let pairs :=
      sorted_desc (map fst (List.filter (λ kc, snd kc =? 2) value_counts)) in
    kicker ← py_max (List.filter (λ v, negb (zmem v pairs)) values);
    Ok (2, pairs ++ [kicker])
  else if zmem 2 counts then
    pair ← next_with_count 2 value_counts;
    let high_cards :=
      take 3 (sorted_desc (List.filter (λ v, negb (v =? pair)) values)) in
    Ok (1, pair :: high_cards)
  else Ok (0, values).

(** Python's ordering of [(int, list[int])] tuples: lexicographic, a proper
    prefix being smaller. *)
Fixpoint list_ltb (a b : list Z) : bool :=
  match a, b with
  | [], [] => false
  | [], _ :: _ => true
  | _ :: _, [] => false
  | x :: a', y :: b' => if x =? y then list_ltb a' b' else x <? y
  end.

Definition rank_ltb (a b : HandRank) : bool :=
  if fst a =? fst b then list_ltb (snd a) (snd b) else fst a <? fst b.

(** [max(a, b)]: the first argument unless the second is strictly greater. *)
Definition rank_max (a b : HandRank) : HandRank := if rank_ltb a b then b else a.

(** [itertools.combinations(l, k)], in the order itertools yields them. *)
Fixpoint combinations {A} (l : list A) (k : nat) : list (list A) :=
  match k with
  | O => [[]]
  | S k' =>
      match l with
      | [] => []
      | x :: t => map (cons x) (combinations t k') ++ combinations t k
      end
  end.

Fixpoint best_over (best_rank : HandRank) (combos : list (list Card)) : result HandRank :=
  match combos with
  | [] => Ok best_rank
  | combo :: rest =>
      rank ← rank_five_card_hand combo;
      best_over (rank_max best_rank rank) rest
  end.

Definition evaluate_hand (cards : list Card) : result HandRank :=
  best_over (-1, []) (combinations cards 5).

End Evaluator.

Import Evaluator.

(** ** deck.py: the deck *)

Module Deck.

Definition card_nums : list string :=
  ["2"; "3"; "4"; "5"; "6"; "7"; "8"; "9"; "T"; "J"; "Q"; "K"; "A"]%string.
Definition suits : list string := ["C"; "D"; "H"; "S"]%string.

(** The comprehension of [reset], before shuffling. *)
Definition fresh_cards : list Card :=
  flat_map (λ card_num, map (λ suit, mkCard card_num suit) suits) card_nums.

Record Deck : Type := mkDeck { cards : list Card }.

Definition new `{Ambient} (g : rng) : Deck * rng :=
  let '(cs, g') := shuffle g fresh_cards in (mkDeck cs, g').

(** [deal_card]: [None] from an empty deck, else the last card is popped. *)
Definition deal_card (d : Deck) : option Card * Deck :=
  match last (cards d) with
  | None => (None, d)
  | Some x => (Some x, mkDeck (removelast (cards d)))
  end.

Fixpoint deal_hand (d : Deck) (num_cards : nat) : list (option Card) * Deck :=
  match num_cards with
  | O => ([], d)
  | S n =>
      let '(x, d1) := deal_card d in
      let '(xs, d2) := deal_hand d1 n in
      (x :: xs, d2)
  end.

Definition remove_card (d : Deck) (card : Card) : Deck :=
  mkDeck (filter (λ x, x ≠ card) (cards d)).

Definition remaining_cards (d : Deck) : list Card := cards d.

End Deck.

(** ** mcts.py *)

Module MCTS.

Inductive Stage : Type := root | opponent | flop | turn | river | done.

#[global] Instance Stage_eq_dec : EqDecision Stage.
Proof. solve_decision. Defined.

(** An action is a tuple of cards; nodes live in a store and refer to each
    other by their index in it (the root is node 0). *)
Abbreviation Action := (list Card) (only parsing).

Record MCTSNode : Type := mkNode {
  state : list Card;
  parent : option nat;
  children : list (Action * nat);
  wins : Q;
  visits : Z;
  stage : Stage;
  player_hand : list Card;
  untried_actions : list Action
}.

Abbreviation Store := (list MCTSNode) (only parsing).

(** [MCTSNode.__init__] *)
Definition init (state : list Card) (parent : option nat) (stage : Stage)
    (player_hand : list Card) : MCTSNode :=
  mkNode state parent [] 0%Q 0 stage player_hand [].

Definition set_visits (v : Z) (nd : MCTSNode) : MCTSNode :=
  mkNode (state nd) (parent nd) (children nd) (wins nd) v (stage nd)
    (player_hand nd) (untried_actions nd).
Definition set_wins (w : Q) (nd : MCTSNode) : MCTSNode :=
  mkNode (state nd) (parent nd) (children nd) w (visits nd) (stage nd)
    (player_hand nd) (untried_actions nd).
Definition set_untried_actions (u : list Action) (nd : MCTSNode) : MCTSNode :=
  mkNode (state nd) (parent nd) (children nd) (wins nd) (visits nd) (stage nd)
    (player_hand nd) u.
Definition set_children (ch : list (Action * nat)) (nd : MCTSNode) : MCTSNode :=
  mkNode (state nd) (parent nd) ch (wins nd) (visits nd) (stage nd)
    (player_hand nd) (untried_actions nd).

(** Dereferencing a node id. *)
Definition get (h : Store) (i : nat) : result MCTSNode :=
  match h !! i with Some nd => Ok nd | None => Raise Stuck end.

(** [d[k] = v] on an insertion-ordered dict. *)
Fixpoint dict_set {K V} `{EqDecision K} (d : list (K * V)) (k : K) (v : V) : list (K * V) :=
  match d with
  | [] => [(k, v)]
  | (k', v') :: t => if decide (k' = k) then (k', v) :: t else (k', v') :: dict_set t k v
  end.

(** [w / v] with [v] an [int]: [ZeroDivisionError] when [v] is 0. *)
Definition truediv (w : Q) (v : Z) : result Q :=
  if v =? 0 then Raise ZeroDivisionError else Ok (Qred (w / inject_Z v)).

Section Engine.
Context `{Ambient}.

Definition ucb1 (self : MCTSNode) (n : Z) : result Q :=
  if visits self =? 0 then Raise ZeroDivisionError        (* wins / visits *)
  else if n <=? 0 then Raise ValueError                    (* math.log(n) *)
  else if (visits self <? 0) && (1 <? n) then Raise ValueError  (* math.sqrt *)
  else Ok (ucb_value (wins self) (visits self) n).

Definition is_fully_expanded (self : MCTSNode) : bool :=
  Nat.eqb (length (untried_actions self)) 0.

Fixpoint best_child_loop (h : Store) (n : Z) (kids : list nat)
    (best_score : Q) (best_node : option nat) : result (option nat) :=
  match kids with
  | [] => Ok best_node
  | child :: rest =>
      nd ← get h child;
      ucb_score ← ucb1 nd n;
      if Qlt_le_dec best_score ucb_score
      then best_child_loop h n rest ucb_score (Some child)
      else best_child_loop h n rest best_score best_node
  end.

Definition best_child (h : Store) (self : MCTSNode) : result (option nat) :=
  let kids := map snd (children self) in
  vs ← mapR (λ child, nd ← get h child; Ok (visits nd)) kids;
  let n := foldl Z.add 0 vs in
  best_child_loop h n kids (-1)%Q None.

Definition get_next_stage (self : MCTSNode) : result Stage :=
  match stage self with
  | root => Ok opponent
  | opponent => Ok flop
  | flop => Ok turn
  | turn => Ok river
  | river => Ok done
  | done => Raise ValueError       (* stages.index('done') *)
  end.

Definition expand (h : Store) (i : nat) : result (Store * option nat) :=
  self ← get h i;
  match last (untried_actions self) with
  | None => Ok (h, None)
  | Some action =>
      let new_state := state self ++ action in
      next_stage ← get_next_stage self;
      let child := init new_state (Some i) next_stage (player_hand self) in
      let id := length h in
      let self' :=
        set_children (dict_set (children self) action id)
          (set_untried_actions (removelast (untried_actions self)) self) in
      Ok (<[i := self']> h ++ [child], Some id)
  end.

Fixpoint backpropagate (fuel : nat) (h : Store) (i : nat) (res : Q) : result Store :=
  match fuel with
  | O => Raise Stuck
  | S fuel' =>
      self ← get h i;
      let self1 := set_visits (visits self + 1) self in
      let self2 := set_wins (Qred (wins self1 + res)) self1 in
      let h' := <[i := self2]> h in
      match parent self with
      | Some p => backpropagate fuel' h' p res
      | None => Ok h'
      end
  end.

Definition sample_opponent_hands (g : rng) (player_hand : list Card)
    : result (list Action * rng) :=
  let '(deck, g) := Deck.new g in
  c0 ← from_option Ok (Raise IndexError) (player_hand !! 0%nat);
  let deck := Deck.remove_card deck c0 in
  c1 ← from_option Ok (Raise IndexError) (player_hand !! 1%nat);
  let deck := Deck.remove_card deck c1 in
  let combos := combinations (Deck.remaining_cards deck) 2 in
  let k := Nat.min 1000 (length combos) in
  Ok (sample g combos k).

Definition sample_flops (g : rng) (used_cards : list Card) : list Action * rng :=
  let '(deck, g) := Deck.new g in
  let remaining := filter (λ card, card ∉ used_cards) (Deck.cards deck) in
  let combos := combinations remaining 3 in
  let k := Nat.min 1000 (length combos) in
  sample g combos k.

Definition sample_turns (g : rng) (used_cards : list Card) : list Action * rng :=
  let '(deck, g) := Deck.new g in
  let remaining := filter (λ card, card ∉ used_cards) (Deck.cards deck) in
  let k := Nat.min 1000 (length remaining) in
  sample g (map (λ card, [card]) remaining) k.

Definition sample_rivers (g : rng) (used_cards : list Card) : list Action * rng :=
  let '(deck, g) := Deck.new g in
  let remaining := filter (λ card, card ∉ used_cards) (Deck.cards deck) in
  let k := Nat.min 1000 (length remaining) in
  sample g (map (λ card, [card]) remaining) k.

Definition rollout_simulation (player_hand opponent_hand board : list Card) : result Q :=
  let full_player_hand := player_hand ++ board in
  let full_opponent_hand := opponent_hand ++ board in
  player_rank ← evaluate_hand full_player_hand;
  opponent_rank ← evaluate_hand full_opponent_hand;
  if rank_ltb opponent_rank player_rank then Ok 1%Q
  else if rank_ltb player_rank opponent_rank then Ok 0%Q
  else Ok (1 # 2)%Q.

(** A [None] dealt from an exhausted deck reaches the evaluator inside a
    7-card hand, where reading [None.card_num] raises. *)
Definition dealt (l : list (option Card)) : result (list Card) :=
  mapR (from_option Ok (Raise AttributeError)) l.

Definition simulate_to_end (g : rng) (node : MCTSNode) : result (Q * rng) :=
  let '(deck, g) := Deck.new g in
  let used := player_hand node ++ state node in
  let deck := foldl Deck.remove_card deck used in
  let '(opponent_hand, community_cards) :=
    match stage node with
    | opponent => (state node, [])
    | flop | turn | river => (take 2 (state node), drop 2 (state node))
    | root | done => ([], [])
    end in
  let '(opponent_hand, deck) :=
    match opponent_hand with
    | [] => Deck.deal_hand deck 2
    | _ => (map Some opponent_hand, deck)
    end in
  let cards_needed := 5 - Z.of_nat (length community_cards) in
  let community_cards :=
    if 0 <? cards_needed
    then map Some community_cards ++ fst (Deck.deal_hand deck (Z.to_nat cards_needed))
    else map Some community_cards in
  opponent_hand ← dealt opponent_hand;
  community_cards ← dealt community_cards;
  r ← rollout_simulation (player_hand node) opponent_hand community_cards;
  Ok (r, g).

(** The selection loop of [run_mcts]. *)
Fixpoint select (fuel : nat) (h : Store) (node : nat) : result nat :=
  nd ← get h node;
  if is_fully_expanded nd && negb (Nat.eqb (length (children nd)) 0) then
    match fuel with
    | O => Raise Stuck
    | S fuel' =>
        best ← best_child h nd;
        match best with
        | Some child => select fuel' h child
        | None => Raise AttributeError     (* None.is_fully_expanded() *)
        end
    end
  else Ok node.

(** The expansion step of [run_mcts]. *)
Definition expansion (g : rng) (h : Store) (node : nat) : result (rng * Store * nat) :=
  nd ← get h node;
  if negb (is_fully_expanded nd) then
    '(h, child_node) ← expand h node;
    match child_node with
    | Some child_node =>
        ch ← get h child_node;
        let used_cards := player_hand ch ++ state ch in
        let '(g, h) :=
          match stage ch with
          | opponent =>
              let '(u, g) := sample_flops g used_cards in
              (g, <[child_node := set_untried_actions u ch]> h)
          | flop =>
              let '(u, g) := sample_turns g used_cards in
              (g, <[child_node := set_untried_actions u ch]> h)
          | turn =>
              let '(u, g) := sample_rivers g used_cards in
              (g, <[child_node := set_untried_actions u ch]> h)
          | _ => (g, h)
          end in
        Ok (g, h, child_node)
    | None => Ok (g, h, node)
    end
  else Ok (g, h, node).

(** One pass of the [for] loop of [run_mcts]. *)
Definition iteration (st : rng * Store) : result (rng * Store) :=
  let '(g, h) := st in
  node ← select (length h) h 0%nat;
  '(g, h, node) ← expansion g h node;
  nd ← get h node;
  '(res, g) ← simulate_to_end g nd;
  h ← backpropagate (length h) h node res;
  Ok (g, h).

Fixpoint iterations_loop (n : nat) (st : rng * Store) : result (rng * Store) :=
  match n with
  | O => Ok st
  | S n' => st' ← iteration st; iterations_loop n' st'
  end.

(** [run_mcts] up to the end of its loop: the final tree. *)
Definition run_mcts_tree (g : rng) (player_hand : list Card) (iterations : Z)
    : result (rng * Store) :=
  let root_node := init [] None root player_hand in
  '(u, g) ← sample_opponent_hands g player_hand;
  iterations_loop (Z.to_nat iterations) (g, [set_untried_actions u root_node]).

(** [run_mcts]; the quotient is the exact one, which Python then rounds to
    the nearest double. *)
Definition run_mcts (g : rng) (player_hand : list Card) (iterations : Z) : result Q :=
  '(_, h) ← run_mcts_tree g player_hand iterations;
  r ← get h 0%nat;
  if visits r =? 0 then Ok 0%Q
  else truediv (wins r) (visits r).

End Engine.
End MCTS.

(** ** main.py

    Strings are taken to be ASCII, where Python's [len], indexing and
    [upper] agree with the byte-wise operations used here. *)

Module Main.

(** What [parse_cards] returns: the usage text or the two cards. *)
Inductive Parsed : Type :=
| Text (s : string)
| Hand (l : list Card).

Inductive event : Type :=
| Print (s : string)
| CallRunMcts (hand : Parsed) (iterations : Z)
| PrintWinRate (estimated_winrate : Q)   (* "Estimated Win Rate: ..." to three decimals *)
| Uncaught (e : exn).

Definition upper (a : Ascii.ascii) : string :=
  let n := Ascii.nat_of_ascii a in
  if (Nat.leb 97 n && Nat.leb n 122)%bool
  then String (Ascii.ascii_of_nat (n - 32)) EmptyString
  else String a EmptyString.

(** [s[i]] for an index known to be in range. *)
Definition char_at (s : string) (i : nat) : Ascii.ascii :=
  default Ascii.zero (String.get i s).

Definition parse_cards (card1 card2 : string) : Parsed :=
  if negb (Nat.eqb (String.length card1) 2) || negb (Nat.eqb (String.length card2) 2)
  then Text "Cards must be in format like 'JD' or 'QS'"
  else Hand [mkCard (upper (char_at card1 0)) (upper (char_at card1 1));
             mkCard (upper (char_at card2 0)) (upper (char_at card2 1))].

(** [f"{hand[i]}"]: a character of the text, or [Card.__repr__]. *)
Definition show_item (hand : Parsed) (i : nat) : string :=
  match hand with
  | Text s => String (char_at s i) EmptyString
  | Hand l =>
      match l !! i with
      | Some x => card_num x +:+ suit x
      | None => EmptyString
      end
  end.

(** [run_mcts] as [main] calls it.  Given a [str], the deck removals match
    nothing, and the first pass of the loop raises [TypeError] when the new
    child's [player_hand] (a [str]) is concatenated with its [state] (a
    [list]). *)
Definition call_run_mcts `{Ambient} (g : rng) (hand : Parsed) (iterations : Z) : result Q :=
  match hand with
  | Hand l => MCTS.run_mcts g l iterations
  | Text _ => if 0 <? iterations then Raise TypeError else Ok 0%Q
  end.

Definition main `{Ambient} (g : rng) (argv : list string) : list event :=
  if negb (Nat.eqb (length argv) 3)
  then [Print "Usage: python main.py [card1] [card2]. Example: python main.py JD QC"]
  else
    let hand := parse_cards (default EmptyString (argv !! 1%nat))
                            (default EmptyString (argv !! 2%nat)) in
    [Print ("Running MCTS for hand: " +:+ show_item hand 0 +:+ " " +:+ show_item hand 1);
     CallRunMcts hand 1000;
     match call_run_mcts g hand 1000 with
     | Ok estimated_winrate => PrintWinRate estimated_winrate
     | Raise e => Uncaught e
     end].

End Main.

(** * Vocabulary of the specification *)

(** [a] is not above [b] in Python's tuple order. *)
Definition rank_le (a b : HandRank) : Prop := rank_ltb b a = false.

(** Sample data: a card written as in the command line, and some hands. *)
Definition card (s : string) : Card :=
  mkCard (String.substring 0 1 s) (String.substring 1 1 s).

Definition wheel_hand : list Card := map card ["AS"; "2D"; "3C"; "4H"; "5S"]%string.
Definition seven_cards : list Card :=
  map card ["AS"; "AH"; "KD"; "7C"; "7D"; "2S"; "9H"]%string.
Definition four_cards : list Card := map card ["AS"; "AH"; "KD"; "7C"]%string.
Definition pocket_aces : list Card := map card ["AS"; "AH"]%string.
Definition pocket_kings : list Card := map card ["KS"; "KH"]%string.
Definition low_board : list Card := map card ["2C"; "7D"; "9H"; "JS"; "3D"]%string.
Definition straight_board : list Card := map card ["TC"; "JD"; "QH"; "KS"; "AD"]%string.
Definition low_pair : list Card := map card ["2S"; "2H"]%string.
Definition low_cards : list Card := map card ["3S"; "4H"]%string.

(** The values contain five consecutive integers, or the wheel. *)
Definition straight_values (values : list Z) : Prop :=
  (∃ hi, ∀ d, 0 ≤ d ≤ 4 → hi - d ∈ values)
  ∨ (∀ v, v ∈ [14; 5; 4; 3; 2] → v ∈ values).

(** All cards of the hand have one suit. *)
Definition same_suit (hand : list Card) : Prop :=
  ∃ s, hand ≠ [] ∧ ∀ x, x ∈ hand → suit x = s.

(** What the embedding assumes of the random source and of the double
    computed for UCB1: a shuffle permutes, a sample is drawn from distinct
    positions of the population, and the UCB1 value of a node with
    non-negative wins, at least one visit and [n ≥ 1] is not negative (each
    of its sub-terms is a non-negative double). *)
Class AmbientLaws `{Ambient} : Prop := {
  shuffle_perm : ∀ g l, fst (shuffle g l) ≡ₚ l;
  sample_submseteq : ∀ (A : Type) g (l : list A) k, fst (sample g l k) ⊆+ l;
  ucb_value_nonneg : ∀ w v n, (0 <= w)%Q → 1 ≤ v → 1 ≤ n → (0 <= ucb_value w v n)%Q
}.

(** A random source for the examples: the generator state is a counter, a
    shuffle reverses the list, a sample takes the first [k] elements. *)
Definition demo_ambient : Ambient := {|
  rng := nat;
  shuffle := λ g l, (reverse l, S g);
  sample := λ A g l k, (take k l, S g);
  ucb_value := λ w v n, (w / inject_Z v + (n # Z.to_pos v))%Q
|}.

Module Tree.
Import MCTS.

(** [j] is [i] or one of its ancestors. *)
Inductive on_path (h : Store) : nat → nat → Prop :=
| on_path_here i : on_path h i i
| on_path_up i nd p j :
    h !! i = Some nd → parent nd = Some p → on_path h p j → on_path h i j.

(** Parent links point to older nodes. *)
Definition parents_ok (h : Store) : Prop :=
  ∀ i nd p, h !! i = Some nd → parent nd = Some p → (p < i)%nat.

(** The effect of one backpropagation step on one node. *)
Definition bump (r : Q) (nd : MCTSNode) : MCTSNode :=
  set_wins (Qred (wins nd + r)) (set_visits (visits nd + 1) nd).

Definition stats_ok (nd : MCTSNode) : Prop :=
  (0 <= wins nd)%Q ∧ (wins nd <= inject_Z (visits nd))%Q.

Definition is_result (r : Q) : Prop := r = 0%Q ∨ r = (1 # 2)%Q ∨ r = 1%Q.

(** Cards fixed along the path at each stage, and cards per action. *)
Definition stage_len (s : Stage) : nat :=
  match s with root => 0 | opponent => 2 | flop => 5 | turn => 6 | river | done => 7 end.
Definition action_len (s : Stage) : nat :=
  match s with root => 2 | opponent => 3 | flop | turn => 1 | river | done => 0 end.

(** The shape of node [i] in a tree for [ph]; [fresh] is the child created
    in the current pass, if any, which has not been visited yet. *)
Record node_ok (ph : list Card) (h : Store) (fresh : option nat)
    (i : nat) (nd : MCTSNode) : Prop := {
  ok_parent : match parent nd with None => i = 0%nat | Some p => (p < i)%nat end;
  ok_children : ∀ a ch, (a, ch) ∈ children nd → (i < ch < length h)%nat;
  ok_hand : player_hand nd = ph;
  ok_stage : stage nd ≠ done;
  ok_state : Forall valid_card (state nd);
  ok_state_len : length (state nd) = stage_len (stage nd);
  ok_untried : ∀ a, a ∈ untried_actions nd →
      Forall valid_card a ∧ length a = action_len (stage nd) ∧ stage nd ≠ river;
  ok_stats : stats_ok nd;
  ok_visited : i ≠ 0%nat → fresh ≠ Some i → 1 ≤ visits nd
}.

Definition wf (ph : list Card) (h : Store) (fresh : option nat) : Prop :=
  (0 < length h)%nat ∧ ∀ i nd, h !! i = Some nd → node_ok ph h fresh i nd.

(** A child whose statistics allow the UCB1 computation. *)
Definition scorable (h : Store) (child : nat) : Prop :=
  ∃ nd, h !! child = Some nd ∧ stats_ok nd ∧ 1 ≤ visits nd.

(** Every node of [h] is still in [h'], with statistics that did not drop. *)
Definition grows (h h' : Store) : Prop :=
  ∀ i nd, h !! i = Some nd →
    ∃ nd', h' !! i = Some nd' ∧ visits nd ≤ visits nd' ∧ (wins nd <= wins nd')%Q.

(** Every node of [h] is still in [h'] with the same statistics. *)
Definition same_stats (h h' : Store) : Prop :=
  ∀ i nd, h !! i = Some nd →
    ∃ nd', h' !! i = Some nd' ∧ visits nd' = visits nd ∧ wins nd' = wins nd.

End Tree.


(** ** Vocabulary for the further properties *)

Module More.
Import MCTS Tree.

(** [simulate_to_end] up to its last line: the opponent hand and the
    community cards that it passes to [rollout_simulation]. *)
Definition deal_showdown `{Ambient} (g : rng) (node : MCTSNode)
    : list (option Card) * list (option Card) * rng :=
  let '(deck, g) := Deck.new g in
  let used := player_hand node ++ state node in
  let deck := foldl Deck.remove_card deck used in
  let '(opponent_hand, community_cards) :=
    match stage node with
    | opponent => (state node, [])
    | flop | turn | river => (take 2 (state node), drop 2 (state node))
    | root | done => ([], [])
    end in
  let '(opponent_hand, deck) :=
    match opponent_hand with
    | [] => Deck.deal_hand deck 2
    | _ => (map Some opponent_hand, deck)
    end in
  let cards_needed := 5 - Z.of_nat (length community_cards) in
  let community_cards :=
    if 0 <? cards_needed
    then map Some community_cards ++ fst (Deck.deal_hand deck (Z.to_nat cards_needed))
    else map Some community_cards in
  (opponent_hand, community_cards, g).

(** The UCB1 score of node [k] of the store, for a visit total [n]. *)
Definition score_of `{Ambient} (h : Store) (n : Z) (k : nat) : Q :=
  match h !! k with
  | Some nd => ucb_value (wins nd) (visits nd) n
  | None => 0%Q
  end.

(** The root is node 0, at stage [root] with nothing drawn; every entry
    [(a, c)] of a node's [children] leads to a node whose parent is that
    node, whose state is the node's state followed by [a], and whose stage
    is the next one. *)
Definition linked (h : Store) : Prop :=
  (∃ r, h !! 0%nat = Some r ∧ stage r = root ∧ state r = [] ∧ parent r = None)
  ∧ ∀ i nd a ch, h !! i = Some nd → (a, ch) ∈ children nd →
      ∃ cn, h !! ch = Some cn ∧ parent cn = Some i
        ∧ state cn = state nd ++ a ∧ get_next_stage nd = Ok (stage cn).

(** The visits of node [c], and the visits of all children of a node. *)
Definition visits_of (h : Store) (c : nat) : Z :=
  match h !! c with
  | Some x => visits x
  | None => 0
  end.

Definition children_visits (h : Store) (nd : MCTSNode) : Z :=
  foldr (λ c acc, visits_of h c + acc) 0 (map snd (children nd)).


End More.

(** * Properties *)

(** Decide the comparisons between symbolic values that the context settles. *)
Ltac decide_tests :=
  repeat match goal with
  | |- context [?x =? ?x] => rewrite (Z.eqb_refl x)
  | |- context [?x =? ?y] =>
      first [ rewrite (proj2 (Z.eqb_neq x y)) by lia
            | rewrite (proj2 (Z.eqb_eq x y)) by lia ]
  | |- context [?x <=? ?y] =>
      first [ rewrite (proj2 (Z.leb_le x y)) by lia
            | rewrite (proj2 (Z.leb_gt x y)) by lia ]
  | _ => progress cbn
  end.

(** ** The embedding at work *)

Example ranks_by_category :
  rank_five_card_hand (map card ["AS"; "KD"; "9C"; "4H"; "3S"]%string) = Ok (0, [14; 13; 9; 4; 3])
  ∧ rank_five_card_hand (map card ["AS"; "KD"; "AC"; "4H"; "3S"]%string) = Ok (1, [14; 13; 4; 3])
  ∧ rank_five_card_hand (map card ["3S"; "AD"; "5C"; "3H"; "AS"]%string) = Ok (2, [14; 3; 5])
  ∧ rank_five_card_hand (map card ["AS"; "KD"; "AC"; "4H"; "AD"]%string) = Ok (3, [14; 13; 4])
  ∧ rank_five_card_hand (map card ["6S"; "2D"; "3C"; "4H"; "5S"]%string) = Ok (4, [6; 5; 4; 3; 2])
  ∧ rank_five_card_hand (map card ["AS"; "KS"; "2S"; "4S"; "3S"]%string) = Ok (5, [14; 13; 4; 3; 2])
  ∧ rank_five_card_hand (map card ["3S"; "AD"; "AC"; "3H"; "AS"]%string) = Ok (6, [14; 3])
  ∧ rank_five_card_hand (map card ["AS"; "AD"; "AC"; "AH"; "3S"]%string) = Ok (7, [14; 3])
  ∧ rank_five_card_hand (map card ["AS"; "5S"; "2S"; "4S"; "XS"]%string) = Raise KeyError.
Proof. repeat split. Qed.

Example evaluate_seven :
  evaluate_hand (map card ["AS"; "5S"; "2S"; "4S"; "3D"; "9D"; "9H"]%string)
  = Ok (4, [14; 5; 4; 3; 2]).
Proof. reflexivity. Qed.

Example main_well_formed :
  @Main.main demo_ambient 0%nat ["main.py"; "as"; "Ah"]%string
  = [Main.Print "Running MCTS for hand: AS AH";
     Main.CallRunMcts (Main.Hand pocket_aces) 1000;
     match @MCTS.run_mcts demo_ambient 0%nat pocket_aces 1000 with
     | Ok q => Main.PrintWinRate q
     | Raise e => Main.Uncaught e
     end]
  ∧ @Main.main demo_ambient 0%nat ["main.py"; "AS"]%string
    = [Main.Print "Usage: python main.py [card1] [card2]. Example: python main.py JD QC"].
Proof. split; reflexivity. Qed.

(** ** The result monad *)

Lemma bind_Ok {A B} (r : result A) (f : A → result B) (b : B) :
  r ≫= f = Ok b → ∃ a, r = Ok a ∧ f a = Ok b.
Proof. destruct r as [a|e]; simpl; [eauto | discriminate]. Qed.

Lemma mapR_Ok_Forall {A B} (f : A → result B) (l : list A) :
  Forall (λ x, ∃ y, f x = Ok y) l → ∃ ys, mapR f l = Ok ys ∧ length ys = length l.
Proof.
  induction 1 as [|x t [y Hy] _ [ys [IH Hlen]]]; simpl.
  - by exists [].
  - rewrite Hy; simpl. rewrite IH; simpl. exists (y :: ys). simpl. by rewrite Hlen.
Qed.

Lemma mapR_Ok_inv {A B} (f : A → result B) (l : list A) (ys : list B) :
  mapR f l = Ok ys → Forall2 (λ x y, f x = Ok y) l ys.
Proof.
  revert ys; induction l as [|x t IH]; simpl; intros ys Hm.
  - injection Hm as <-. constructor.
  - apply bind_Ok in Hm as (y & Hy & Hm). apply bind_Ok in Hm as (ys' & Hys & Hm).
    injection Hm as <-. constructor; auto.
Qed.

(** ** The order on hand ranks *)

Section RankOrder.

Lemma list_ltb_irrefl a : list_ltb a a = false.
Proof. induction a as [|x a IH]; simpl; [done | by rewrite Z.eqb_refl]. Qed.

Lemma list_ltb_trans a b d :
  list_ltb a b = true → list_ltb b d = true → list_ltb a d = true.
Proof.
  revert b d; induction a as [|x a IH]; intros [|y b] [|z d]; simpl; try done.
  destruct (Z.eqb_spec x y), (Z.eqb_spec y z), (Z.eqb_spec x z); subst;
    try done; try lia; eauto; rewrite ?Z.ltb_lt; lia.
Qed.

Lemma list_ltb_trichotomy a b :
  list_ltb a b = false → list_ltb b a = false → a = b.
Proof.
  revert b; induction a as [|x a IH]; intros [|y b]; simpl; try done.
  rewrite (Z.eqb_sym y x).
  destruct (Z.eqb_spec x y); subst.
  - intros; f_equal; auto.
  - intros ?%Z.ltb_ge ?%Z.ltb_ge; lia.
Qed.

Lemma list_ltb_asym a b : list_ltb a b = true → list_ltb b a = false.
Proof.
  intros Hab. destruct (list_ltb b a) eqn:Hba; [|done].
  pose proof (list_ltb_trans _ _ _ Hab Hba) as Haa.
  by rewrite list_ltb_irrefl in Haa.
Qed.

Lemma rank_ltb_irrefl a : rank_ltb a a = false.
Proof. unfold rank_ltb. by rewrite Z.eqb_refl, list_ltb_irrefl. Qed.

Lemma rank_ltb_trans a b d :
  rank_ltb a b = true → rank_ltb b d = true → rank_ltb a d = true.
Proof.
  destruct a as [x a], b as [y b], d as [z d]; unfold rank_ltb; simpl.
  destruct (Z.eqb_spec x y), (Z.eqb_spec y z), (Z.eqb_spec x z); subst;
    try done; try lia; try apply list_ltb_trans; rewrite ?Z.ltb_lt; lia.
Qed.

Lemma rank_ltb_trichotomy a b :
  rank_ltb a b = false → rank_ltb b a = false → a = b.
Proof.
  destruct a as [x a], b as [y b]; unfold rank_ltb; simpl.
  rewrite (Z.eqb_sym y x).
  destruct (Z.eqb_spec x y); subst.
  - intros; f_equal; by apply list_ltb_trichotomy.
  - intros ?%Z.ltb_ge ?%Z.ltb_ge; lia.
Qed.

Lemma rank_ltb_asym a b : rank_ltb a b = true → rank_ltb b a = false.
Proof.
  intros Hab. destruct (rank_ltb b a) eqn:Hba; [|done].
  pose proof (rank_ltb_trans _ _ _ Hab Hba) as Haa.
  by rewrite rank_ltb_irrefl in Haa.
Qed.

Lemma rank_le_refl a : rank_le a a.
Proof. apply rank_ltb_irrefl. Qed.

Lemma rank_le_trans a b d : rank_le a b → rank_le b d → rank_le a d.
Proof.
  unfold rank_le; intros Hab Hbd.
  destruct (rank_ltb d a) eqn:Hda; [|done].
  destruct (rank_ltb b a) eqn:E1; [done|].
  destruct (rank_ltb a b) eqn:E2.
  - by rewrite (rank_ltb_trans _ _ _ Hda E2) in Hbd.
  - rewrite (rank_ltb_trichotomy _ _ E2 E1) in Hda. congruence.
Qed.

Lemma rank_max_ge_l a b : rank_le a (rank_max a b).
Proof.
  unfold rank_max, rank_le. destruct (rank_ltb a b) eqn:E.
  - by apply rank_ltb_asym.
  - apply rank_ltb_irrefl.
Qed.

Lemma rank_max_ge_r a b : rank_le b (rank_max a b).
Proof.
  unfold rank_max, rank_le. destruct (rank_ltb a b) eqn:E; [|done].
  apply rank_ltb_irrefl.
Qed.

Lemma rank_max_cases a b : rank_max a b = a ∨ rank_max a b = b.
Proof. unfold rank_max. destruct (rank_ltb a b); auto. Qed.

End RankOrder.

(** ** Sorting and counting *)

Section Sorting.

Lemma insert_desc_perm x l : insert_desc x l ≡ₚ x :: l.
Proof.
  induction l as [|y t IH]; simpl; [done|].
  destruct (y <=? x); [done|]. rewrite IH. apply Permutation_swap.
Qed.

Lemma sorted_desc_perm l : sorted_desc l ≡ₚ l.
Proof.
  induction l as [|x t IH]; simpl; [done|].
  unfold sorted_desc in *; simpl. by rewrite insert_desc_perm, IH.
Qed.

Lemma sorted_desc_length l : length (sorted_desc l) = length l.
Proof. by rewrite sorted_desc_perm. Qed.

Lemma elem_of_sorted_desc x l : x ∈ sorted_desc l ↔ x ∈ l.
Proof. by rewrite sorted_desc_perm. Qed.

Lemma insert_desc_sorted x l : Sorted Z.ge l → Sorted Z.ge (insert_desc x l).
Proof.
  induction 1 as [|y t Ht IH Hhd]; simpl.
  - repeat constructor.
  - destruct (Z.leb_spec y x).
    + constructor; [by constructor|]. constructor; lia.
    + constructor; [done|].
      destruct Hhd as [|z t' Hz]; simpl.
      * constructor; lia.
      * destruct (z <=? x); constructor; lia.
Qed.

Lemma sorted_desc_sorted l : Sorted Z.ge (sorted_desc l).
Proof.
  induction l as [|x t IH]; [constructor|].
  by apply insert_desc_sorted.
Qed.

Lemma sorted_desc_strongly l : StronglySorted Z.ge (sorted_desc l).
Proof.
  apply Sorted_StronglySorted; [|apply sorted_desc_sorted].
  intros x y z; lia.
Qed.

(** Five sorted values, spelled out. *)
Lemma sorted_desc_five vs :
  length vs = 5%nat →
  ∃ a b c d e, sorted_desc vs = [a; b; c; d; e] ∧ b ≤ a ∧ c ≤ b ∧ d ≤ c ∧ e ≤ d.
Proof.
  intros Hlen. pose proof (sorted_desc_sorted vs) as Hs.
  rewrite <- sorted_desc_length in Hlen.
  destruct (sorted_desc vs) as [|a [|b [|c [|d [|e [|]]]]]]; try done.
  exists a, b, c, d, e. split; [done|].
  repeat match goal with
         | H : Sorted _ (_ :: _) |- _ => inversion H; clear H; subst
         | H : HdRel _ _ (_ :: _) |- _ => inversion H; clear H; subst
         end.
  lia.
Qed.

End Sorting.

(** ** The five-card ranking *)

Section FiveCards.

(** Five cards with known values always get a rank: no [next] runs dry and
    no [max] is taken of an empty list. *)
Lemma rank_five_card_hand_total hand :
  length hand = 5%nat → Forall valid_card hand → ∃ r, rank_five_card_hand hand = Ok r.
Proof.
  intros Hlen Hv.
  destruct (mapR_Ok_Forall card_value hand Hv) as (vs & Hvs & Hl).
  unfold rank_five_card_hand. rewrite Hvs. cbn [mbind result_bind].
  destruct (sorted_desc_five vs) as (a & b & c & d & e & -> & Hab & Hbc & Hcd & Hde); [lia|].
  generalize (check_straight [a; b; c; d; e]) as st.
  generalize (length (remove_dups (map suit hand)) =? 1)%nat as fl.
  intros fl st.
  unfold Counter, next_with_count, py_next, zmem.
  destruct (Z.eq_dec a b) as [->|], (Z.eq_dec b c) as [->|], (Z.eq_dec c d) as [->|],
    (Z.eq_dec d e) as [->|]; destruct fl, st; decide_tests; eauto;
    match goal with |- context [if ?t then _ else _] => destruct t end; eauto.
Qed.

(** Whatever the hand, a rank that is returned has a category from 0 to 9. *)
Lemma rank_five_card_hand_category hand r :
  rank_five_card_hand hand = Ok r → 0 ≤ fst r ≤ 9.
Proof.
  unfold rank_five_card_hand. intros Hr.
  apply bind_Ok in Hr as (vs & _ & Hr).
  repeat match type of Hr with
         | (if ?t then _ else _) = _ => destruct t
         | _ ≫= _ = _ => apply bind_Ok in Hr as (? & _ & Hr)
         end;
    injection Hr as <-; simpl; lia.
Qed.

End FiveCards.

(** ** Combinations *)

Section Combinations.
Context {A : Type}.
Implicit Types l c : list A.

Lemma elem_of_combinations l k c :
  c ∈ combinations l k ↔ c `sublist_of` l ∧ length c = k.
Proof.
  revert k c; induction l as [|x t IH]; intros [|k] c; simpl.
  - rewrite list_elem_of_singleton. split.
    + intros ->. done.
    + intros [_ Hl]. by destruct c.
  - rewrite elem_of_nil. split; [done|]. intros [Hs Hl].
    apply sublist_nil_r in Hs as ->. done.
  - rewrite list_elem_of_singleton. split.
    + intros ->. split; [apply sublist_nil_l | done].
    + intros [_ Hl]. by destruct c.
  - rewrite elem_of_app, list_elem_of_fmap. setoid_rewrite IH. split.
    + intros [(c' & -> & Hs & Hl) | [Hs Hl]].
      * split; [by apply sublist_skip | simpl; lia].
      * split; [by apply sublist_cons | done].
    + intros [Hs Hl]. apply sublist_cons_r in Hs as [Hs | (c' & -> & Hs)].
      * right. done.
      * left. exists c'. simpl in Hl. repeat split; [done | lia].
Qed.

Lemma combinations_short l k : (length l < k)%nat → combinations l k = [].
Proof.
  revert k; induction l as [|x t IH]; intros [|k] Hl; simpl in *; try lia; [done|].
  rewrite !IH by lia. done.
Qed.

Lemma combinations_nonempty l k : (k ≤ length l)%nat → combinations l k ≠ [].
Proof.
  intros Hk Hnil.
  assert (take k l ∈ combinations l k) as Hin.
  { apply elem_of_combinations. split; [apply sublist_take | by rewrite length_take_le]. }
  rewrite Hnil in Hin. by apply elem_of_nil in Hin.
Qed.

(** Seven cards have 21 five-card selections. *)
Lemma combinations_7_5 l : length l = 7%nat → length (combinations l 5) = 21%nat.
Proof.
  intros Hl. destruct l as [|x1 [|x2 [|x3 [|x4 [|x5 [|x6 [|x7 [|]]]]]]]]; try done.
Qed.

End Combinations.

(** ** The best hand among the combinations *)

Section Best.

Lemma best_over_spec combos b :
  Forall (λ combo, ∃ r, rank_five_card_hand combo = Ok r) combos →
  ∃ best, best_over b combos = Ok best
    ∧ rank_le b best
    ∧ (best = b ∨ ∃ combo, combo ∈ combos ∧ rank_five_card_hand combo = Ok best)
    ∧ ∀ combo r, combo ∈ combos → rank_five_card_hand combo = Ok r → rank_le r best.
Proof.
  intros Hall; revert b; induction Hall as [|combo rest [r Hr] _ IH]; intros b; simpl.
  - exists b. split_and!; [done | apply rank_le_refl | by left |].
    intros ? ? []%elem_of_nil.
  - rewrite Hr; simpl.
    destruct (IH (rank_max b r)) as (best & Hbest & Hle & Hfrom & Hmax).
    exists best. split_and!; [done | | |].
    + eapply rank_le_trans; [apply rank_max_ge_l | done].
    + destruct Hfrom as [-> | (c' & Hin & Hc')].
      * destruct (rank_max_cases b r) as [-> | ->]; [by left|].
        right. exists combo. split; [left | done].
      * right. exists c'. split; [by right | done].
    + intros c' r' [-> | Hin]%elem_of_cons Hc'.
      * rewrite Hr in Hc'. injection Hc' as <-.
        eapply rank_le_trans; [apply rank_max_ge_r | done].
      * by eapply Hmax.
Qed.

Lemma valid_combinations cards k :
  Forall valid_card cards →
  Forall (λ combo, Forall valid_card combo ∧ length combo = k) (combinations cards k).
Proof.
  intros Hv. apply Forall_forall. intros combo [Hs Hl]%elem_of_combinations.
  split; [|done]. rewrite Forall_forall in Hv. apply Forall_forall.
  intros x Hx. apply Hv. by eapply elem_of_sublist.
Qed.

(** The evaluator never raises on cards with known values. *)
Lemma evaluate_hand_total cards :
  Forall valid_card cards → ∃ r, evaluate_hand cards = Ok r ∧ -1 ≤ fst r ≤ 9.
Proof.
  intros Hv. unfold evaluate_hand.
  destruct (best_over_spec (combinations cards 5) (-1, [])) as (best & Hbest & _ & Hfrom & _).
  { eapply Forall_impl; [by apply valid_combinations|].
    intros combo [Hc Hl]. by apply rank_five_card_hand_total. }
  exists best. split; [done|].
  destruct Hfrom as [-> | (combo & _ & Hc)]; [simpl; lia|].
  apply rank_five_card_hand_category in Hc. lia.
Qed.

End Best.

(** ** The ranking does not depend on the order of the cards *)

Section Permutations.

Lemma sorted_desc_unique l k : l ≡ₚ k → sorted_desc l = sorted_desc k.
Proof.
  intros Hp. apply (StronglySorted_unique_strong Z.ge).
  - intros; lia.
  - apply sorted_desc_strongly.
  - apply sorted_desc_strongly.
  - by rewrite !sorted_desc_perm.
Qed.

Lemma mapR_perm {A B} (f : A → result B) (l k : list A) ys :
  l ≡ₚ k → mapR f l = Ok ys → ∃ zs, mapR f k = Ok zs ∧ ys ≡ₚ zs.
Proof.
  intros Hp; revert ys; induction Hp as [|x l k _ IH|x y l|l k m _ IH1 _ IH2]; intros ys; simpl.
  - intros [= <-]. by exists [].
  - intros (y & Hy & Hm)%bind_Ok. apply bind_Ok in Hm as (ys' & Hys & [= <-]).
    destruct (IH _ Hys) as (zs & -> & Hzs). rewrite Hy; simpl.
    exists (y :: zs). split; [done | by constructor].
  - intros (a & Ha & Hm)%bind_Ok. apply bind_Ok in Hm as (l1 & Hm & [= <-]).
    apply bind_Ok in Hm as (b & Hb & Hm). apply bind_Ok in Hm as (l2 & -> & [= <-]).
    rewrite Ha, Hb; simpl. exists (b :: a :: l2). split; [done | apply Permutation_swap].
  - intros Hys. destruct (IH1 _ Hys) as (zs & Hzs & Hp1).
    destruct (IH2 _ Hzs) as (ws & Hws & Hp2). exists ws. split; [done | by etrans].
Qed.

Lemma remove_dups_length_perm {A} `{EqDecision A} (l k : list A) :
  l ≡ₚ k → length (remove_dups l) = length (remove_dups k).
Proof.
  intros Hp. apply Permutation_length, NoDup_Permutation; try apply NoDup_remove_dups.
  intros x. by rewrite !elem_of_remove_dups, Hp.
Qed.

Lemma rank_five_card_hand_perm hand hand' r :
  hand ≡ₚ hand' → rank_five_card_hand hand = Ok r → rank_five_card_hand hand' = Ok r.
Proof.
  intros Hp. unfold rank_five_card_hand. intros (vs & Hvs & Hr)%bind_Ok.
  destruct (mapR_perm _ _ _ _ Hp Hvs) as (zs & -> & Hzs). simpl.
  rewrite <- (sorted_desc_unique _ _ Hzs).
  rewrite <- (remove_dups_length_perm (map suit hand) (map suit hand'));
    [done | by apply fmap_Permutation].
Qed.

End Permutations.

(** ** Claims about the evaluator *)

Lemma sentinel_below (r : HandRank) : 0 ≤ fst r → rank_ltb (-1, []) r = true.
Proof.
  destruct r as [k t]. unfold rank_ltb. cbn [fst snd]. intros Hk.
  destruct (Z.eqb_spec (-1) k); [lia|]. apply Z.ltb_lt. lia.
Qed.

(** C1. On at least five cards with known values, [evaluate_hand] returns
    the maximum of [rank_five_card_hand] over the five-card selections: the
    result is the rank of one of them and no five cards taken from the
    input, in any order, rank above it; seven cards give 21 selections. *)
Theorem evaluate_hand_is_maximum (cards : list Card) :
  Forall valid_card cards → (5 ≤ length cards)%nat →
  ∃ best, evaluate_hand cards = Ok best
    ∧ (∃ combo, combo ∈ combinations cards 5 ∧ combo `sublist_of` cards
         ∧ length combo = 5%nat ∧ rank_five_card_hand combo = Ok best)
    ∧ (∀ combo, combo ⊆+ cards → length combo = 5%nat →
         ∃ r, rank_five_card_hand combo = Ok r ∧ rank_le r best)
    ∧ (length cards = 7%nat → length (combinations cards 5) = 21%nat).
Proof.
  intros Hv Hlen. unfold evaluate_hand.
  destruct (best_over_spec (combinations cards 5) (-1, [])) as (best & Hbest & _ & Hfrom & Hmax).
  { eapply Forall_impl; [by apply valid_combinations|].
    intros combo [Hc Hl]. by apply rank_five_card_hand_total. }
  assert (∀ combo, combo ∈ combinations cards 5 →
            ∃ r, rank_five_card_hand combo = Ok r ∧ rank_le r best) as Hall.
  { intros combo Hin.
    pose proof (valid_combinations cards 5 Hv) as Hvc. rewrite Forall_forall in Hvc.
    destruct (Hvc _ Hin) as [Hvalid Hl].
    destruct (rank_five_card_hand_total combo Hl Hvalid) as [r Hr]. eauto. }
  exists best. split_and!; [done | | | apply combinations_7_5].
  - destruct Hfrom as [-> | (combo & Hin & Hc)].
    + destruct (combinations cards 5) as [|combo rest] eqn:E.
      { by apply combinations_nonempty in E. }
      destruct (Hall combo) as (r & Hr & Hle); [left|].
      apply rank_five_card_hand_category in Hr.
      unfold rank_le in Hle. rewrite sentinel_below in Hle; [done | lia].
    + exists combo. pose proof Hin as [? ?]%elem_of_combinations. done.
  - intros combo (combo' & Hp & Hs)%submseteq_sublist_r Hl.
    destruct (Hall combo') as (r & Hr & Hle).
    { apply elem_of_combinations. split; [done | by rewrite <- Hp]. }
    exists r. split; [|done]. eapply rank_five_card_hand_perm; [symmetry|]; done.
Qed.

(** C10. Fewer than five cards give no combination: [evaluate_hand] returns
    the sentinel [(-1, [])] without raising, and the sentinel is strictly
    below every rank that [rank_five_card_hand] can return. *)
Theorem evaluate_hand_short (cards : list Card) :
  (length cards < 5)%nat →
  evaluate_hand cards = Ok (-1, [])
  ∧ ∀ hand r, rank_five_card_hand hand = Ok r → rank_ltb (-1, []) r = true.
Proof.
  intros Hlen. split.
  - unfold evaluate_hand. by rewrite combinations_short.
  - intros hand r Hr%rank_five_card_hand_category. apply sentinel_below. lia.
Qed.

Lemma evaluate_hand_is_maximum_witness :
  Forall valid_card seven_cards ∧ (5 ≤ length seven_cards)%nat
  ∧ ∃ best, evaluate_hand seven_cards = Ok best
      ∧ ∀ combo, combo ⊆+ seven_cards → length combo = 5%nat →
          ∃ r, rank_five_card_hand combo = Ok r ∧ rank_le r best.
Proof.
  assert (Forall valid_card seven_cards) as Hv by (repeat constructor; by eexists).
  assert (5 ≤ length seven_cards)%nat as Hl by (simpl; lia).
  split_and!; [done | done |].
  destruct (evaluate_hand_is_maximum seven_cards Hv Hl) as (best & Hb & _ & Hmax & _).
  exists best. by split.
Defined.

Lemma evaluate_hand_short_witness :
  (length four_cards < 5)%nat ∧ evaluate_hand four_cards = Ok (-1, []).
Proof.
  split; [simpl; lia|]. apply (evaluate_hand_short four_cards). simpl; lia.
Defined.

(** C2. With two-card hands and a five-card board of known cards, both
    seven-card hands are evaluated; the rollout is 1 when the player's rank
    is strictly higher, 0 when strictly lower, and 1/2 exactly when the two
    ranks are the same category and tiebreak list. *)
Theorem rollout_simulation_spec (player_hand opponent_hand board : list Card) :
  length player_hand = 2%nat → length opponent_hand = 2%nat → length board = 5%nat →
  Forall valid_card (player_hand ++ opponent_hand ++ board) →
  ∃ player_rank opponent_rank,
    evaluate_hand (player_hand ++ board) = Ok player_rank
    ∧ evaluate_hand (opponent_hand ++ board) = Ok opponent_rank
    ∧ (rank_ltb opponent_rank player_rank = true →
         MCTS.rollout_simulation player_hand opponent_hand board = Ok 1%Q)
    ∧ (rank_ltb player_rank opponent_rank = true →
         MCTS.rollout_simulation player_hand opponent_hand board = Ok 0%Q)
    ∧ (player_rank = opponent_rank →
         MCTS.rollout_simulation player_hand opponent_hand board = Ok (1 # 2)%Q)
    ∧ (rank_ltb opponent_rank player_rank = true
       ∨ rank_ltb player_rank opponent_rank = true
       ∨ player_rank = opponent_rank).
Proof.
  intros _ _ _ Hv. rewrite !Forall_app in Hv. destruct Hv as (Hp & Ho & Hb).
  destruct (evaluate_hand_total (player_hand ++ board)) as (rp & Hrp & _);
    [by apply Forall_app|].
  destruct (evaluate_hand_total (opponent_hand ++ board)) as (ro & Hro & _);
    [by apply Forall_app|].
  exists rp, ro. unfold MCTS.rollout_simulation. rewrite Hrp, Hro. simpl.
  split_and!; try done.
  - by intros ->.
  - intros Hlt. by rewrite (rank_ltb_asym _ _ Hlt), Hlt.
  - intros ->. by rewrite rank_ltb_irrefl.
  - destruct (rank_ltb ro rp) eqn:E1; [by left|].
    destruct (rank_ltb rp ro) eqn:E2; [by right; left|].
    right; right. by apply rank_ltb_trichotomy.
Qed.

Lemma rollout_simulation_spec_witness :
  MCTS.rollout_simulation pocket_aces pocket_kings low_board = Ok 1%Q
  ∧ MCTS.rollout_simulation pocket_kings pocket_aces low_board = Ok 0%Q
  ∧ MCTS.rollout_simulation low_pair low_cards straight_board = Ok (1 # 2)%Q.
Proof.
  split_and!.
  - destruct (rollout_simulation_spec pocket_aces pocket_kings low_board)
      as (rp & ro & Hp & Ho & Hwin & _); [done | done | done | |].
    { repeat constructor; by eexists. }
    apply Hwin. vm_compute in Hp, Ho. injection Hp as <-. injection Ho as <-. reflexivity.
  - destruct (rollout_simulation_spec pocket_kings pocket_aces low_board)
      as (rp & ro & Hp & Ho & _ & Hlose & _); [done | done | done | |].
    { repeat constructor; by eexists. }
    apply Hlose. vm_compute in Hp, Ho. injection Hp as <-. injection Ho as <-. reflexivity.
  - destruct (rollout_simulation_spec low_pair low_cards straight_board)
      as (rp & ro & Hp & Ho & _ & _ & Htie & _); [done | done | done | |].
    { repeat constructor; by eexists. }
    apply Htie. vm_compute in Hp, Ho. injection Hp as <-. injection Ho as <-. reflexivity.
Defined.

(** ** Straight detection *)

Section Straight.

Lemma zmem_spec x l : zmem x l = true ↔ x ∈ l.
Proof.
  unfold zmem. rewrite existsb_exists. setoid_rewrite <- list_elem_of_In. split.
  - intros (y & Hy & ->%Z.eqb_eq). done.
  - intros Hx. exists x. by rewrite Z.eqb_refl.
Qed.

Lemma strictly_desc l : StronglySorted Z.ge l → NoDup l → StronglySorted Z.gt l.
Proof.
  induction 1 as [|x t Ht IH Hx]; intros Hnd; [constructor|].
  apply NoDup_cons in Hnd as [Hnotin Hnd].
  constructor; [by apply IH|].
  rewrite Forall_forall in Hx |- *. intros y Hy.
  specialize (Hx y Hy). assert (x ≠ y) by (intros ->; done). lia.
Qed.

Lemma distinct_desc values :
  StronglySorted Z.gt (sorted_desc (remove_dups values))
  ∧ ∀ v, v ∈ sorted_desc (remove_dups values) ↔ v ∈ values.
Proof.
  split.
  - apply strictly_desc; [apply sorted_desc_strongly|].
    rewrite sorted_desc_perm. apply NoDup_remove_dups.
  - intros v. by rewrite elem_of_sorted_desc, elem_of_remove_dups.
Qed.

Lemma desc_lookup_lt (l : list Z) i j a b :
  StronglySorted Z.gt l → l !! i = Some a → l !! j = Some b → (i < j)%nat → b < a.
Proof.
  intros Hs; revert i j; induction Hs as [|x t _ IH Hx]; intros i j Hi Hj Hij.
  - done.
  - destruct j as [|j]; [lia|]. simpl in Hj. destruct i as [|i]; simpl in Hi.
    + injection Hi as ->. rewrite Forall_forall in Hx.
      assert (a > b); [|lia]. apply Hx. by eapply list_elem_of_lookup_2.
    + eapply IH; [done | done | lia].
Qed.

Lemma desc_lookup_next (l : list Z) i j a :
  StronglySorted Z.gt l → l !! i = Some a → l !! j = Some (a - 1) → j = S i.
Proof.
  intros Hs Hi Hj.
  destruct (lt_eq_lt_dec i j) as [[Hlt | ->] | Hgt].
  - destruct (decide (j = S i)) as [|Hne]; [done|].
    destruct (l !! S i) as [m|] eqn:Hm.
    + pose proof (desc_lookup_lt l i (S i) a m Hs Hi Hm).
      pose proof (desc_lookup_lt l (S i) j m (a - 1) Hs Hm Hj). lia.
    + apply lookup_ge_None in Hm. apply lookup_lt_Some in Hj. lia.
  - rewrite Hi in Hj. injection Hj. lia.
  - pose proof (desc_lookup_lt l j i (a - 1) a Hs Hj Hi). lia.
Qed.

(** The window test on the distinct, descending values. *)
Lemma window_test (l : list Z) :
  existsb (λ i : nat, nth i l 0 - nth (i + 4) l 0 =? 4) (seq 0 (length l - 4)) = true
  ↔ ∃ i hi lo, l !! i = Some hi ∧ l !! (i + 4)%nat = Some lo ∧ hi - lo = 4.
Proof.
  rewrite existsb_exists. split.
  - intros (i & Hin & Htest). apply in_seq in Hin. apply Z.eqb_eq in Htest.
    destruct (lookup_lt_is_Some_2 l i) as [hi Hhi]; [lia|].
    destruct (lookup_lt_is_Some_2 l (i + 4)) as [lo Hlo]; [lia|].
    exists i, hi, lo. rewrite !nth_lookup, Hhi, Hlo in Htest. done.
  - intros (i & hi & lo & Hhi & Hlo & Hd). exists i. split.
    + apply in_seq. apply lookup_lt_Some in Hlo. lia.
    + rewrite !nth_lookup, Hhi, Hlo. simpl. by apply Z.eqb_eq.
Qed.

Lemma wheel_test (l : list Z) :
  forallb (λ v, zmem v l) [14; 2; 3; 4; 5] = true ↔ ∀ v, v ∈ [14; 5; 4; 3; 2] → v ∈ l.
Proof.
  rewrite forallb_forall. setoid_rewrite <- list_elem_of_In. setoid_rewrite zmem_spec.
  split; intros Hw v Hv; apply Hw;
    rewrite !elem_of_cons, elem_of_nil in Hv |- *; tauto.
Qed.

Lemma check_straight_window values :
  check_straight values = true ↔
    (∃ i hi lo, sorted_desc (remove_dups values) !! i = Some hi
                ∧ sorted_desc (remove_dups values) !! (i + 4)%nat = Some lo ∧ hi - lo = 4)
    ∨ (∀ v, v ∈ [14; 5; 4; 3; 2] → v ∈ values).
Proof.
  unfold check_straight. cbv zeta.
  rewrite <- window_test.
  setoid_rewrite <- (proj2 (distinct_desc values)). rewrite <- wheel_test.
  destruct (existsb _ (seq _ _)); [by intuition|].
  destruct (forallb _ _); intuition congruence.
Qed.

(** Straight detection, in terms of the values alone. *)
Lemma check_straight_values values :
  check_straight values = true ↔ straight_values values.
Proof.
  rewrite check_straight_window. unfold straight_values.
  destruct (distinct_desc values) as [Hs Hmem].
  set (l := sorted_desc (remove_dups values)) in *.
  apply or_iff_compat_r. split.
  - intros (i & hi & lo & Hhi & Hlo & Hd). exists hi.
    destruct (lookup_lt_is_Some_2 l (i + 1)) as [a1 H1];
      [apply lookup_lt_Some in Hlo; lia|].
    destruct (lookup_lt_is_Some_2 l (i + 2)) as [a2 H2];
      [apply lookup_lt_Some in Hlo; lia|].
    destruct (lookup_lt_is_Some_2 l (i + 3)) as [a3 H3];
      [apply lookup_lt_Some in Hlo; lia|].
    pose proof (desc_lookup_lt l i (i + 1) _ _ Hs Hhi H1 ltac:(lia)).
    pose proof (desc_lookup_lt l (i + 1) (i + 2) _ _ Hs H1 H2 ltac:(lia)).
    pose proof (desc_lookup_lt l (i + 2) (i + 3) _ _ Hs H2 H3 ltac:(lia)).
    pose proof (desc_lookup_lt l (i + 3) (i + 4) _ _ Hs H3 Hlo ltac:(lia)).
    intros d Hd04. apply Hmem.
    assert (d = 0 ∨ d = 1 ∨ d = 2 ∨ d = 3 ∨ d = 4) as [-> | [-> | [-> | [-> | ->]]]] by lia.
    + replace (hi - 0) with hi by lia. by eapply list_elem_of_lookup_2.
    + replace (hi - 1) with a1 by lia. by eapply list_elem_of_lookup_2.
    + replace (hi - 2) with a2 by lia. by eapply list_elem_of_lookup_2.
    + replace (hi - 3) with a3 by lia. by eapply list_elem_of_lookup_2.
    + replace (hi - 4) with lo by lia. by eapply list_elem_of_lookup_2.
  - intros (hi & Hall).
    assert (∀ d, 0 ≤ d ≤ 4 → ∃ i, l !! i = Some (hi - d)) as Hidx.
    { intros d Hd. apply list_elem_of_lookup_1, Hmem, Hall, Hd. }
    destruct (Hidx 0) as [i0 H0]; [lia|]. destruct (Hidx 1) as [i1 H1]; [lia|].
    destruct (Hidx 2) as [i2 H2]; [lia|]. destruct (Hidx 3) as [i3 H3]; [lia|].
    destruct (Hidx 4) as [i4 H4]; [lia|].
    assert (i1 = S i0) as ->.
    { eapply desc_lookup_next; [done | done |]. by replace (hi - 0 - 1) with (hi - 1) by lia. }
    assert (i2 = S (S i0)) as ->.
    { eapply desc_lookup_next; [done | done |]. by replace (hi - 1 - 1) with (hi - 2) by lia. }
    assert (i3 = S (S (S i0))) as ->.
    { eapply desc_lookup_next; [done | done |]. by replace (hi - 2 - 1) with (hi - 3) by lia. }
    assert (i4 = S (S (S (S i0)))) as ->.
    { eapply desc_lookup_next; [done | done |]. by replace (hi - 3 - 1) with (hi - 4) by lia. }
    exists i0, (hi - 0), (hi - 4). split_and!; [done | | lia].
    by replace (i0 + 4)%nat with (S (S (S (S i0)))) by lia.
Qed.

End Straight.

Section Flush.

Lemma py_max_spec l m : py_max l = Ok m → m ∈ l ∧ ∀ v, v ∈ l → v ≤ m.
Proof.
  destruct l as [|x t]; simpl; [done|]. intros [= <-].
  revert x; induction t as [|y t IH]; intros x; simpl.
  - split; [left|]. by intros v ->%list_elem_of_singleton.
  - destruct (IH (x `max` y)) as [Hin Hmax]. split.
    + apply elem_of_cons in Hin as [-> | Hin]; [|by right; right].
      destruct (Z.max_spec x y) as [[_ ->] | [_ ->]]; [right; left | left].
    + intros v Hv. rewrite !elem_of_cons in Hv.
      destruct Hv as [-> | [-> | Hv]].
      * etrans; [apply (Z.le_max_l _ y)|]. apply Hmax. left.
      * etrans; [apply (Z.le_max_r x)|]. apply Hmax. left.
      * apply Hmax. by right.
Qed.

Lemma py_max_perm l k m : l ≡ₚ k → py_max l = Ok m → py_max k = Ok m.
Proof.
  intros Hp Hl. destruct (py_max_spec _ _ Hl) as [Hin Hmax].
  destruct k as [|y k']; [by apply Permutation_nil_r in Hp; subst|].
  destruct (py_max (y :: k')) as [m'|] eqn:Hk; [|done].
  destruct (py_max_spec _ _ Hk) as [Hin' Hmax'].
  f_equal. apply Z.le_antisymm.
  - apply Hmax. by rewrite Hp.
  - apply Hmax'. by rewrite <- Hp.
Qed.

Lemma same_suit_flush hand :
  same_suit hand → length (remove_dups (map suit hand)) = 1%nat.
Proof.
  intros (s & Hne & Hall).
  induction hand as [|x [|y t] IH]; [done | done |].
  change (map suit (x :: y :: t)) with (suit x :: map suit (y :: t)).
  cbn [remove_dups]. destruct (decide_rel _ _ _) as [_ | Hnot].
  - apply IH; [done|]. intros z Hz. apply Hall. by right.
  - destruct Hnot. rewrite (Hall x), <- (Hall y); [left | right; left | left].
Qed.

End Flush.

(** C6. A five-card hand of one suit whose values form a straight gets
    category 9 when its highest value is 14 and category 8 otherwise,
    whatever the later tests of the cascade would say. *)
Theorem straight_flush_category (hand : list Card) (values : list Z) :
  length hand = 5%nat → mapR card_value hand = Ok values →
  same_suit hand → straight_values values →
  ∃ high, high ∈ values ∧ (∀ v, v ∈ values → v ≤ high)
    ∧ rank_five_card_hand hand
      = Ok (if high =? 14 then 9 else 8, sorted_desc values).
Proof.
  intros Hlen Hvs Hflush Hstraight.
  assert (length values = 5%nat) as Hl.
  { apply mapR_Ok_inv, Forall2_length in Hvs. lia. }
  destruct (py_max values) as [high|] eqn:Hmax; [|by destruct values].
  exists high. destruct (py_max_spec _ _ Hmax) as [Hin Hle].
  split_and!; [done | done |].
  unfold rank_five_card_hand. rewrite Hvs. cbn [mbind result_bind].
  rewrite (same_suit_flush hand Hflush). cbn [Nat.eqb].
  assert (check_straight (sorted_desc values) = true) as ->.
  { apply check_straight_values.
    destruct Hstraight as [(hi & Hall) | Hw]; [left; exists hi | right];
      intros; apply elem_of_sorted_desc; auto. }
  cbn [andb].
  rewrite (py_max_perm values (sorted_desc values) high); [|by rewrite sorted_desc_perm | done].
  cbn [mbind result_bind]. by destruct (high =? 14).
Qed.

Lemma straight_flush_category_witness :
  rank_five_card_hand (map card ["9H"; "KH"; "QH"; "TH"; "JH"]%string)
    = Ok (8, [13; 12; 11; 10; 9])
  ∧ rank_five_card_hand (map card ["TS"; "KS"; "QS"; "AS"; "JS"]%string)
    = Ok (9, [14; 13; 12; 11; 10]).
Proof.
  split.
  - destruct (straight_flush_category (map card ["9H"; "KH"; "QH"; "TH"; "JH"]%string)
               [9; 13; 12; 10; 11]) as (high & Hin & Hmax & Hr); [done | done | | |].
    { exists "H"%string. split; [done|]. apply Forall_forall. by repeat constructor. }
    { left. exists 13. intros d Hd.
      assert (d = 0 ∨ d = 1 ∨ d = 2 ∨ d = 3 ∨ d = 4) as [->|[->|[->|[->| ->]]]] by lia;
        rewrite !elem_of_cons; tauto. }
    assert (high = 13) as ->.
    { apply Z.le_antisymm; [|apply Hmax; rewrite !elem_of_cons; tauto].
      rewrite !elem_of_cons, elem_of_nil in Hin. lia. }
    exact Hr.
  - destruct (straight_flush_category (map card ["TS"; "KS"; "QS"; "AS"; "JS"]%string)
               [10; 13; 12; 14; 11]) as (high & Hin & Hmax & Hr); [done | done | | |].
    { exists "S"%string. split; [done|]. apply Forall_forall. by repeat constructor. }
    { left. exists 14. intros d Hd.
      assert (d = 0 ∨ d = 1 ∨ d = 2 ∨ d = 3 ∨ d = 4) as [->|[->|[->|[->| ->]]]] by lia;
        rewrite !elem_of_cons; tauto. }
    assert (high = 14) as ->.
    { apply Z.le_antisymm; [|apply Hmax; rewrite !elem_of_cons; tauto].
      rewrite !elem_of_cons, elem_of_nil in Hin. lia. }
    exact Hr.
Defined.

(** C7. The wheel A-2-3-4-5 of mixed suits ranks as a straight, category 4,
    with the Ace still first in the tiebreak list.  Straight detection works
    on the distinct values in descending order: it accepts when two of them
    four places apart differ by exactly 4, or when 14, 5, 4, 3 and 2 are all
    among the values. *)
Theorem wheel_is_a_straight :
  rank_five_card_hand wheel_hand = Ok (4, [14; 5; 4; 3; 2])
  ∧ ∀ values, ∃ distinct,
      StronglySorted Z.gt distinct
      ∧ (∀ v, v ∈ distinct ↔ v ∈ values)
      ∧ (check_straight values = true ↔
           (∃ i hi lo, distinct !! i = Some hi ∧ distinct !! (i + 4)%nat = Some lo
                       ∧ hi - lo = 4)
           ∨ (∀ v, v ∈ [14; 5; 4; 3; 2] → v ∈ values)).
Proof.
  split; [reflexivity|].
  intros values. exists (sorted_desc (remove_dups values)).
  destruct (distinct_desc values) as [Hs Hmem].
  split_and!; [done | done | apply check_straight_window].
Qed.

(** ** The search tree *)

Import MCTS Tree.

Section Backprop.

Lemma get_Some (h : Store) i nd : h !! i = Some nd → get h i = Ok nd.
Proof. unfold get. by intros ->. Qed.

Lemma get_lt (h : Store) i : (i < length h)%nat → ∃ nd, h !! i = Some nd ∧ get h i = Ok nd.
Proof.
  intros Hi. destruct (lookup_lt_is_Some_2 h i Hi) as [nd Hnd].
  exists nd. split; [done | by apply get_Some].
Qed.

Lemma on_path_le h i j : parents_ok h → on_path h i j → (j ≤ i)%nat.
Proof.
  intros Hp. induction 1 as [|i nd p j Hi Hpar _ IH]; [done|].
  specialize (Hp i nd p Hi Hpar). lia.
Qed.

Lemma on_path_inv h i j nd :
  h !! i = Some nd → on_path h i j →
  j = i ∨ ∃ p, parent nd = Some p ∧ on_path h p j.
Proof.
  intros Hi Hpath. inversion Hpath as [|? nd' p ? Hi' Hpar Hrest]; subst; [by left|].
  right. exists p. rewrite Hi in Hi'. injection Hi' as <-. done.
Qed.

(** Updating statistics does not change who is whose ancestor. *)
Lemma on_path_update h i nd nd' a b :
  h !! i = Some nd → parent nd' = parent nd →
  on_path (<[i := nd']> h) a b ↔ on_path h a b.
Proof.
  intros Hi Hpar. split.
  - induction 1 as [|a x p b Ha Hx _ IH]; [constructor|].
    destruct (decide (a = i)) as [->|Hne].
    + rewrite list_lookup_insert_eq in Ha by (by eapply lookup_lt_Some).
      injection Ha as <-. eapply on_path_up; [done | by rewrite <- Hpar | done].
    + rewrite list_lookup_insert_ne in Ha by done. by eapply on_path_up.
  - induction 1 as [|a x p b Ha Hx _ IH]; [constructor|].
    destruct (decide (a = i)) as [->|Hne].
    + rewrite Hi in Ha. injection Ha as <-.
      eapply on_path_up; [|by rewrite Hpar|done].
      apply list_lookup_insert_eq. by eapply lookup_lt_Some.
    + eapply on_path_up; [|done|done]. by rewrite list_lookup_insert_ne.
Qed.

Lemma parents_ok_update h i nd nd' :
  parents_ok h → h !! i = Some nd → parent nd' = parent nd →
  parents_ok (<[i := nd']> h).
Proof.
  intros Hp Hi Hpar j x p Hj Hx.
  destruct (decide (j = i)) as [->|Hne].
  - rewrite list_lookup_insert_eq in Hj by (by eapply lookup_lt_Some).
    injection Hj as <-. rewrite Hpar in Hx. by eapply Hp.
  - rewrite list_lookup_insert_ne in Hj by done. by eapply Hp.
Qed.

Lemma backpropagate_spec r fuel : ∀ h i,
  parents_ok h → (i < length h)%nat → (i < fuel)%nat →
  ∃ h', backpropagate fuel h i r = Ok h' ∧ length h' = length h ∧
    ∀ j nd, h !! j = Some nd →
      (on_path h i j → h' !! j = Some (bump r nd))
      ∧ (¬ on_path h i j → h' !! j = Some nd).
Proof.
  induction fuel as [|fuel IH]; intros h i Hp Hi Hfuel; [lia|].
  destruct (get_lt h i Hi) as (self & Hself & Hget).
  cbn [backpropagate]. rewrite Hget. cbn [mbind result_bind].
  change (set_wins _ (set_visits _ self)) with (bump r self).
  set (h2 := <[i := bump r self]> h).
  assert (∀ j, j ≠ i → h2 !! j = h !! j) as Hother.
  { intros j Hj. unfold h2. by rewrite list_lookup_insert_ne. }
  assert (h2 !! i = Some (bump r self)) as Hi2.
  { unfold h2. by rewrite list_lookup_insert_eq. }
  destruct (parent self) as [p|] eqn:Hpar.
  - pose proof (Hp i self p Hself Hpar) as Hlt.
    destruct (IH h2 p) as (h' & Hrun & Hlen & Hspec).
    { by eapply parents_ok_update. }
    { unfold h2. rewrite length_insert. lia. }
    { lia. }
    exists h'. split; [done|]. split; [by unfold h2 in Hlen; rewrite length_insert in Hlen|].
    intros j nd Hj. destruct (decide (j = i)) as [->|Hne].
    + rewrite Hself in Hj. injection Hj as <-.
      destruct (Hspec i (bump r self) Hi2) as [_ Hkeep].
      split; [intros _ | intros []; constructor].
      apply Hkeep. intros Hpath. apply (on_path_update h i self) in Hpath; [|done..].
      apply on_path_le in Hpath; [lia | done].
    + rewrite <- Hother in Hj by done. destruct (Hspec j nd Hj) as [Hyes Hno].
      split.
      * intros Hpath. apply Hyes. apply (on_path_update h i self); [done..|].
        destruct (on_path_inv h i j self Hself Hpath) as [-> | (p' & Hp' & Hrest)]; [done|].
        rewrite Hpar in Hp'. by injection Hp' as <-.
      * intros Hnot. apply Hno. intros Hpath. apply Hnot.
        apply (on_path_update h i self) in Hpath; [|done..].
        by eapply on_path_up.
  - exists h2. split; [done|]. split; [by unfold h2; rewrite length_insert|].
    intros j nd Hj. destruct (decide (j = i)) as [->|Hne].
    + rewrite Hself in Hj. injection Hj as <-.
      split; [done | intros []; constructor].
    + rewrite Hother by done. split; [|done].
      intros Hpath. destruct (on_path_inv h i j self Hself Hpath) as [-> | (p' & Hp' & _)];
        [done | congruence].
Qed.

End Backprop.

(** ** Dealing and rollouts *)

Section DeckFacts.

Lemma fresh_cards_NoDup : NoDup Deck.fresh_cards.
Proof. apply (bool_decide_unpack _). by vm_compute. Qed.

Lemma fresh_cards_valid : Forall valid_card Deck.fresh_cards.
Proof. repeat constructor; by eexists. Qed.

Lemma fresh_cards_length : length Deck.fresh_cards = 52%nat.
Proof. reflexivity. Qed.

Lemma remove_card_length d x :
  NoDup (Deck.cards d) →
  (length (Deck.cards d) ≤ S (length (Deck.cards (Deck.remove_card d x))))%nat.
Proof.
  unfold Deck.remove_card; simpl. induction 1 as [|y t Hy _ IH]; simpl; [lia|].
  rewrite filter_cons. destruct (decide (y ≠ x)) as [Hne | Heq]; simpl; [lia|].
  apply dec_stable in Heq as ->.
  assert (filter (λ z, z ≠ x) t = t) as ->; [|lia].
  clear IH. induction t as [|z t IH]; [done|].
  rewrite filter_cons. rewrite not_elem_of_cons in Hy. destruct Hy as [Hxz Hy].
  rewrite decide_True by done. f_equal. by apply IH.
Qed.

Lemma remove_cards_spec used : ∀ d,
  NoDup (Deck.cards d) →
  NoDup (Deck.cards (foldl Deck.remove_card d used))
  ∧ Deck.cards (foldl Deck.remove_card d used) ⊆ Deck.cards d
  ∧ (length (Deck.cards d)
     ≤ length (Deck.cards (foldl Deck.remove_card d used)) + length used)%nat.
Proof.
  induction used as [|x used IH]; intros d Hnd; simpl.
  - split_and!; [done | done | lia].
  - destruct (IH (Deck.remove_card d x)) as (Hnd' & Hsub & Hlen).
    { by apply NoDup_filter. }
    split_and!; [done | | ].
    + etrans; [done|]. intros y Hy. unfold Deck.remove_card in Hy; simpl in Hy.
      by apply list_elem_of_filter in Hy as [_ ?].
    + pose proof (remove_card_length d x Hnd). lia.
Qed.

Lemma deal_hand_spec n : ∀ d,
  (n ≤ length (Deck.cards d))%nat →
  ∃ xs d', Deck.deal_hand d n = (map Some xs, d')
    ∧ length xs = n ∧ xs ⊆ Deck.cards d
    ∧ Deck.cards d' ⊆ Deck.cards d
    ∧ (length (Deck.cards d') + n = length (Deck.cards d))%nat.
Proof.
  induction n as [|n IH]; intros d Hn; simpl.
  - exists [], d. split_and!; first [done | lia | by intros ? ?%elem_of_nil].
  - unfold Deck.deal_card. destruct d as [l]. simpl in *.
    destruct l as [|c0 cs _] using rev_ind; [simpl in Hn; lia|].
    rewrite last_snoc, removelast_last.
    rewrite length_app in Hn; simpl in Hn.
    destruct (IH (Deck.mkDeck cs)) as (xs & d' & Hdeal & Hlen & Hsub & Hsub' & Hrest);
      [simpl; lia|].
    rewrite Hdeal. exists (c0 :: xs), d'. simpl in *.
    split_and!; [done | by rewrite Hlen | | | rewrite length_app; simpl; lia].
    + intros y [-> | Hy]%elem_of_cons; apply elem_of_app; [right; left | left; auto].
    + intros y Hy. apply elem_of_app. left; auto.
Qed.

Lemma dealt_Some xs : dealt (map Some xs) = Ok xs.
Proof. unfold dealt. induction xs as [|x xs IH]; simpl; [done|]. by rewrite IH. Qed.

End DeckFacts.

Section Rollout.

Lemma rollout_simulation_result ph oh board :
  Forall valid_card ph → Forall valid_card oh → Forall valid_card board →
  ∃ r, rollout_simulation ph oh board = Ok r ∧ is_result r.
Proof.
  intros Hp Ho Hb. unfold rollout_simulation.
  destruct (evaluate_hand_total (ph ++ board)) as (rp & -> & _); [by apply Forall_app|].
  destruct (evaluate_hand_total (oh ++ board)) as (ro & -> & _); [by apply Forall_app|].
  simpl. unfold is_result.
  destruct (rank_ltb ro rp); [eauto|]. destruct (rank_ltb rp ro); eauto.
Qed.

Context `{AmbientLaws}.

Lemma new_deck g :
  Deck.cards (Deck.new g).1 ≡ₚ Deck.fresh_cards.
Proof.
  unfold Deck.new. pose proof (shuffle_perm g Deck.fresh_cards) as Hp.
  destruct (shuffle g Deck.fresh_cards) as [cs g']. done.
Qed.

Lemma simulate_to_end_ok g nd :
  length (player_hand nd) = 2%nat → Forall valid_card (player_hand nd) →
  Forall valid_card (state nd) → length (state nd) = stage_len (stage nd) →
  ∃ r g', simulate_to_end g nd = Ok (r, g') ∧ is_result r.
Proof.
  intros Hph Hpv Hsv Hsl. unfold simulate_to_end.
  pose proof (new_deck g) as Hnew. destruct (Deck.new g) as [deck g']. simpl in Hnew.
  destruct (remove_cards_spec (player_hand nd ++ state nd) deck) as (Hnd & Hsub & Hlen).
  { rewrite Hnew. apply fresh_cards_NoDup. }
  set (deck' := foldl Deck.remove_card deck (player_hand nd ++ state nd)) in *.
  assert (Forall valid_card (Deck.cards deck')) as Hdv.
  { apply Forall_forall. intros x Hx%Hsub. rewrite Hnew in Hx.
    pose proof fresh_cards_valid as Hf. rewrite Forall_forall in Hf. auto. }
  assert (length (Deck.cards deck) = 52%nat) as H52 by (by rewrite Hnew).
  rewrite length_app, Hph, Hsl in Hlen.
  assert (∀ xs, xs ⊆ Deck.cards deck' → Forall valid_card xs) as Hsubv.
  { intros xs Hxs. apply Forall_forall. intros x Hx%Hxs.
    rewrite Forall_forall in Hdv. auto. }
  assert (length (state nd) ≤ 7)%nat as Hs7 by (rewrite Hsl; destruct (stage nd); simpl; lia).
  set (oc := match stage nd with
             | opponent => (state nd, [])
             | flop | turn | river => (take 2 (state nd), drop 2 (state nd))
             | root | done => ([], [])
             end).
  assert (Forall valid_card oc.1 ∧ Forall valid_card oc.2 ∧ (length oc.2 ≤ 5)%nat)
    as (Hov & Hcv & Hcl).
  { unfold oc. destruct (stage nd); simpl in *;
      rewrite ?length_drop, ?Hsl; split_and!;
      auto using Forall_take, Forall_drop; lia. }
  destruct oc as [opp comm]. simpl in Hov, Hcv, Hcl.
  set (od := match opp with
             | [] => Deck.deal_hand deck' 2
             | _ :: _ => (map Some opp, deck')
             end).
  assert (∃ oh d1, od = (map Some oh, d1) ∧ Forall valid_card oh
            ∧ Deck.cards d1 ⊆ Deck.cards deck'
            ∧ (5 ≤ length (Deck.cards d1))%nat) as (oh & d1 & -> & Hohv & Hd1 & Hd1l).
  { unfold od. destruct opp as [|o os].
    - destruct (deal_hand_spec 2 deck') as (oh & d1 & Hd & Hl1 & Hs1 & Hs1' & Hr1); [lia|].
      exists oh, d1. split_and!; [done | by apply Hsubv | done | lia].
    - exists (o :: os), deck'. split_and!; [done | done | done | lia]. }
  set (cc := if 0 <? 5 - Z.of_nat (length comm)
             then map Some comm ++ (Deck.deal_hand d1 (Z.to_nat (5 - Z.of_nat (length comm)))).1
             else map Some comm).
  assert (∃ board, cc = map Some board ∧ Forall valid_card board) as (board & -> & Hbv).
  { unfold cc. destruct (Z.ltb_spec 0 (5 - Z.of_nat (length comm))).
    - destruct (deal_hand_spec (Z.to_nat (5 - Z.of_nat (length comm))) d1)
        as (xs & d2 & -> & _ & Hxs & _); [lia|].
      exists (comm ++ xs). rewrite map_app. split; [done|].
      apply Forall_app. split; [done|]. apply Hsubv. by etrans.
    - by exists comm. }
  rewrite !dealt_Some. cbn [mbind result_bind].
  destruct (rollout_simulation_result (player_hand nd) oh board) as (r & -> & Hr);
    [done..|].
  cbn [mbind result_bind]. eauto.
Qed.

End Rollout.

(** ** Sampling and selection *)

Section Sampling.
Context `{AmbientLaws}.

Lemma sample_elem {A} g (l : list A) k x : x ∈ (sample g l k).1 → x ∈ l.
Proof. intros Hx. eapply elem_of_submseteq; [done | apply sample_submseteq]. Qed.

Lemma new_deck_valid g x : x ∈ Deck.cards (Deck.new g).1 → valid_card x.
Proof.
  rewrite new_deck. pose proof fresh_cards_valid as Hf.
  rewrite Forall_forall in Hf. auto.
Qed.

Lemma combination_valid (l : list Card) k a :
  (∀ x, x ∈ l → valid_card x) → a ∈ combinations l k →
  Forall valid_card a ∧ length a = k.
Proof.
  intros Hl [Hs Hlen]%elem_of_combinations. split; [|done].
  apply Forall_forall. intros x Hx. apply Hl. by eapply elem_of_sublist.
Qed.

Lemma sample_opponent_hands_ok g ph :
  length ph = 2%nat →
  ∃ u g', sample_opponent_hands g ph = Ok (u, g')
    ∧ ∀ a, a ∈ u → Forall valid_card a ∧ length a = 2%nat.
Proof.
  intros Hph. destruct ph as [|c0 [|c1 [|]]]; try done.
  unfold sample_opponent_hands.
  pose proof (new_deck_valid g) as Hnew. destruct (Deck.new g) as [deck g1].
  simpl in Hnew. cbn [lookup list_lookup from_option mbind result_bind].
  set (combos := combinations _ 2).
  pose proof (sample_elem g1 combos (Nat.min 1000 (length combos))) as Hs.
  destruct (sample g1 combos _) as [u g2]. exists u, g2. split; [done|].
  intros a Ha%Hs. eapply combination_valid; [|done].
  intros x Hx. apply Hnew. unfold Deck.remaining_cards, Deck.remove_card in Hx; simpl in Hx.
  apply list_elem_of_filter in Hx as [_ Hx]. by apply list_elem_of_filter in Hx as [_ Hx].
Qed.

Lemma sample_flops_ok g used a :
  a ∈ (sample_flops g used).1 → Forall valid_card a ∧ length a = 3%nat.
Proof.
  unfold sample_flops.
  pose proof (new_deck_valid g) as Hnew. destruct (Deck.new g) as [deck g1].
  simpl in Hnew. intros Ha%sample_elem. eapply combination_valid; [|done].
  intros x Hx. apply Hnew. by apply list_elem_of_filter in Hx as [_ Hx].
Qed.

Lemma sample_singles_ok g used a :
  (a ∈ (sample_turns g used).1 ∨ a ∈ (sample_rivers g used).1) →
  Forall valid_card a ∧ length a = 1%nat.
Proof.
  unfold sample_turns, sample_rivers.
  pose proof (new_deck_valid g) as Hnew. destruct (Deck.new g) as [deck g1].
  simpl in Hnew.
  intros [Ha%sample_elem | Ha%sample_elem];
    apply list_elem_of_fmap in Ha as (x & -> & Hx);
    apply list_elem_of_filter in Hx as [_ Hx];
    (split; [|done]); repeat constructor; by apply Hnew.
Qed.

End Sampling.

Section Selection.
Context `{AmbientLaws}.

Lemma ucb1_ok nd n :
  stats_ok nd → 1 ≤ visits nd → 1 ≤ n →
  ∃ score, ucb1 nd n = Ok score ∧ (0 <= score)%Q.
Proof.
  intros [Hw _] Hv Hn. unfold ucb1.
  destruct (Z.eqb_spec (visits nd) 0); [lia|].
  destruct (Z.leb_spec n 0); [lia|].
  destruct (Z.ltb_spec (visits nd) 0); [lia|]. simpl.
  eexists. split; [done|]. by apply ucb_value_nonneg.
Qed.

Lemma best_child_loop_some h n kids : ∀ best_score best_node,
  1 ≤ n → Forall (scorable h) kids →
  best_node ≠ None ∨ ((best_score < 0)%Q ∧ kids ≠ []) →
  ∃ b, best_child_loop h n kids best_score best_node = Ok (Some b)
    ∧ (best_node = Some b ∨ b ∈ kids).
Proof.
  intros bs bn Hn Hkids; revert bs bn.
  induction Hkids as [|kid rest (nd & Hnd & Hst & Hv) _ IH]; intros bs bn Hstart; simpl.
  - destruct Hstart as [Hbn | [_ ?]]; [|done].
    destruct bn as [b|]; [|done]. exists b. split; [done | by left].
  - unfold get. rewrite Hnd. cbn [mbind result_bind].
    destruct (ucb1_ok nd n Hst Hv Hn) as (score & -> & Hscore). cbn [mbind result_bind].
    destruct (Qlt_le_dec bs score) as [Hlt | Hle].
    + destruct (IH score (Some kid)) as (b & -> & Hb); [by left|].
      exists b. split; [done|]. right.
      destruct Hb as [[= ->] | Hb]; [left | by right].
    + destruct (IH bs bn) as (b & -> & Hb).
      { destruct Hstart as [? | [Hneg _]]; [by left|].
        exfalso. apply (Qlt_irrefl 0).
        eapply Qle_lt_trans; [eapply Qle_trans; [exact Hscore | exact Hle] | exact Hneg]. }
      exists b. split; [done|]. destruct Hb; [by left | by right; right].
Qed.

Lemma sum_visits_ge (vs : list Z) :
  Forall (λ v, 1 ≤ v) vs → ∀ a, a + Z.of_nat (length vs) ≤ foldl Z.add a vs.
Proof.
  induction 1 as [|v vs Hv _ IH]; intros a; cbn [foldl length]; [lia|].
  rewrite Nat2Z.inj_succ. specialize (IH (a + v)). lia.
Qed.

Lemma sum_visits_pos (vs : list Z) :
  vs ≠ [] → Forall (λ v, 1 ≤ v) vs → 1 ≤ foldl Z.add 0 vs.
Proof.
  intros Hne Hall. pose proof (sum_visits_ge vs Hall 0) as Hgen.
  destruct vs; [done|]. cbn [length] in Hgen. rewrite Nat2Z.inj_succ in Hgen. lia.
Qed.

Lemma best_child_ok h nd :
  children nd ≠ [] → Forall (scorable h) (map snd (children nd)) →
  ∃ a b, best_child h nd = Ok (Some b) ∧ (a, b) ∈ children nd.
Proof.
  intros Hne Hkids. unfold best_child.
  assert (∃ vs, mapR (λ child, nd ← get h child; Ok (visits nd)) (map snd (children nd)) = Ok vs
            ∧ Forall (λ v, 1 ≤ v) vs ∧ length vs = length (map snd (children nd)))
    as (vs & -> & Hvs & Hlen).
  { induction Hkids as [|kid rest (x & Hx & _ & Hv) _ (vs & IH & Hall & Hlen)]; cbn [mapR].
    - by exists [].
    - rewrite (get_Some h kid x Hx). cbn [mbind result_bind]. rewrite IH.
      cbn [mbind result_bind]. exists (visits x :: vs). cbn [length].
      split_and!; [done | by constructor | by rewrite Hlen]. }
  cbn [mbind result_bind].
  destruct (best_child_loop_some h (foldl Z.add 0 vs) (map snd (children nd)) (-1)%Q None)
    as (b & -> & Hb).
  - apply sum_visits_pos; [|done]. destruct vs; [|done].
    destruct (children nd); [done | simpl in Hlen; lia].
  - done.
  - right. split; [done|]. by destruct (children nd).
  - destruct Hb as [|Hb]; [done|].
    apply list_elem_of_fmap in Hb as ([a b'] & -> & Hab). by exists a, b'.
Qed.

Lemma wf_scorable ph h i nd :
  wf ph h None → h !! i = Some nd → Forall (scorable h) (map snd (children nd)).
Proof.
  intros [_ Hwf] Hi. apply Forall_forall. intros ch Hch.
  apply list_elem_of_fmap in Hch as ([a ch'] & -> & Hin). simpl.
  destruct (ok_children _ _ _ _ _ (Hwf i nd Hi) a ch' Hin) as [Hlt Hlen].
  destruct (lookup_lt_is_Some_2 h ch' Hlen) as [x Hx].
  exists x. split; [done|]. pose proof (Hwf ch' x Hx) as Hok.
  split; [apply (ok_stats _ _ _ _ _ Hok)|].
  apply (ok_visited _ _ _ _ _ Hok); [lia | done].
Qed.

Lemma select_ok ph h fuel : ∀ node,
  wf ph h None → (node < length h)%nat → (length h ≤ fuel + node)%nat →
  ∃ node', select fuel h node = Ok node' ∧ (node' < length h)%nat.
Proof.
  induction fuel as [|fuel IH]; intros node Hwf Hnode Hfuel; [lia|].
  destruct (get_lt h node Hnode) as (nd & Hnd & Hget).
  cbn [select]. rewrite Hget. cbn [mbind result_bind].
  destruct (is_fully_expanded nd && negb (length (children nd) =? 0)%nat) eqn:Hguard;
    [|by exists node].
  apply andb_prop in Hguard as [_ Hkids].
  destruct (best_child_ok h nd) as (a & b & -> & Hb).
  { by destruct (children nd). }
  { by eapply wf_scorable. }
  cbn [mbind result_bind].
  destruct Hwf as [Hpos Hall].
  destruct (ok_children _ _ _ _ _ (Hall node nd Hnd) a b Hb) as [Hlt Hlen].
  apply IH; [done | done | lia].
Qed.

End Selection.

(** ** Expansion *)

Section Expansion.

Lemma elem_of_dict_set {K V} `{EqDecision K} (d : list (K * V)) k v a b :
  (a, b) ∈ dict_set d k v → (a, b) ∈ d ∨ (a = k ∧ b = v).
Proof.
  induction d as [|[k' v'] d IH]; simpl.
  - intros [= -> ->]%list_elem_of_singleton. by right.
  - destruct (decide (k' = k)) as [->|Hne].
    + intros [[= -> ->] | Hin]%elem_of_cons; [by right | left; by right].
    + intros [[= -> ->] | Hin]%elem_of_cons; [left; left|].
      destruct (IH Hin) as [? | ?]; [left; by right | by right].
Qed.

Lemma node_ok_weaken ph h h' fresh fresh' i nd :
  node_ok ph h fresh i nd → (length h ≤ length h')%nat →
  (fresh = None ∨ fresh' = fresh) → node_ok ph h' fresh' i nd.
Proof.
  intros [] Hlen Hfresh. split; try done.
  - intros a ch Hin. specialize (ok_children0 a ch Hin). lia.
  - intros Hi Hf. apply ok_visited0; [done|]. destruct Hfresh as [-> | <-]; done.
Qed.

Lemma wf_weaken ph h fresh : wf ph h None → wf ph h fresh.
Proof.
  intros [Hpos Hall]. split; [done|]. intros i nd Hi.
  eapply node_ok_weaken; [by apply Hall | done | by left].
Qed.

Lemma same_stats_refl h : same_stats h h.
Proof. intros i nd Hi. by exists nd. Qed.

Context `{AmbientLaws}.

(** What the expansion step does to a node with an untried action. *)
Lemma expansion_new_child ph g h node nd rest action :
  wf ph h None → h !! node = Some nd → untried_actions nd = rest ++ [action] →
  ∃ g' u next,
    get_next_stage nd = Ok next ∧ next ≠ done
    ∧ stage_len next = (stage_len (stage nd) + action_len (stage nd))%nat
    ∧ (∀ a, a ∈ u → Forall valid_card a ∧ length a = action_len next ∧ next ≠ river)
    ∧ expansion g h node =
        Ok (g',
            <[node := set_children (dict_set (children nd) action (length h))
                        (set_untried_actions rest nd)]> h
            ++ [set_untried_actions u
                  (init (state nd ++ action) (Some node) next (player_hand nd))],
            length h).
Proof.
  intros [Hpos Hall] Hnd Hu. pose proof (Hall node nd Hnd) as Hok.
  destruct (ok_untried _ _ _ _ _ Hok action) as (_ & _ & Hriver).
  { rewrite Hu. apply elem_of_app. right. left. }
  pose proof (ok_stage _ _ _ _ _ Hok) as Hdone.
  unfold expansion, expand. rewrite (get_Some h node nd Hnd). cbn [mbind result_bind].
  unfold is_fully_expanded. rewrite Hu, length_app. cbn [length].
  replace (length rest + 1 =? 0)%nat with false by (symmetry; apply Nat.eqb_neq; lia).
  cbn [negb]. rewrite last_snoc, removelast_last.
  set (self' := set_children _ _).
  assert (∀ child, (<[node := self']> h ++ [child]) !! length h = Some child) as Hlook.
  { intros child. rewrite lookup_app_r; rewrite length_insert; [|lia].
    by rewrite Nat.sub_diag. }
  assert (∀ child child', <[length h := child']> (<[node := self']> h ++ [child])
                          = <[node := self']> h ++ [child']) as Hins.
  { intros child child'.
    rewrite insert_app_r_alt; rewrite length_insert; [|lia]. by rewrite Nat.sub_diag. }
  unfold get_next_stage.
  destruct (stage nd) eqn:Hst; try done; cbn [mbind result_bind];
    rewrite (get_Some _ _ _ (Hlook _)); cbn [mbind result_bind stage init player_hand state].
  - pose proof (sample_flops_ok g (player_hand nd ++ (state nd ++ action))) as Hs.
    destruct (sample_flops g _) as [u g']. exists g', u, opponent. rewrite Hins.
    split_and!; try done. intros a Ha. destruct (Hs a Ha). done.
  - pose proof (λ a Ha, sample_singles_ok g (player_hand nd ++ (state nd ++ action)) a
                          (or_introl Ha)) as Hs.
    destruct (sample_turns g _) as [u g']. exists g', u, flop. rewrite Hins.
    split_and!; try done. intros a Ha. destruct (Hs a Ha). done.
  - pose proof (λ a Ha, sample_singles_ok g (player_hand nd ++ (state nd ++ action)) a
                          (or_intror Ha)) as Hs.
    destruct (sample_rivers g _) as [u g']. exists g', u, turn. rewrite Hins.
    split_and!; try done. intros a Ha. destruct (Hs a Ha). done.
  - exists g, [], river. split_and!; try done. intros a []%elem_of_nil.
Qed.

Lemma expansion_ok ph g h node :
  wf ph h None → (node < length h)%nat →
  ∃ g' h' node', expansion g h node = Ok (g', h', node')
    ∧ (node' < length h')%nat ∧ wf ph h' (Some node') ∧ same_stats h h'.
Proof.
  intros Hwf Hnode. destruct (get_lt h node Hnode) as (nd & Hnd & Hget).
  destruct (untried_actions nd) as [|action rest _] eqn:Hu using rev_ind.
  - (* nothing to expand *)
    exists g, h, node. unfold expansion. rewrite Hget. cbn [mbind result_bind].
    unfold is_fully_expanded. rewrite Hu. cbn.
    split_and!; [done | done | by apply wf_weaken | apply same_stats_refl].
  - destruct (expansion_new_child ph g h node nd rest action Hwf Hnd Hu)
      as (g' & u & next & Hnext & Hnd' & Hlen & Hus & ->).
    destruct Hwf as [Hpos Hall]. pose proof (Hall node nd Hnd) as Hok.
    set (self' := set_children _ _). set (child := set_untried_actions u _).
    assert (length (<[node := self']> h ++ [child]) = S (length h)) as Hlen'.
    { rewrite length_app, length_insert. simpl. lia. }
    exists g', (<[node := self']> h ++ [child]), (length h).
    split_and!; [done | lia | |].
    + split; [lia|]. intros j x Hj.
      destruct (decide (j = length h)) as [->|Hjl].
      { (* the new child *)
        rewrite lookup_app_r in Hj by (rewrite length_insert; lia).
        rewrite length_insert, Nat.sub_diag in Hj. injection Hj as <-.
        destruct (ok_untried _ _ _ _ _ Hok action) as (Hav & Hal & _).
        { rewrite Hu. apply elem_of_app. right. left. }
        split; simpl; try done.
        - intros a ch []%elem_of_nil.
        - apply (ok_hand _ _ _ _ _ Hok).
        - apply Forall_app. split; [apply (ok_state _ _ _ _ _ Hok) | done].
        - rewrite length_app, (ok_state_len _ _ _ _ _ Hok), Hal. lia. }
      rewrite lookup_app_l in Hj.
      2:{ apply lookup_lt_Some in Hj. rewrite Hlen' in Hj. rewrite length_insert. lia. }
      destruct (decide (j = node)) as [->|Hjn].
      { (* the expanded node *)
        rewrite list_lookup_insert_eq in Hj by done. injection Hj as <-.
        destruct Hok. split; simpl; try done.
        - intros a ch [Hin | [-> ->]]%elem_of_dict_set.
          + specialize (ok_children0 a ch Hin). lia.
          + lia.
        - intros a Ha. apply ok_untried0. rewrite Hu. apply elem_of_app. by left.
        - intros Hn _. by apply ok_visited0. }
      rewrite list_lookup_insert_ne in Hj by done.
      eapply node_ok_weaken; [by apply Hall | lia | by left].
    + intros j x Hj. pose proof (lookup_lt_Some _ _ _ Hj) as Hjl.
      rewrite lookup_app_l by (rewrite length_insert; lia).
      destruct (decide (j = node)) as [->|Hjn].
      * rewrite list_lookup_insert_eq by done. rewrite Hnd in Hj. injection Hj as <-.
        by exists self'.
      * rewrite list_lookup_insert_ne by done. by exists x.
Qed.

End Expansion.

(** ** Statistics and backpropagation *)

Section Statistics.

Lemma is_result_bounds r : is_result r → (0 <= r)%Q ∧ (r <= 1)%Q.
Proof. intros [-> | [-> | ->]]; split; lra. Qed.

Lemma stats_ok_visits nd : stats_ok nd → 0 ≤ visits nd.
Proof.
  intros [H0 H1]. rewrite Zle_Qle. change (inject_Z 0) with 0%Q. lra.
Qed.

(** The two assignments of [backpropagate], one after the other. *)
Lemma stats_ok_steps r nd :
  stats_ok nd → is_result r →
  stats_ok (set_visits (visits nd + 1) nd) ∧ stats_ok (bump r nd).
Proof.
  intros [H0 H1] [Hr0 Hr1]%is_result_bounds. unfold stats_ok, bump. simpl.
  rewrite Qred_correct, inject_Z_plus. change (inject_Z 1) with 1%Q.
  repeat split; lra.
Qed.

Lemma bump_grows r nd :
  is_result r → visits nd ≤ visits (bump r nd) ∧ (wins nd <= wins (bump r nd))%Q.
Proof.
  intros [Hr0 Hr1]%is_result_bounds. unfold bump. simpl.
  rewrite Qred_correct. split; [lia | lra].
Qed.

End Statistics.

Section Iteration.

Lemma wf_parents_ok ph h fresh : wf ph h fresh → parents_ok h.
Proof.
  intros [_ Hall] i nd p Hi Hp. pose proof (ok_parent _ _ _ _ _ (Hall i nd Hi)) as Hpar.
  by rewrite Hp in Hpar.
Qed.

Lemma on_path_root ph h fresh i :
  wf ph h fresh → (i < length h)%nat → on_path h i 0.
Proof.
  intros [_ Hall]. induction i as [i IH] using lt_wf_ind. intros Hi.
  destruct (lookup_lt_is_Some_2 h i Hi) as [nd Hnd].
  pose proof (ok_parent _ _ _ _ _ (Hall i nd Hnd)) as Hpar.
  destruct (parent nd) as [p|] eqn:Hp.
  - eapply on_path_up; [done | done |]. apply IH; lia.
  - subst i. constructor.
Qed.

Lemma classic_path h node j :
  parents_ok h → on_path h node j ∨ ¬ on_path h node j.
Proof.
  intros Hp. induction node as [i IH] using lt_wf_ind.
  destruct (decide (i = j)) as [->|Hne]; [left; constructor|].
  destruct (h !! i) as [nd|] eqn:Hi.
  - destruct (parent nd) as [p|] eqn:Hpar.
    + destruct (IH p (Hp i nd p Hi Hpar)) as [Hyes | Hno].
      * left. by eapply on_path_up.
      * right. intros [-> | (p' & Hp' & Hrest)]%(on_path_inv h i j nd Hi); [done|].
        rewrite Hpar in Hp'. injection Hp' as <-. done.
    + right. intros [-> | (p' & Hp' & _)]%(on_path_inv h i j nd Hi); [done | congruence].
  - right. intros Hpath. inversion Hpath; subst; [done | congruence].
Qed.

(** Backpropagation from the node of the current pass closes the pass. *)
Lemma backpropagate_ok ph h node r :
  wf ph h (Some node) → (node < length h)%nat → is_result r →
  ∃ h', backpropagate (length h) h node r = Ok h'
    ∧ wf ph h' None ∧ grows h h'
    ∧ (∀ x, h !! 0%nat = Some x → h' !! 0%nat = Some (bump r x)).
Proof.
  intros Hwf Hnode Hr.
  destruct (backpropagate_spec r (length h) h node) as (h' & Hrun & Hlen & Hspec);
    [by eapply wf_parents_ok | done | done |].
  exists h'. split; [done|].
  assert (∀ j x', h' !! j = Some x' →
            ∃ x, h !! j = Some x ∧
              ((on_path h node j ∧ x' = bump r x) ∨ (j ≠ node ∧ x' = x))) as Hback.
  { intros j x' Hj. destruct (lookup_lt_is_Some_2 h j) as [x Hx].
    { apply lookup_lt_Some in Hj. lia. }
    exists x. split; [done|]. destruct (Hspec j x Hx) as [Hyes Hno].
    destruct (decide (j = node)) as [->|Hne].
    - left. rewrite Hyes in Hj by constructor. injection Hj as <-. split; [constructor | done].
    - destruct (classic_path h node j) as [Hp | Hnp]; [by eapply wf_parents_ok| |].
      + left. rewrite Hyes in Hj by done. by injection Hj as <-.
      + right. rewrite Hno in Hj by done. by injection Hj as <-. }
  pose proof (wf_parents_ok _ _ _ Hwf) as Hpo.
  destruct Hwf as [Hpos Hall]. split_and!.
  - split; [lia|]. intros j x' Hj.
    destruct (Hback j x' Hj) as (x & Hx & Hcase). pose proof (Hall j x Hx) as Hok.
    destruct Hcase as [[_ ->] | [Hne ->]].
    + destruct Hok. destruct (stats_ok_steps r x ok_stats0 Hr) as [_ Hb].
      split; simpl; try done.
      * by rewrite Hlen.
      * intros _ _. apply stats_ok_visits in ok_stats0. lia.
    + destruct Hok. split; try done.
      * by rewrite Hlen.
      * intros Hj0 _. apply ok_visited0; [done | congruence].
  - intros j x Hx. destruct (Hspec j x Hx) as [Hyes Hno].
    destruct (classic_path h node j Hpo) as [Hp | Hnp].
    + exists (bump r x). split; [by apply Hyes | by apply bump_grows].
    + exists x. split; [by apply Hno|]. split; [lia | lra].
  - intros x Hx. apply (Hspec 0%nat x Hx). by eapply (on_path_root ph h (Some node)).
Qed.

End Iteration.

(** ** The search loop *)

Section Search.
Context `{AmbientLaws}.
Variable ph : list Card.
Hypothesis ph_two : length ph = 2%nat.
Hypothesis ph_valid : Forall valid_card ph.

Lemma grows_trans h1 h2 h3 : grows h1 h2 → grows h2 h3 → grows h1 h3.
Proof.
  intros H12 H23 i x Hx. destruct (H12 i x Hx) as (y & Hy & Hv & Hw).
  destruct (H23 i y Hy) as (z & Hz & Hv' & Hw'). exists z.
  split_and!; [done | lia | lra].
Qed.

Lemma same_stats_grows h h' : same_stats h h' → grows h h'.
Proof.
  intros Hs i x Hx. destruct (Hs i x Hx) as (y & Hy & Hv & Hw). exists y.
  rewrite Hv, Hw. split_and!; [done | lia | lra].
Qed.

Lemma iteration_ok g h :
  wf ph h None →
  ∃ g' h', iteration (g, h) = Ok (g', h')
    ∧ wf ph h' None ∧ grows h h'
    ∧ (∀ x, h !! 0%nat = Some x →
         ∃ x', h' !! 0%nat = Some x' ∧ visits x' = visits x + 1).
Proof.
  intros Hwf. unfold iteration.
  destruct (select_ok ph h (length h) 0%nat) as (node & -> & Hnode);
    [done | by destruct Hwf | lia |].
  cbn [mbind result_bind].
  destruct (expansion_ok ph g h node Hwf Hnode) as (g1 & h1 & node1 & -> & Hn1 & Hwf1 & Hsame).
  cbn [mbind result_bind].
  destruct (get_lt h1 node1 Hn1) as (nd & Hnd & ->). cbn [mbind result_bind].
  pose proof (proj2 Hwf1 node1 nd Hnd) as Hok.
  destruct (simulate_to_end_ok g1 nd) as (r & g2 & -> & Hr).
  { by rewrite (ok_hand _ _ _ _ _ Hok). }
  { by rewrite (ok_hand _ _ _ _ _ Hok). }
  { apply (ok_state _ _ _ _ _ Hok). }
  { apply (ok_state_len _ _ _ _ _ Hok). }
  cbn [mbind result_bind].
  destruct (backpropagate_ok ph h1 node1 r Hwf1 Hn1 Hr) as (h2 & -> & Hwf2 & Hgrow & Hroot).
  cbn [mbind result_bind]. exists g2, h2.
  split_and!; [done | done | |].
  - eapply grows_trans; [by apply same_stats_grows | done].
  - intros x Hx. destruct (Hsame 0%nat x Hx) as (y & Hy & Hv & _).
    exists (bump r y). split; [by apply Hroot|]. simpl. lia.
Qed.

Lemma iterations_loop_ok n : ∀ g h,
  wf ph h None →
  ∃ g' h', iterations_loop n (g, h) = Ok (g', h')
    ∧ wf ph h' None ∧ grows h h'
    ∧ (∀ x, h !! 0%nat = Some x →
         ∃ x', h' !! 0%nat = Some x' ∧ visits x' = visits x + Z.of_nat n).
Proof.
  induction n as [|n IH]; intros g h Hwf.
  - exists g, h. split_and!; [done | done | |].
    + intros i x Hx. exists x. split_and!; [done | lia | lra].
    + intros x Hx. exists x. split; [done | lia].
  - cbn [iterations_loop].
    destruct (iteration_ok g h Hwf) as (g1 & h1 & -> & Hwf1 & Hg1 & Hr1).
    cbn [mbind result_bind].
    destruct (IH g1 h1 Hwf1) as (g2 & h2 & -> & Hwf2 & Hg2 & Hr2).
    exists g2, h2. split_and!; [done | done | by eapply grows_trans |].
    intros x Hx. destruct (Hr1 x Hx) as (y & Hy & Hvy).
    destruct (Hr2 y Hy) as (z & Hz & Hvz). exists z. split; [done | lia].
Qed.

Lemma iterations_loop_add a : ∀ b st,
  iterations_loop (a + b) st = iterations_loop a st ≫= iterations_loop b.
Proof.
  induction a as [|a IH]; intros b st; cbn [iterations_loop Nat.add]; [done|].
  destruct (iteration st) as [st'|e]; cbn [mbind result_bind]; [apply IH | done].
Qed.

(** The tree before the first pass. *)
Lemma initial_tree g :
  ∃ u g', sample_opponent_hands g ph = Ok (u, g')
    ∧ wf ph [set_untried_actions u (init [] None root ph)] None.
Proof.
  destruct (sample_opponent_hands_ok g ph ph_two) as (u & g' & Hs & Hu).
  exists u, g'. split; [done|]. split; [simpl; lia|].
  intros i nd Hi. destruct i as [|i]; [|done]. injection Hi as <-.
  split; simpl; try done.
  - intros a ch []%elem_of_nil.
  - intros a Ha. destruct (Hu a Ha). done.
Qed.

Lemma run_mcts_tree_ok g iterations :
  ∃ g' h root_node, run_mcts_tree g ph iterations = Ok (g', h)
    ∧ wf ph h None ∧ h !! 0%nat = Some root_node
    ∧ visits root_node = Z.of_nat (Z.to_nat iterations).
Proof.
  unfold run_mcts_tree. destruct (initial_tree g) as (u & g1 & -> & Hwf).
  cbn [mbind result_bind].
  destruct (iterations_loop_ok (Z.to_nat iterations) g1 _ Hwf)
    as (g2 & h & -> & Hwf' & _ & Hroot).
  destruct (Hroot _ eq_refl) as (x & Hx & Hv).
  exists g2, h, x. split_and!; [done | done | done |]. simpl in Hv. lia.
Qed.

(** A longer search extends a shorter one from the same generator state. *)
Lemma run_mcts_tree_prefix g m n g1 h1 :
  0 ≤ m ≤ n → run_mcts_tree g ph m = Ok (g1, h1) →
  ∃ g2 h2, run_mcts_tree g ph n = Ok (g2, h2) ∧ grows h1 h2.
Proof.
  intros Hmn Hm. destruct (run_mcts_tree_ok g m) as (g1' & h1' & _ & Hm' & Hwf & _).
  rewrite Hm in Hm'. injection Hm' as <- <-.
  unfold run_mcts_tree in *. destruct (sample_opponent_hands g ph) as [[u g0]|]; [|done].
  cbn [mbind result_bind] in *.
  replace (Z.to_nat n) with (Z.to_nat m + Z.to_nat (n - m))%nat by lia.
  rewrite iterations_loop_add, Hm. cbn [mbind result_bind].
  destruct (iterations_loop_ok (Z.to_nat (n - m)) g1 h1 Hwf) as (g2 & h2 & -> & _ & Hg & _).
  by exists g2, h2.
Qed.

End Search.

(** ** Claims about the search *)

Section Claims.

Lemma rollout_simulation_is_result ph oh board r :
  rollout_simulation ph oh board = Ok r → is_result r.
Proof.
  unfold rollout_simulation. intros (rp & _ & Hr)%bind_Ok.
  apply bind_Ok in Hr as (ro & _ & Hr). unfold is_result.
  destruct (rank_ltb ro rp); [injection Hr as <-; auto|].
  destruct (rank_ltb rp ro); injection Hr as <-; auto.
Qed.

Lemma simulate_to_end_is_result `{Ambient} g nd r g' :
  simulate_to_end g nd = Ok (r, g') → is_result r.
Proof.
  unfold simulate_to_end. destruct (Deck.new g) as [deck g1].
  destruct (match stage nd with
            | opponent => _ | flop | turn | river => _ | root | done => _ end) as [opp comm].
  destruct (match opp with [] => _ | _ :: _ => _ end) as [oh d1].
  intros (oh' & _ & Hr)%bind_Ok. apply bind_Ok in Hr as (cc & _ & Hr).
  apply bind_Ok in Hr as (r' & Hr' & [= <- _]).
  by eapply rollout_simulation_is_result.
Qed.

Lemma children_visits_ok h (kids : list nat) :
  kids ≠ [] → Forall (scorable h) kids →
  ∃ vs, mapR (λ child, nd ← get h child; Ok (visits nd)) kids = Ok vs
    ∧ 1 ≤ foldl Z.add 0 vs.
Proof.
  intros Hne Hkids.
  assert (∃ vs, mapR (λ child, nd ← get h child; Ok (visits nd)) kids = Ok vs
            ∧ Forall (λ v, 1 ≤ v) vs ∧ length vs = length kids) as (vs & Hvs & Hall & Hlen).
  { clear Hne. induction Hkids as [|kid rest (x & Hx & _ & Hv) _ (vs & IH & Hall & Hlen)];
      cbn [mapR].
    - by exists [].
    - rewrite (get_Some h kid x Hx). cbn [mbind result_bind]. rewrite IH.
      cbn [mbind result_bind]. exists (visits x :: vs). cbn [length].
      split_and!; [done | by constructor | by rewrite Hlen]. }
  exists vs. split; [done|]. apply sum_visits_pos; [|done].
  destruct vs; [|done]. destruct kids; [done | simpl in Hlen; lia].
Qed.

Lemma quotient_bounds w v :
  (0 <= w)%Q → (w <= inject_Z v)%Q → 0 < v →
  (0 <= Qred (w / inject_Z v))%Q ∧ (Qred (w / inject_Z v) <= 1)%Q.
Proof.
  intros H0 H1 Hv. rewrite Qred_correct.
  assert (0 < inject_Z v)%Q as Hpos.
  { change 0%Q with (inject_Z 0). by rewrite <- Zlt_Qlt. }
  split.
  - apply Qle_shift_div_l; [done|]. lra.
  - apply Qle_shift_div_r; [done|]. lra.
Qed.

Context `{AmbientLaws}.

(** C3. In a tree of the search, backpropagating from a node adds the
    result to [wins] and one to [visits] on that node and on each of its
    ancestors, the root included, whatever the result is, and leaves every
    other node alone.  A search of [iterations] passes (none negative) runs
    to completion and leaves [iterations] visits on the root. *)
Theorem backpropagation_reaches_root (ph : list Card) :
  length ph = 2%nat → Forall valid_card ph →
  (∀ h fresh node r, wf ph h fresh → (node < length h)%nat →
     ∃ h', backpropagate (length h) h node r = Ok h'
       ∧ length h' = length h
       ∧ on_path h node node ∧ on_path h node 0
       ∧ ∀ j nd, h !! j = Some nd →
           (on_path h node j → h' !! j = Some (bump r nd))
           ∧ (¬ on_path h node j → h' !! j = Some nd))
  ∧ (∀ g iterations, 0 ≤ iterations →
       ∃ g' h root_node, run_mcts_tree g ph iterations = Ok (g', h)
         ∧ wf ph h None
         ∧ h !! 0%nat = Some root_node
         ∧ visits root_node = iterations).
Proof.
  intros Hlen Hvalid. split.
  - intros h fresh node r Hwf Hnode.
    destruct (backpropagate_spec r (length h) h node) as (h' & Hrun & Hl & Hspec);
      [by eapply wf_parents_ok | done | done |].
    exists h'. split_and!; [done | done | constructor | by eapply on_path_root | done].
  - intros g iterations Hit.
    destruct (run_mcts_tree_ok ph Hlen Hvalid g iterations) as (g' & h & x & Hrun & Hwf & Hx & Hv).
    exists g', h, x. split_and!; [done | done | done | lia].
Qed.

(** C4. A new node has no wins and no visits; a rollout yields 0, 1/2 or
    1; each of the two assignments of a backpropagation step keeps
    [0 ≤ wins ≤ visits] and lowers neither counter; the bound holds on every
    node after any number of passes and after the expansion step of the
    following pass, which changes no statistics; and between a shorter and
    a longer search no counter of any node drops. *)
Theorem statistics_invariant (ph : list Card) :
  length ph = 2%nat → Forall valid_card ph →
  (∀ st p stg hand, wins (init st p stg hand) = 0%Q ∧ visits (init st p stg hand) = 0)
  ∧ (∀ g nd r g', simulate_to_end g nd = Ok (r, g') → is_result r)
  ∧ (∀ r nd, stats_ok nd → is_result r →
       stats_ok (set_visits (visits nd + 1) nd) ∧ stats_ok (bump r nd)
       ∧ visits nd ≤ visits (bump r nd) ∧ (wins nd <= wins (bump r nd))%Q)
  ∧ (∀ g iterations,
       ∃ g' h, run_mcts_tree g ph iterations = Ok (g', h)
         ∧ (∀ nd, nd ∈ h → stats_ok nd)
         ∧ ∃ leaf g1 h1 node, select (length h) h 0%nat = Ok leaf
             ∧ expansion g' h leaf = Ok (g1, h1, node)
             ∧ same_stats h h1
             ∧ ∀ nd, nd ∈ h1 → stats_ok nd)
  ∧ (∀ g m n g1 h1, 0 ≤ m ≤ n → run_mcts_tree g ph m = Ok (g1, h1) →
       ∃ g2 h2, run_mcts_tree g ph n = Ok (g2, h2) ∧ grows h1 h2).
Proof.
  intros Hlen Hvalid. split_and!.
  - done.
  - intros g nd r g'. apply simulate_to_end_is_result.
  - intros r nd Hs Hr. destruct (stats_ok_steps r nd Hs Hr).
    destruct (bump_grows r nd Hr). done.
  - intros g iterations.
    destruct (run_mcts_tree_ok ph Hlen Hvalid g iterations) as (g' & h & x & Hrun & Hwf & _).
    exists g', h. split; [done|].
    assert (∀ h fresh, wf ph h fresh → ∀ nd, nd ∈ h → stats_ok nd) as Hstats.
    { intros h0 fresh [_ Hall] nd (i & Hi)%list_elem_of_lookup_1.
      apply (ok_stats _ _ _ _ _ (Hall i nd Hi)). }
    split; [by eapply Hstats|].
    destruct (select_ok ph h (length h) 0%nat) as (leaf & Hsel & Hleaf);
      [done | by destruct Hwf | lia |].
    destruct (expansion_ok ph g' h leaf Hwf Hleaf) as (g1 & h1 & node & Hexp & _ & Hwf1 & Hsame).
    exists leaf, g1, h1, node. split_and!; [done | done | done | by eapply Hstats].
  - intros g m n g1 h1. by apply run_mcts_tree_prefix.
Qed.

(** C5. [run_mcts] returns without raising: 0 when the root has no visits,
    which is the case when [iterations] is not positive, and otherwise the
    quotient [wins / visits] of the root, whose divisor is then not zero;
    the estimate lies between 0 and 1. *)
Theorem run_mcts_equity (ph : list Card) (g : rng) (iterations : Z) :
  length ph = 2%nat → Forall valid_card ph →
  ∃ g' h root_node q,
    run_mcts_tree g ph iterations = Ok (g', h)
    ∧ h !! 0%nat = Some root_node
    ∧ run_mcts g ph iterations = Ok q
    ∧ (iterations ≤ 0 → visits root_node = 0)
    ∧ (visits root_node = 0 → q = 0%Q)
    ∧ (visits root_node ≠ 0 →
         truediv (wins root_node) (visits root_node) = Ok q
         ∧ (q == wins root_node / inject_Z (visits root_node))%Q)
    ∧ (0 <= q)%Q ∧ (q <= 1)%Q.
Proof.
  intros Hlen Hvalid.
  destruct (run_mcts_tree_ok ph Hlen Hvalid g iterations) as (g' & h & x & Hrun & Hwf & Hx & Hv).
  pose proof (ok_stats _ _ _ _ _ (proj2 Hwf 0%nat x Hx)) as [Hw0 Hw1].
  unfold run_mcts. rewrite Hrun. cbn [mbind result_bind].
  rewrite (get_Some h 0%nat x Hx). cbn [mbind result_bind]. unfold truediv.
  destruct (Z.eqb_spec (visits x) 0) as [Hzero | Hne].
  - exists g', h, x, 0%Q. split_and!; done.
  - exists g', h, x, (Qred (wins x / inject_Z (visits x))).
    destruct (quotient_bounds (wins x) (visits x)) as [Hq0 Hq1]; [done | done | lia |].
    split_and!; try done; [lia|].
    intros _. rewrite (proj2 (Z.eqb_neq _ _) Hne). split; [done | apply Qred_correct].
Qed.

(** C9. After any number of passes the selection phase of the next pass
    returns a node, and at every node with at least one child each child
    has been visited, the visit total [n] is at least 1, every UCB1 score is
    computed without [ZeroDivisionError] or [ValueError], and [best_child]
    returns one of the children, never [None]. *)
Theorem best_child_is_safe (ph : list Card) (g : rng) (iterations : Z) :
  length ph = 2%nat → Forall valid_card ph →
  ∃ g' h, run_mcts_tree g ph iterations = Ok (g', h)
    ∧ (∃ leaf, select (length h) h 0%nat = Ok leaf)
    ∧ ∀ i nd, h !! i = Some nd → children nd ≠ [] →
        (∃ vs, mapR (λ child, x ← get h child; Ok (visits x)) (map snd (children nd)) = Ok vs
           ∧ 1 ≤ foldl Z.add 0 vs
           ∧ ∀ a child, (a, child) ∈ children nd →
               ∃ x score, h !! child = Some x ∧ 1 ≤ visits x
                 ∧ ucb1 x (foldl Z.add 0 vs) = Ok score)
        ∧ ∃ a best, best_child h nd = Ok (Some best) ∧ (a, best) ∈ children nd.
Proof.
  intros Hlen Hvalid.
  destruct (run_mcts_tree_ok ph Hlen Hvalid g iterations) as (g' & h & x & Hrun & Hwf & _).
  exists g', h. split; [done|]. split.
  - destruct (select_ok ph h (length h) 0%nat) as (leaf & Hsel & _);
      [done | by destruct Hwf | lia |]. by exists leaf.
  - intros i nd Hi Hne. pose proof (wf_scorable ph h i nd Hwf Hi) as Hsc. split.
    + destruct (children_visits_ok h (map snd (children nd))) as (vs & Hvs & Hn);
        [by destruct (children nd) | done |].
      exists vs. split_and!; [done | done |].
      intros a child Hin. rewrite Forall_forall in Hsc.
      destruct (Hsc child) as (y & Hy & Hst & Hvy).
      { apply list_elem_of_fmap. by exists (a, child). }
      destruct (ucb1_ok y (foldl Z.add 0 vs) Hst Hvy Hn) as (score & Hscore & _).
      by exists y, score.
    + by apply best_child_ok.
Qed.

End Claims.

(** ** The example random source meets the assumptions *)

Lemma demo_laws : @AmbientLaws demo_ambient.
Proof.
  split; simpl.
  - intros g l. apply reverse_Permutation.
  - intros A g l k. apply sublist_submseteq, sublist_take.
  - intros w v n Hw Hv Hn.
    assert (0 < inject_Z v)%Q as Hpos.
    { change 0%Q with (inject_Z 0). rewrite <- Zlt_Qlt. lia. }
    assert (0 <= w / inject_Z v)%Q by (apply Qle_shift_div_l; [done | lra]).
    assert (0 <= n # Z.to_pos v)%Q by (unfold Qle; simpl; lia).
    lra.
Qed.

Lemma pocket_aces_valid : Forall valid_card pocket_aces.
Proof. repeat constructor; by eexists. Qed.

Lemma backpropagation_reaches_root_witness :
  length pocket_aces = 2%nat ∧ Forall valid_card pocket_aces
  ∧ ∃ g' h root_node,
      @run_mcts_tree demo_ambient 0%nat pocket_aces 3 = Ok (g', h)
      ∧ h !! 0%nat = Some root_node ∧ visits root_node = 3.
Proof.
  split_and!; [reflexivity | apply pocket_aces_valid |].
  destruct (@backpropagation_reaches_root demo_ambient demo_laws pocket_aces
              eq_refl pocket_aces_valid) as [_ Hrun].
  destruct (Hrun 0%nat 3 ltac:(lia)) as (g' & h & x & Ht & _ & Hx & Hv).
  exists g', h, x. exact (conj Ht (conj Hx Hv)).
Defined.

Lemma statistics_invariant_witness :
  length pocket_aces = 2%nat ∧ Forall valid_card pocket_aces
  ∧ ∃ g' h, @run_mcts_tree demo_ambient 0%nat pocket_aces 3 = Ok (g', h)
      ∧ ∀ nd, nd ∈ h → stats_ok nd.
Proof.
  split_and!; [reflexivity | apply pocket_aces_valid |].
  destruct (@statistics_invariant demo_ambient demo_laws pocket_aces
              eq_refl pocket_aces_valid) as (_ & _ & _ & Hrun & _).
  destruct (Hrun 0%nat 3) as (g' & h & Ht & Hs & _).
  exists g', h. exact (conj Ht Hs).
Defined.

Lemma run_mcts_equity_witness :
  length pocket_aces = 2%nat ∧ Forall valid_card pocket_aces
  ∧ ∃ q, @run_mcts demo_ambient 0%nat pocket_aces 3 = Ok q ∧ (0 <= q)%Q ∧ (q <= 1)%Q.
Proof.
  split_and!; [reflexivity | apply pocket_aces_valid |].
  destruct (@run_mcts_equity demo_ambient demo_laws pocket_aces 0%nat 3
              eq_refl pocket_aces_valid) as (g' & h & x & q & _ & _ & Hq & _ & _ & _ & H0 & H1).
  exists q. exact (conj Hq (conj H0 H1)).
Defined.

Lemma best_child_is_safe_witness :
  length pocket_aces = 2%nat ∧ Forall valid_card pocket_aces
  ∧ ∃ g' h, @run_mcts_tree demo_ambient 0%nat pocket_aces 3 = Ok (g', h)
      ∧ ∀ i nd, h !! i = Some nd → children nd ≠ [] →
          ∃ a best, @best_child demo_ambient h nd = Ok (Some best)
                    ∧ (a, best) ∈ children nd.
Proof.
  split_and!; [reflexivity | apply pocket_aces_valid |].
  destruct (@best_child_is_safe demo_ambient demo_laws pocket_aces 0%nat 3
              eq_refl pocket_aces_valid) as (g' & h & Ht & _ & Hsafe).
  exists g', h. split; [exact Ht|]. intros i nd Hi Hne.
  destruct (Hsafe i nd Hi Hne) as [_ Hbest]. exact Hbest.
Defined.

(** The search runs on the example source: three passes from pocket aces. *)
Example run_mcts_demo :
  @run_mcts demo_ambient 0%nat pocket_aces 3 = Ok 1%Q
  ∧ @run_mcts demo_ambient 0%nat pocket_aces 0 = Ok 0%Q.
Proof. split; by vm_compute. Qed.

(** ** The command line *)


(** C8 (the code departs from it). With a three-character first token
    [main] prints no usage message: it reports the first two characters of
    the usage text as the hand, calls [run_mcts] on that text, and the call
    ends in an uncaught [TypeError]. *)
Theorem main_searches_on_malformed_token `{Ambient} (g : rng) :
  Main.main g ["main.py"; "JDX"; "QC"]%string
  = [Main.Print "Running MCTS for hand: C a";
     Main.CallRunMcts (Main.Text "Cards must be in format like 'JD' or 'QS'") 1000;
     Main.Uncaught TypeError].
Proof. reflexivity. Qed.

(** * Further properties of the code *)

(** ** Unknown cards *)

Section UnknownCards.

Lemma dict_get_error {K V} `{EqDecision K} (d : list (K * V)) k e :
  dict_get d k = Raise e → e = KeyError.
Proof.
  induction d as [|[k' v] d IH]; simpl; [congruence|].
  destruct (decide (k' = k)); [done | auto].
Qed.

Lemma card_value_cases x : valid_card x ∨ card_value x = Raise KeyError.
Proof.
  destruct (card_value x) as [v|e] eqn:Hx; [left; by exists v | right].
  by rewrite (dict_get_error _ _ _ Hx).
Qed.

Lemma mapR_card_value_cases l :
  (Forall valid_card l ∧ ∃ vs, mapR card_value l = Ok vs)
  ∨ (¬ Forall valid_card l ∧ mapR card_value l = Raise KeyError).
Proof.
  induction l as [|x l IH]; [left; split; [constructor | by exists []]|].
  cbn [mapR]. destruct (card_value_cases x) as [Hx | Hx].
  - destruct Hx as [v Hv]. rewrite Hv. cbn [mbind result_bind].
    destruct IH as [[Hl [vs ->]] | [Hl ->]].
    + left. split; [constructor; [by exists v | done] | by eexists].
    + right. split; [|done]. by intros [_ ?]%Forall_cons.
  - rewrite Hx. right. split; [|done].
    intros [[v Hv] _]%Forall_cons. congruence.
Qed.

Lemma rank_five_card_hand_unknown hand :
  ¬ Forall valid_card hand → rank_five_card_hand hand = Raise KeyError.
Proof.
  intros Hbad. unfold rank_five_card_hand.
  destruct (mapR_card_value_cases hand) as [[? _] | [_ ->]]; done.
Qed.

Lemma best_over_KeyError combos : ∀ b,
  Forall (λ combo, length combo = 5%nat) combos →
  Exists (λ combo, ¬ Forall valid_card combo) combos →
  best_over b combos = Raise KeyError.
Proof.
  induction combos as [|combo rest IH]; intros b Hlen Hbad; [by apply Exists_nil in Hbad|].
  apply Forall_cons in Hlen as [Hl Hlen]. cbn [best_over].
  destruct (mapR_card_value_cases combo) as [[Hv _] | [Hv _]].
  - destruct (rank_five_card_hand_total combo Hl Hv) as [r ->]. cbn [mbind result_bind].
    apply IH; [done|]. by apply Exists_cons in Hbad as [? | ?].
  - by rewrite rank_five_card_hand_unknown.
Qed.

Lemma combination_through {A} (l : list A) x :
  x ∈ l → (5 ≤ length l)%nat → ∃ combo, combo ∈ combinations l 5 ∧ x ∈ combo.
Proof.
  intros (l1 & l2 & ->)%list_elem_of_split Hlen.
  rewrite length_app in Hlen. simpl in Hlen.
  exists (take 4 l1 ++ x :: take (4 - length (take 4 l1)) l2). split.
  - apply elem_of_combinations. split.
    + apply sublist_app; [apply sublist_take|]. apply sublist_skip, sublist_take.
    + rewrite length_app. simpl. rewrite !length_take. lia.
  - apply elem_of_app. right. left.
Qed.

Lemma unknown_card_in l : ¬ Forall valid_card l → ∃ x, x ∈ l ∧ ¬ valid_card x.
Proof.
  induction l as [|x l IH]; intros Hbad; [by destruct Hbad|].
  destruct (card_value_cases x) as [Hx | Hx].
  - destruct IH as (y & Hy & Hybad); [intros Hl; apply Hbad; by constructor|].
    exists y. split; [by right | done].
  - exists x. split; [left|]. intros [v Hv]. congruence.
Qed.

Lemma evaluate_hand_unknown cards :
  (5 ≤ length cards)%nat → ¬ Forall valid_card cards →
  evaluate_hand cards = Raise KeyError.
Proof.
  intros Hlen Hbad. unfold evaluate_hand. apply best_over_KeyError.
  - apply Forall_forall. by intros combo [_ ?]%elem_of_combinations.
  - apply unknown_card_in in Hbad as (x & Hx & Hxbad).
    destruct (combination_through cards x Hx Hlen) as (combo & Hc & Hxc).
    apply Exists_exists. exists combo. split; [done|].
    intros Hall. rewrite Forall_forall in Hall. auto.
Qed.

End UnknownCards.

(** X1. On five cards or more [evaluate_hand] raises exactly when some card
    has a [card_num] that is not a key of [CARD_VALUE_MAP], and what it
    raises is [KeyError]. *)
Theorem evaluate_hand_raises_iff_unknown (cards : list Card) :
  (5 ≤ length cards)%nat →
  (Forall valid_card cards → ∃ r, evaluate_hand cards = Ok r)
  ∧ (¬ Forall valid_card cards → evaluate_hand cards = Raise KeyError).
Proof.
  intros Hlen. split.
  - intros Hv. destruct (evaluate_hand_total cards Hv) as (r & Hr & _). by exists r.
  - by apply evaluate_hand_unknown.
Qed.

Lemma evaluate_hand_raises_iff_unknown_witness :
  (5 ≤ length seven_cards)%nat
  ∧ (∃ r, evaluate_hand seven_cards = Ok r)
  ∧ evaluate_hand (card "1S" :: seven_cards) = Raise KeyError.
Proof.
  split_and!; [simpl; lia | |].
  - apply (evaluate_hand_raises_iff_unknown seven_cards); [simpl; lia|].
    repeat constructor; by eexists.
  - apply (evaluate_hand_raises_iff_unknown (card "1S" :: seven_cards)); [simpl; lia|].
    intros [[v Hv] _]%Forall_cons. discriminate Hv.
Defined.

(** ** Order of the cards *)

Section CardOrder.

Lemma rank_five_card_hand_perm_eq hand hand' :
  hand ≡ₚ hand' → rank_five_card_hand hand = rank_five_card_hand hand'.
Proof.
  intros Hp. destruct (mapR_card_value_cases hand) as [[Hv [vs Hvs]] | [Hbad _]].
  - unfold rank_five_card_hand. rewrite Hvs.
    destruct (mapR_perm _ _ _ _ Hp Hvs) as (zs & -> & Hzs). cbn [mbind result_bind].
    rewrite <- (sorted_desc_unique _ _ Hzs).
    by rewrite <- (remove_dups_length_perm (map suit hand) (map suit hand'))
      by (by apply fmap_Permutation).
  - rewrite !rank_five_card_hand_unknown; [done | by rewrite <- Hp | done].
Qed.

Lemma sentinel_le r : -1 ≤ fst r → rank_le (-1, []) r.
Proof.
  destruct r as [k t]. unfold rank_le, rank_ltb. cbn [fst snd]. intros Hk.
  destruct (Z.eqb_spec k (-1)); [by destruct t | apply Z.ltb_ge; lia].
Qed.

Lemma evaluate_hand_le cards cards' :
  Forall valid_card cards' → cards ⊆+ cards' →
  ∃ r r', evaluate_hand cards = Ok r ∧ evaluate_hand cards' = Ok r' ∧ rank_le r r'.
Proof.
  intros Hv' Hsub.
  assert (Forall valid_card cards) as Hv.
  { rewrite Forall_forall in Hv' |- *. intros x Hx. apply Hv'. by eapply elem_of_submseteq. }
  unfold evaluate_hand.
  destruct (best_over_spec (combinations cards 5) (-1, [])) as (r & Hr & _ & Hfrom & _).
  { eapply Forall_impl; [by apply valid_combinations|].
    intros combo [Hc Hl]. by apply rank_five_card_hand_total. }
  destruct (best_over_spec (combinations cards' 5) (-1, [])) as (r' & Hr' & Hle & Hfrom' & Hmax).
  { eapply Forall_impl; [by apply valid_combinations|].
    intros combo [Hc Hl]. by apply rank_five_card_hand_total. }
  exists r, r'. split_and!; [done | done |].
  destruct Hfrom as [-> | (combo & Hin & Hc)]; [done|].
  apply elem_of_combinations in Hin as [Hs Hl].
  assert (combo ⊆+ cards') as (combo' & Hp & Hs')%submseteq_sublist_r.
  { etrans; [by apply sublist_submseteq | done]. }
  apply (Hmax combo').
  - apply elem_of_combinations. split; [done | by rewrite <- Hp].
  - by rewrite <- (rank_five_card_hand_perm_eq combo combo').
Qed.

Lemma evaluate_hand_perm_eq cards cards' :
  cards ≡ₚ cards' → evaluate_hand cards = evaluate_hand cards'.
Proof.
  intros Hp. destruct (mapR_card_value_cases cards) as [[Hv _] | [Hbad _]].
  - assert (Forall valid_card cards') as Hv' by (by rewrite <- Hp).
    destruct (evaluate_hand_le cards cards' Hv') as (r & r' & Hr & Hr' & Hle);
      [by rewrite Hp|].
    destruct (evaluate_hand_le cards' cards Hv) as (s' & s & Hs' & Hs & Hle');
      [by rewrite Hp|].
    rewrite Hr in Hs. rewrite Hr' in Hs'. injection Hs as <-. injection Hs' as <-.
    rewrite Hr, Hr'. f_equal. by apply rank_ltb_trichotomy.
  - destruct (le_lt_dec 5 (length cards)) as [Hlen | Hlen].
    + rewrite !evaluate_hand_unknown; [done | by rewrite <- Hp | by rewrite <- Hp | done | done].
    + unfold evaluate_hand. rewrite !combinations_short; [done | by rewrite <- Hp | done].
Qed.

End CardOrder.

(** X2. [rank_five_card_hand] gives the same outcome, rank or exception,
    on any reordering of a hand. *)
Theorem rank_five_card_hand_permutation (hand hand' : list Card) :
  hand ≡ₚ hand' → rank_five_card_hand hand = rank_five_card_hand hand'.
Proof. apply rank_five_card_hand_perm_eq. Qed.

Lemma rank_five_card_hand_permutation_witness :
  rank_five_card_hand (reverse wheel_hand) = rank_five_card_hand wheel_hand.
Proof.
  apply (rank_five_card_hand_permutation (reverse wheel_hand) wheel_hand).
  apply reverse_Permutation.
Defined.

(** X3. Adding cards never lowers the evaluation: when all cards of
    [cards'] are known and [cards] is taken from them (in any order), both
    evaluate and the rank of [cards] is not above the rank of [cards']. *)
Theorem evaluate_hand_monotone (cards cards' : list Card) :
  Forall valid_card cards' → cards ⊆+ cards' →
  ∃ r r', evaluate_hand cards = Ok r ∧ evaluate_hand cards' = Ok r' ∧ rank_le r r'.
Proof. apply evaluate_hand_le. Qed.

Lemma evaluate_hand_monotone_witness :
  ∃ r r', evaluate_hand (pocket_aces ++ low_board) = Ok r
    ∧ evaluate_hand (pocket_aces ++ low_board ++ pocket_kings) = Ok r'
    ∧ rank_le r r'.
Proof.
  apply (evaluate_hand_monotone (pocket_aces ++ low_board)
           (pocket_aces ++ low_board ++ pocket_kings)).
  - repeat constructor; by eexists.
  - apply sublist_submseteq.
    change (pocket_aces ++ low_board ++ pocket_kings)
      with ((pocket_aces ++ low_board) ++ pocket_kings).
    apply sublist_inserts_r. reflexivity.
Defined.

(** X4. [evaluate_hand] gives the same outcome, rank or exception, on any
    reordering of the cards. *)
Theorem evaluate_hand_permutation (cards cards' : list Card) :
  cards ≡ₚ cards' → evaluate_hand cards = evaluate_hand cards'.
Proof. apply evaluate_hand_perm_eq. Qed.

Lemma evaluate_hand_permutation_witness :
  evaluate_hand (reverse seven_cards) = evaluate_hand seven_cards.
Proof.
  apply (evaluate_hand_permutation (reverse seven_cards) seven_cards).
  apply reverse_Permutation.
Defined.

(** ** The cascade of categories *)

Section Cascade.

Lemma straight_values_perm l k : l ≡ₚ k → straight_values l ↔ straight_values k.
Proof.
  intros Hp. unfold straight_values.
  split; (intros [(hi & Hall) | Hw]; [left; exists hi | right]); intros;
    first [rewrite <- Hp | rewrite Hp]; auto.
Qed.

Lemma check_straight_perm l k : l ≡ₚ k → check_straight l = check_straight k.
Proof.
  intros Hp. pose proof (straight_values_perm l k Hp) as Hiff.
  rewrite <- !check_straight_values in Hiff.
  destruct (check_straight l), (check_straight k); try done.
  - symmetry. by apply Hiff.
  - by apply Hiff.
Qed.

Lemma remove_dups_length_le {A} `{EqDecision A} (l : list A) :
  (length (remove_dups l) ≤ length l)%nat.
Proof.
  induction l as [|x l IH]; simpl; [lia|].
  destruct (decide_rel _ _ _); simpl; lia.
Qed.

Lemma remove_dups_length_lt {A} `{EqDecision A} (l : list A) :
  ¬ NoDup l → (length (remove_dups l) < length l)%nat.
Proof.
  induction l as [|x l IH]; intros Hnd; [destruct Hnd; constructor|].
  simpl. destruct (decide_rel _ _ _) as [Hin | Hnotin]; simpl.
  - pose proof (remove_dups_length_le l). lia.
  - assert (¬ NoDup l) as Hl by (intros Hl; apply Hnd; by constructor).
    specialize (IH Hl). lia.
Qed.

(** A straight needs five different values. *)
Lemma check_straight_five values :
  check_straight values = true → (5 ≤ length (remove_dups values))%nat.
Proof.
  intros [(i & hi & lo & _ & Hlo & _) | Hw]%check_straight_window.
  - apply lookup_lt_Some in Hlo. rewrite sorted_desc_length in Hlo. lia.
  - change 5%nat with (length [14; 5; 4; 3; 2]).
    apply submseteq_length, NoDup_submseteq.
    + apply (bool_decide_unpack _). by vm_compute.
    + intros v Hv. apply elem_of_remove_dups. auto.
Qed.

Lemma check_straight_repeated values x rest :
  values ≡ₚ x :: x :: rest → length rest = 3%nat →
  check_straight (sorted_desc values) = false.
Proof.
  intros Hp Hlen. destruct (check_straight (sorted_desc values)) eqn:Hs; [|done].
  apply check_straight_five in Hs.
  rewrite (remove_dups_length_perm _ (x :: x :: rest)) in Hs
    by (by rewrite sorted_desc_perm).
  assert (¬ NoDup (x :: x :: rest)) as Hnd.
  { intros [Hx _]%NoDup_cons. apply Hx. left. }
  apply remove_dups_length_lt in Hnd. cbn [length] in Hnd. rewrite Hlen in Hnd. lia.
Qed.

Lemma straight_values_NoDup values :
  length values = 5%nat → straight_values values → NoDup values.
Proof.
  intros Hlen Hs%check_straight_values%check_straight_five.
  destruct (NoDup_dec values) as [|Hnd]; [done|].
  apply remove_dups_length_lt in Hnd. lia.
Qed.

Lemma flush_same_suit hand :
  length (remove_dups (map suit hand)) = 1%nat → same_suit hand.
Proof.
  intros Hlen. destruct (remove_dups (map suit hand)) as [|s [|]] eqn:Hr; try done.
  exists s. split; [by intros ->|].
  intros x Hx. assert (suit x ∈ remove_dups (map suit hand)) as Hin.
  { apply elem_of_remove_dups, list_elem_of_fmap. by exists x. }
  rewrite Hr in Hin. by apply list_elem_of_singleton in Hin.
Qed.

Lemma mixed_suits hand :
  ¬ same_suit hand → Nat.eqb (length (remove_dups (map suit hand))) 1 = false.
Proof.
  intros Hmixed. apply Nat.eqb_neq. intros Hlen. by apply Hmixed, flush_same_suit.
Qed.

Lemma one_suit hand :
  same_suit hand → Nat.eqb (length (remove_dups (map suit hand))) 1 = true.
Proof. intros Hs. by rewrite (same_suit_flush hand Hs). Qed.

Lemma check_straight_sorted values :
  check_straight (sorted_desc values) = check_straight values.
Proof. apply check_straight_perm, sorted_desc_perm. Qed.

Lemma no_straight values :
  ¬ straight_values values → check_straight (sorted_desc values) = false.
Proof.
  intros Hn. rewrite check_straight_sorted.
  destruct (check_straight values) eqn:Hs; [|done]. by apply check_straight_values in Hs.
Qed.

(** Five different values in descending order. *)
Lemma sorted_desc_distinct values :
  length values = 5%nat → NoDup values →
  ∃ a b c d e, sorted_desc values = [a; b; c; d; e] ∧ b < a ∧ c < b ∧ d < c ∧ e < d.
Proof.
  intros Hlen Hnd.
  destruct (sorted_desc_five values Hlen) as (a & b & c & d & e & Hs & Hab & Hbc & Hcd & Hde).
  exists a, b, c, d, e. split; [done|].
  assert (NoDup [a; b; c; d; e]) as Hnd' by (by rewrite <- Hs, sorted_desc_perm).
  repeat match goal with
         | H : NoDup (_ :: _) |- _ => apply NoDup_cons in H as [? ?]
         end.
  repeat match goal with
         | H : _ ∉ _ :: _ |- _ => apply not_elem_of_cons in H as [? ?]
         end.
  lia.
Qed.

(** Two lists of integers with the same sorted form are reorderings of each
    other. *)
Lemma perm_by_sorting l k : sorted_desc l = sorted_desc k → l ≡ₚ k.
Proof. intros Hs. by rewrite <- (sorted_desc_perm l), <- (sorted_desc_perm k), Hs. Qed.

Lemma not_same_suit hand x y :
  x ∈ hand → y ∈ hand → suit x ≠ suit y → ¬ same_suit hand.
Proof.
  intros Hx Hy Hne (s & _ & Hall). apply Hne. by rewrite (Hall x), (Hall y).
Qed.

End Cascade.

(** X5. Four cards of value [x] and a fifth of value [k] rank as four of a
    kind with tiebreak [[x, k]], whatever the suits. *)
Theorem four_of_a_kind_rank (hand : list Card) (values : list Z) (x k : Z) :
  mapR card_value hand = Ok values → values ≡ₚ [x; x; x; x; k] → x ≠ k →
  rank_five_card_hand hand = Ok (7, [x; k]).
Proof.
  intros Hvs Hp Hne.
  pose proof (check_straight_repeated values x [x; x; k] Hp eq_refl) as Hns.
  unfold rank_five_card_hand. rewrite Hvs. cbn [mbind result_bind].
  rewrite Hns, andb_false_r.
  generalize (length (remove_dups (map suit hand)) =? 1)%nat. intros fl.
  rewrite (sorted_desc_unique _ _ Hp).
  unfold sorted_desc, Counter, next_with_count, py_next, zmem.
  destruct (Z.lt_total x k) as [Hlt | [Heq | Hgt]]; [|done|]; decide_tests; reflexivity.
Qed.

Lemma four_of_a_kind_rank_witness :
  rank_five_card_hand (map card ["9S"; "KD"; "9C"; "9H"; "9D"]%string) = Ok (7, [9; 13]).
Proof.
  apply (four_of_a_kind_rank _ [9; 13; 9; 9; 9]); [reflexivity | | lia].
  by apply perm_by_sorting.
Defined.

(** X6. Three cards of value [x] and two of value [p] rank as a full house
    with tiebreak [[x, p]], whatever the suits. *)
Theorem full_house_rank (hand : list Card) (values : list Z) (x p : Z) :
  mapR card_value hand = Ok values → values ≡ₚ [x; x; x; p; p] → x ≠ p →
  rank_five_card_hand hand = Ok (6, [x; p]).
Proof.
  intros Hvs Hp Hne.
  pose proof (check_straight_repeated values x [x; p; p] Hp eq_refl) as Hns.
  unfold rank_five_card_hand. rewrite Hvs. cbn [mbind result_bind].
  rewrite Hns, andb_false_r.
  generalize (length (remove_dups (map suit hand)) =? 1)%nat. intros fl.
  rewrite (sorted_desc_unique _ _ Hp).
  unfold sorted_desc, Counter, next_with_count, py_next, zmem.
  destruct (Z.lt_total x p) as [Hlt | [Heq | Hgt]]; [|done|]; decide_tests; reflexivity.
Qed.

Lemma full_house_rank_witness :
  rank_five_card_hand (map card ["KS"; "3D"; "KC"; "3H"; "3S"]%string) = Ok (6, [3; 13]).
Proof.
  apply (full_house_rank _ [13; 3; 13; 3; 3]); [reflexivity | | lia].
  by apply perm_by_sorting.
Defined.

(** X7. Three cards of value [x] with two different kickers, not all of one
    suit, rank as three of a kind with tiebreak [[x, k1, k2]], the kickers
    in descending order. *)
Theorem three_of_a_kind_rank (hand : list Card) (values : list Z) (x k1 k2 : Z) :
  mapR card_value hand = Ok values → values ≡ₚ [x; x; x; k1; k2] →
  k2 < k1 → x ≠ k1 → x ≠ k2 → ¬ same_suit hand →
  rank_five_card_hand hand = Ok (3, [x; k1; k2]).
Proof.
  intros Hvs Hp Hk H1 H2 Hmixed.
  pose proof (check_straight_repeated values x [x; k1; k2] Hp eq_refl) as Hns.
  unfold rank_five_card_hand. rewrite Hvs. cbn [mbind result_bind].
  rewrite Hns, (mixed_suits hand Hmixed). cbn [andb].
  rewrite (sorted_desc_unique _ _ Hp).
  unfold sorted_desc, Counter, next_with_count, py_next, zmem.
  destruct (Z_lt_dec x k1), (Z_lt_dec x k2); try lia; decide_tests; reflexivity.
Qed.

Lemma three_of_a_kind_rank_witness :
  rank_five_card_hand (map card ["7S"; "KD"; "7C"; "2H"; "7D"]%string) = Ok (3, [7; 13; 2]).
Proof.
  apply (three_of_a_kind_rank _ [7; 13; 7; 2; 7]); [reflexivity | | lia | lia | lia |].
  - by apply perm_by_sorting.
  - apply (not_same_suit _ (card "7S") (card "KD")); [repeat constructor.. | done].
Defined.

(** X8. Two pairs [p > q] and a kicker [k], not all of one suit, rank as
    two pair with tiebreak [[p, q, k]]. *)
Theorem two_pair_rank (hand : list Card) (values : list Z) (p q k : Z) :
  mapR card_value hand = Ok values → values ≡ₚ [p; p; q; q; k] →
  q < p → k ≠ p → k ≠ q → ¬ same_suit hand →
  rank_five_card_hand hand = Ok (2, [p; q; k]).
Proof.
  intros Hvs Hp Hpq H1 H2 Hmixed.
  pose proof (check_straight_repeated values p [q; q; k] Hp eq_refl) as Hns.
  unfold rank_five_card_hand. rewrite Hvs. cbn [mbind result_bind].
  rewrite Hns, (mixed_suits hand Hmixed). cbn [andb].
  rewrite (sorted_desc_unique _ _ Hp).
  unfold sorted_desc, Counter, next_with_count, py_next, zmem.
  destruct (Z_lt_dec p k), (Z_lt_dec q k); try lia; decide_tests; reflexivity.
Qed.

Lemma two_pair_rank_witness :
  rank_five_card_hand (map card ["3S"; "AD"; "5C"; "3H"; "AS"]%string) = Ok (2, [14; 3; 5]).
Proof.
  apply (two_pair_rank _ [3; 14; 5; 3; 14]); [reflexivity | | lia | lia | lia |].
  - by apply perm_by_sorting.
  - apply (not_same_suit _ (card "3S") (card "AD")); [repeat constructor.. | done].
Defined.

(** X9. One pair of value [p] with three different kickers, not all of one
    suit, ranks as one pair with tiebreak [[p, k1, k2, k3]], the kickers in
    descending order. *)
Theorem one_pair_rank (hand : list Card) (values : list Z) (p k1 k2 k3 : Z) :
  mapR card_value hand = Ok values → values ≡ₚ [p; p; k1; k2; k3] →
  k2 < k1 → k3 < k2 → p ≠ k1 → p ≠ k2 → p ≠ k3 → ¬ same_suit hand →
  rank_five_card_hand hand = Ok (1, [p; k1; k2; k3]).
Proof.
  intros Hvs Hp Hk12 Hk23 H1 H2 H3 Hmixed.
  pose proof (check_straight_repeated values p [k1; k2; k3] Hp eq_refl) as Hns.
  unfold rank_five_card_hand. rewrite Hvs. cbn [mbind result_bind].
  rewrite Hns, (mixed_suits hand Hmixed). cbn [andb].
  rewrite (sorted_desc_unique _ _ Hp).
  unfold sorted_desc, Counter, next_with_count, py_next, zmem.
  destruct (Z_lt_dec p k1), (Z_lt_dec p k2), (Z_lt_dec p k3); try lia;
    decide_tests; reflexivity.
Qed.

Lemma one_pair_rank_witness :
  rank_five_card_hand (map card ["AS"; "KD"; "AC"; "4H"; "3S"]%string)
  = Ok (1, [14; 13; 4; 3]).
Proof.
  apply (one_pair_rank _ [14; 13; 14; 4; 3]); [reflexivity | | lia | lia | lia | lia | lia |].
  - by apply perm_by_sorting.
  - apply (not_same_suit _ (card "AS") (card "KD")); [repeat constructor.. | done].
Defined.

(** X10. Five different values of one suit that are not a straight rank as
    a flush; five values forming a straight in mixed suits rank as a
    straight; five different values in mixed suits that are not a straight
    rank as high card.  The tiebreak is the five values in descending order
    each time. *)
Theorem plain_hand_rank (hand : list Card) (values : list Z) :
  length hand = 5%nat → mapR card_value hand = Ok values →
  (NoDup values → same_suit hand → ¬ straight_values values →
     rank_five_card_hand hand = Ok (5, sorted_desc values))
  ∧ (¬ same_suit hand → straight_values values →
       rank_five_card_hand hand = Ok (4, sorted_desc values))
  ∧ (NoDup values → ¬ same_suit hand → ¬ straight_values values →
       rank_five_card_hand hand = Ok (0, sorted_desc values)).
Proof.
  intros Hlen Hvs.
  assert (length values = 5%nat) as Hl.
  { apply mapR_Ok_inv, Forall2_length in Hvs. lia. }
  assert (∀ fl st, NoDup values → fl && st = false →
            rank_five_card_hand hand
            = Ok (if fl then 5 else if st then 4 else 0, sorted_desc values)
            ∨ (Nat.eqb (length (remove_dups (map suit hand))) 1 ≠ fl
               ∨ check_straight (sorted_desc values) ≠ st)) as Hrun.
  { intros fl st Hnd Hfs.
    destruct (decide ((length (remove_dups (map suit hand)) =? 1)%nat = fl)) as [Hfl|];
      [|by right; left].
    destruct (decide (check_straight (sorted_desc values) = st)) as [Hst|];
      [|by right; right].
    left. unfold rank_five_card_hand. rewrite Hvs. cbn [mbind result_bind].
    rewrite Hfl, Hst, Hfs.
    destruct (sorted_desc_distinct values Hl Hnd) as (a & b & c & d & e & -> & ? & ? & ? & ?).
    unfold Counter, next_with_count, py_next, zmem. decide_tests.
    by destruct fl, st. }
  split_and!.
  - intros Hnd Hs Hns. destruct (Hrun true false Hnd eq_refl) as [Hr | [Hf | Hf]]; [done | |].
    + by rewrite (one_suit hand Hs) in Hf.
    + by rewrite (no_straight values Hns) in Hf.
  - intros Hm Hst. pose proof (straight_values_NoDup values Hl Hst) as Hnd.
    destruct (Hrun false true Hnd eq_refl) as [Hr | [Hf | Hf]]; [done | |].
    + by rewrite (mixed_suits hand Hm) in Hf.
    + rewrite check_straight_sorted in Hf. by apply check_straight_values in Hst.
  - intros Hnd Hm Hns. destruct (Hrun false false Hnd eq_refl) as [Hr | [Hf | Hf]]; [done | |].
    + by rewrite (mixed_suits hand Hm) in Hf.
    + by rewrite (no_straight values Hns) in Hf.
Qed.

Lemma plain_hand_rank_witness :
  rank_five_card_hand (map card ["AS"; "KS"; "2S"; "4S"; "3S"]%string)
    = Ok (5, [14; 13; 4; 3; 2])
  ∧ rank_five_card_hand (map card ["6S"; "2D"; "3C"; "4H"; "5S"]%string)
    = Ok (4, [6; 5; 4; 3; 2])
  ∧ rank_five_card_hand (map card ["AS"; "KD"; "9C"; "4H"; "3S"]%string)
    = Ok (0, [14; 13; 9; 4; 3]).
Proof.
  split_and!.
  - apply (plain_hand_rank (map card ["AS"; "KS"; "2S"; "4S"; "3S"]%string)
             [14; 13; 2; 4; 3] eq_refl eq_refl).
    + apply (bool_decide_unpack _). by vm_compute.
    + exists "S"%string. split; [done|]. apply Forall_forall. by repeat constructor.
    + by intros Hs%check_straight_values.
  - apply (plain_hand_rank (map card ["6S"; "2D"; "3C"; "4H"; "5S"]%string)
             [6; 2; 3; 4; 5] eq_refl eq_refl).
    + apply (not_same_suit _ (card "6S") (card "2D")); [repeat constructor.. | done].
    + by apply check_straight_values.
  - apply (plain_hand_rank (map card ["AS"; "KD"; "9C"; "4H"; "3S"]%string)
             [14; 13; 9; 4; 3] eq_refl eq_refl).
    + apply (bool_decide_unpack _). by vm_compute.
    + apply (not_same_suit _ (card "AS") (card "KD")); [repeat constructor.. | done].
    + by intros Hs%check_straight_values.
Defined.

(** X11. Straight detection depends on the values only as a set: it
    succeeds exactly when they contain five consecutive integers or all of
    14, 5, 4, 3 and 2. *)
Theorem straight_detection_by_values (values : list Z) :
  check_straight values = true ↔
    (∃ hi, ∀ d, 0 ≤ d ≤ 4 → hi - d ∈ values)
    ∨ (∀ v, v ∈ [14; 5; 4; 3; 2] → v ∈ values).
Proof. apply check_straight_values. Qed.

(** ** The deck *)

Section DeckProperties.

Lemma elem_of_fresh_cards x :
  x ∈ Deck.fresh_cards ↔ card_num x ∈ Deck.card_nums ∧ suit x ∈ Deck.suits.
Proof.
  unfold Deck.fresh_cards. rewrite list_elem_of_In, in_flat_map.
  setoid_rewrite <- list_elem_of_In. setoid_rewrite list_elem_of_fmap. split.
  - intros (n & Hn & s & -> & Hs). done.
  - intros [Hn Hs]. exists (card_num x). split; [done|]. exists (suit x).
    split; [by destruct x | done].
Qed.

Lemma deal_hand_formula n : ∀ d,
  (Deck.deal_hand d n).1
    = map Some (take n (reverse (Deck.cards d)))
      ++ replicate (n - length (Deck.cards d)) None
  ∧ Deck.cards (Deck.deal_hand d n).2
    = take (length (Deck.cards d) - n) (Deck.cards d).
Proof.
  induction n as [|n IH]; intros [l]; cbn [Deck.deal_hand Deck.cards].
  - rewrite take_0, Nat.sub_0_l, Nat.sub_0_r, take_ge by lia. done.
  - unfold Deck.deal_card. cbn [Deck.cards].
    destruct l as [|x l _] using rev_ind.
    + cbn [last]. specialize (IH (Deck.mkDeck [])).
      destruct (Deck.deal_hand (Deck.mkDeck []) n) as [xs d2].
      cbn [fst snd Deck.cards] in IH |- *. destruct IH as [IH1 IH2].
      rewrite IH1, IH2, reverse_nil, !take_nil. cbn [map app length].
      by rewrite Nat.sub_0_r.
    + rewrite last_snoc, removelast_last. specialize (IH (Deck.mkDeck l)).
      destruct (Deck.deal_hand (Deck.mkDeck l) n) as [xs d2].
      cbn [fst snd Deck.cards] in IH |- *. destruct IH as [IH1 IH2].
      rewrite IH1, IH2, reverse_snoc, length_app. cbn [length take map app].
      split.
      * do 2 f_equal. f_equal. lia.
      * replace (length l + 1 - S n)%nat with (length l - n)%nat by lia.
        rewrite take_app_le by lia. done.
Qed.

Lemma remove_card_gone d x : x ∉ Deck.cards (Deck.remove_card d x).
Proof. unfold Deck.remove_card. cbn. rewrite list_elem_of_filter. tauto. Qed.

End DeckProperties.

(** X12. [deal_hand] deals from the end of the list, last card first, and
    never raises: once the deck is exhausted it yields [None] for every
    further card; the cards left are the front of the list. *)
Theorem deal_hand_from_the_top (d : Deck.Deck) (n : nat) :
  (Deck.deal_hand d n).1
    = map Some (take n (reverse (Deck.cards d)))
      ++ replicate (n - length (Deck.cards d)) None
  ∧ Deck.cards (Deck.deal_hand d n).2
    = take (length (Deck.cards d) - n) (Deck.cards d).
Proof. apply deal_hand_formula. Qed.

(** X13. A card removed with [remove_card] is gone for good: it is not
    among the cards that any later [deal_hand] yields, nor among those
    left, while every other card of the deck keeps its place. *)
Theorem removed_card_never_dealt (d : Deck.Deck) (x : Card) (n : nat) :
  (Some x ∉ fst (Deck.deal_hand (Deck.remove_card d x) n))
  ∧ (x ∉ Deck.cards (snd (Deck.deal_hand (Deck.remove_card d x) n)))
  ∧ (Deck.cards (Deck.remove_card d x) `sublist_of` Deck.cards d)
  ∧ ∀ y, y ≠ x → y ∈ Deck.cards d → y ∈ Deck.cards (Deck.remove_card d x).
Proof.
  destruct (deal_hand_formula n (Deck.remove_card d x)) as [-> ->].
  pose proof (remove_card_gone d x) as Hgone. split_and!.
  - intros [Hin | Hin]%elem_of_app.
    + apply list_elem_of_fmap in Hin as (y & Hxy & Hy). injection Hxy as <-.
      apply elem_of_take in Hy as (i & Hy & _).
      apply list_elem_of_lookup_2 in Hy. rewrite elem_of_reverse in Hy. by apply Hgone.
    + by apply elem_of_replicate in Hin as [? _].
  - intros Hin. apply elem_of_take in Hin as (i & Hy & _).
    apply list_elem_of_lookup_2 in Hy. by apply Hgone.
  - apply sublist_filter.
  - intros y Hne Hy. unfold Deck.remove_card. cbn. by apply list_elem_of_filter.
Qed.

Section NewDeck.
Context `{AmbientLaws}.

(** X14. However it is shuffled, a new deck holds 52 different cards: each
    of the 13 ranks in each of the 4 suits, all with a value in
    [CARD_VALUE_MAP]. *)
Theorem new_deck_complete (g : rng) :
  length (Deck.cards (Deck.new g).1) = 52%nat
  ∧ NoDup (Deck.cards (Deck.new g).1)
  ∧ (∀ x, x ∈ Deck.cards (Deck.new g).1
          ↔ card_num x ∈ Deck.card_nums ∧ suit x ∈ Deck.suits)
  ∧ Forall valid_card (Deck.cards (Deck.new g).1).
Proof.
  pose proof (new_deck g) as Hp. split_and!.
  - by rewrite Hp.
  - rewrite Hp. apply fresh_cards_NoDup.
  - intros x. rewrite Hp. apply elem_of_fresh_cards.
  - rewrite Hp. apply fresh_cards_valid.
Qed.

End NewDeck.

Lemma new_deck_complete_witness :
  length (Deck.cards (@Deck.new demo_ambient 0%nat).1) = 52%nat
  ∧ NoDup (Deck.cards (@Deck.new demo_ambient 0%nat).1).
Proof.
  destruct (@new_deck_complete demo_ambient demo_laws 0%nat) as (Hl & Hn & _).
  exact (conj Hl Hn).
Defined.

Import More.

(** ** Rollouts *)

(** X15. A rollout is zero-sum: when the rollout for the player against the
    opponent yields [r], the rollout with the two hands exchanged yields
    [1 - r]. *)
Theorem rollout_zero_sum (player_hand opponent_hand board : list Card) (r : Q) :
  rollout_simulation player_hand opponent_hand board = Ok r →
  ∃ r', rollout_simulation opponent_hand player_hand board = Ok r' ∧ (r + r' == 1)%Q.
Proof.
  unfold rollout_simulation. intros (rp & Hp & Hr)%bind_Ok.
  apply bind_Ok in Hr as (ro & Ho & Hr). rewrite Ho, Hp. cbn [mbind result_bind].
  destruct (rank_ltb ro rp) eqn:E1.
  - rewrite (rank_ltb_asym _ _ E1). injection Hr as <-. by exists 0%Q.
  - destruct (rank_ltb rp ro) eqn:E2; injection Hr as <-; [by exists 1%Q | by exists (1 # 2)%Q].
Qed.

Lemma rollout_zero_sum_witness :
  ∃ r', rollout_simulation pocket_kings pocket_aces low_board = Ok r' ∧ (1 + r' == 1)%Q.
Proof.
  apply (rollout_zero_sum pocket_aces pocket_kings low_board 1). reflexivity.
Defined.

(** ** Sampling *)

Section SamplingProperties.
Context `{AmbientLaws}.

Lemma new_deck_NoDup g : NoDup (Deck.cards (Deck.new g).1).
Proof. rewrite new_deck. apply fresh_cards_NoDup. Qed.

Lemma combination_NoDup (l : list Card) k a :
  NoDup l → a ∈ combinations l k → NoDup a.
Proof. intros Hnd [Hs _]%elem_of_combinations. by eapply sublist_NoDup. Qed.

(** X16. Every action that the sampling functions return consists of
    different cards of the deck, none of them among the cards to exclude:
    three per flop, one per turn and river, two per opponent hand (neither
    of them one of the player's two cards). *)
Theorem sampled_actions_avoid_used (g : rng) (used : list Card) :
  (∀ a, a ∈ (sample_flops g used).1 →
     length a = 3%nat ∧ NoDup a ∧ ∀ x, x ∈ a → (x ∉ used) ∧ x ∈ Deck.fresh_cards)
  ∧ (∀ a, a ∈ (sample_turns g used).1 ∨ a ∈ (sample_rivers g used).1 →
       ∃ x, a = [x] ∧ (x ∉ used) ∧ x ∈ Deck.fresh_cards)
  ∧ (∀ c0 c1 u g', sample_opponent_hands g [c0; c1] = Ok (u, g') →
       ∀ a, a ∈ u →
         length a = 2%nat ∧ NoDup a
         ∧ ∀ x, x ∈ a → x ≠ c0 ∧ x ≠ c1 ∧ x ∈ Deck.fresh_cards).
Proof.
  split_and!.
  - unfold sample_flops. pose proof (new_deck g) as Hnew. pose proof (new_deck_NoDup g) as Hnd.
    destruct (Deck.new g) as [deck g1]. cbn [fst] in Hnew, Hnd.
    intros a Ha%sample_elem. pose proof Ha as [Hs Hl]%elem_of_combinations.
    split_and!; [done | |].
    + eapply combination_NoDup; [|done]. by apply NoDup_filter.
    + intros x Hx. eapply elem_of_sublist in Hx; [|done].
      apply list_elem_of_filter in Hx as [Hx Hd]. by rewrite <- Hnew.
  - unfold sample_turns, sample_rivers. pose proof (new_deck g) as Hnew.
    destruct (Deck.new g) as [deck g1]. cbn [fst] in Hnew.
    intros a [Ha%sample_elem | Ha%sample_elem];
      apply list_elem_of_fmap in Ha as (x & -> & Hx);
      apply list_elem_of_filter in Hx as [Hx Hd];
      exists x; by rewrite <- Hnew.
  - intros c0 c1 u g'. unfold sample_opponent_hands.
    pose proof (new_deck g) as Hnew. pose proof (new_deck_NoDup g) as Hnd.
    destruct (Deck.new g) as [deck g1]. cbn [fst] in Hnew, Hnd.
    cbn [lookup list_lookup from_option mbind result_bind].
    set (combos := combinations _ 2).
    pose proof (sample_elem g1 combos (Nat.min 1000 (length combos))) as Hs.
    destruct (sample g1 combos _) as [u0 g2]. intros [= <- <-] a Ha%Hs.
    pose proof Ha as [Hsub Hl]%elem_of_combinations.
    split_and!; [done | |].
    + eapply combination_NoDup; [|done].
      unfold Deck.remaining_cards, Deck.remove_card. cbn. by do 2 apply NoDup_filter.
    + intros x Hx. eapply elem_of_sublist in Hx; [|done].
      unfold Deck.remaining_cards, Deck.remove_card in Hx. cbn in Hx.
      apply list_elem_of_filter in Hx as [Hx1 Hx].
      apply list_elem_of_filter in Hx as [Hx0 Hx]. by rewrite <- Hnew.
Qed.

End SamplingProperties.

Lemma sampled_actions_avoid_used_witness :
  Forall (λ a, length a = 3%nat ∧ NoDup a
               ∧ ∀ x, x ∈ a → (x ∉ pocket_aces) ∧ x ∈ Deck.fresh_cards)
    (@sample_flops demo_ambient 0%nat pocket_aces).1.
Proof.
  apply Forall_forall.
  exact (proj1 (@sampled_actions_avoid_used demo_ambient demo_laws 0%nat pocket_aces)).
Defined.

(** ** The showdown of a rollout *)

Section Showdown.

Lemma simulate_to_end_factor `{Ambient} g nd :
  simulate_to_end g nd
  = (let '(opponent_hand, community_cards, g') := deal_showdown g nd in
     opponent_hand ← dealt opponent_hand;
     community_cards ← dealt community_cards;
     r ← rollout_simulation (player_hand nd) opponent_hand community_cards;
     Ok (r, g')).
Proof.
  unfold simulate_to_end, deal_showdown. destruct (Deck.new g) as [deck g1].
  destruct (match stage nd with
            | opponent => _ | flop | turn | river => _ | root | done => _ end) as [opp comm].
  by destruct (match opp with [] => _ | _ :: _ => _ end) as [oh d1].
Qed.

Lemma deal_hand_split n d :
  (n ≤ length (Deck.cards d))%nat →
  ∃ xs, (Deck.deal_hand d n).1 = map Some xs ∧ length xs = n
    ∧ Deck.cards d = Deck.cards (Deck.deal_hand d n).2 ++ reverse xs.
Proof.
  intros Hn. destruct (deal_hand_formula n d) as [H1 H2].
  exists (take n (reverse (Deck.cards d))). split_and!.
  - rewrite H1. replace (n - length (Deck.cards d))%nat with 0%nat by lia.
    cbn [replicate]. by rewrite app_nil_r.
  - rewrite length_take, length_reverse. lia.
  - rewrite H2, take_reverse, reverse_involutive. by rewrite take_drop.
Qed.

Lemma remove_cards_gone used : ∀ d x,
  x ∈ Deck.cards (foldl Deck.remove_card d used) → x ∉ used.
Proof.
  induction used as [|y used IH]; intros d x Hx; [apply not_elem_of_nil|].
  cbn [foldl] in Hx. apply not_elem_of_cons. split; [|by eapply IH].
  intros ->. assert (Deck.cards (foldl Deck.remove_card (Deck.remove_card d y) used)
                     ⊆ Deck.cards (Deck.remove_card d y)) as Hsub.
  { clear. generalize (Deck.remove_card d y). induction used as [|z used IH]; intros d'; [done|].
    cbn [foldl]. etrans; [apply IH|]. intros w Hw. unfold Deck.remove_card in Hw. cbn in Hw.
    by apply list_elem_of_filter in Hw as [_ ?]. }
  apply Hsub in Hx. by apply remove_card_gone in Hx.
Qed.

(** The part of [deal_showdown] after the stage has split the state. *)
Lemma showdown_tail deck opp comm :
  NoDup (Deck.cards deck) → (7 ≤ length (Deck.cards deck))%nat →
  (length comm ≤ 5)%nat → (opp = [] ∧ comm = [] ∨ length opp = 2%nat) →
  ∃ oh board fresh,
    (match opp with
     | [] => Deck.deal_hand deck 2
     | _ :: _ => (map Some opp, deck)
     end).1 = map Some oh
    ∧ (if 0 <? 5 - Z.of_nat (length comm)
       then map Some comm
            ++ (Deck.deal_hand
                  (match opp with
                   | [] => Deck.deal_hand deck 2
                   | _ :: _ => (map Some opp, deck)
                   end).2 (Z.to_nat (5 - Z.of_nat (length comm)))).1
       else map Some comm) = map Some board
    ∧ oh ++ board = (opp ++ comm) ++ fresh
    ∧ length oh = 2%nat ∧ length board = 5%nat
    ∧ NoDup fresh ∧ fresh ⊆ Deck.cards deck.
Proof.
  intros Hnd Hlen Hcomm Hopp.
  assert (∀ d, NoDup (Deck.cards d) → (5 ≤ length (Deck.cards d))%nat →
            ∃ xs, (if 0 <? 5 - Z.of_nat (length comm)
                   then map Some comm
                        ++ (Deck.deal_hand d (Z.to_nat (5 - Z.of_nat (length comm)))).1
                   else map Some comm) = map Some (comm ++ xs)
              ∧ length (comm ++ xs) = 5%nat ∧ NoDup xs ∧ xs ⊆ Deck.cards d) as Hboard.
  { intros d Hd Hl. destruct (Z.ltb_spec 0 (5 - Z.of_nat (length comm))).
    - destruct (deal_hand_split (Z.to_nat (5 - Z.of_nat (length comm))) d) as (xs & -> & Hxl & Hsplit);
        [lia|].
      exists xs. rewrite map_app, length_app. split_and!; [done | lia | |].
      + rewrite Hsplit in Hd. apply NoDup_app in Hd as (_ & _ & Hd).
        by rewrite reverse_Permutation in Hd.
      + intros x Hx. rewrite Hsplit. apply elem_of_app. right. by apply elem_of_reverse.
    - exists []. rewrite app_nil_r. split_and!; [done | lia | constructor |].
      intros x []%elem_of_nil. }
  destruct opp as [|o os].
  - destruct Hopp as [[_ ->] | Ho]; [|done].
    destruct (deal_hand_split 2 deck) as (oh & Hoh & Hol & Hsplit); [lia|].
    destruct (Hboard (Deck.deal_hand deck 2).2) as (xs & Hxs & Hxl & Hxnd & Hxsub).
    { rewrite Hsplit in Hnd. by apply NoDup_app in Hnd as (? & _ & _). }
    { rewrite Hsplit, length_app, length_reverse in Hlen. lia. }
    exists oh, xs, (oh ++ xs). cbn [app] in Hxs, Hxl |- *.
    split_and!; [done | done | done | done | done | |].
    + rewrite Hsplit in Hnd. apply NoDup_app in Hnd as (Hrest & Hdisj & Hrev).
      apply NoDup_app. split_and!; [by rewrite reverse_Permutation in Hrev | | done].
      intros x Hx Hx'. apply (Hdisj x); [by apply Hxsub | by apply elem_of_reverse].
    + intros x [Hx | Hx]%elem_of_app; rewrite Hsplit; apply elem_of_app.
      * right. by apply elem_of_reverse.
      * left. by apply Hxsub.
  - destruct Hopp as [[? _] | Ho]; [done|].
    destruct (Hboard deck Hnd ltac:(lia)) as (xs & Hxs & Hxl & Hxnd & Hxsub).
    exists (o :: os), (comm ++ xs), xs. cbn [fst snd].
    split_and!; [done | done | by rewrite <- !app_assoc | done | done | done | done].
Qed.

Context `{AmbientLaws}.

Lemma deal_showdown_spec g nd :
  length (player_hand nd) = 2%nat → length (state nd) = stage_len (stage nd) →
  stage nd ≠ done →
  ∃ oh board fresh g',
    deal_showdown g nd = (map Some oh, map Some board, g')
    ∧ oh ++ board = state nd ++ fresh
    ∧ length oh = 2%nat ∧ length board = 5%nat
    ∧ NoDup fresh
    ∧ ∀ x, x ∈ fresh → (x ∉ player_hand nd ++ state nd) ∧ x ∈ Deck.fresh_cards.
Proof.
  intros Hph Hsl Hdone. unfold deal_showdown.
  pose proof (new_deck g) as Hnew. pose proof (new_deck_NoDup g) as Hnd0.
  destruct (Deck.new g) as [deck g']. cbn [fst] in Hnew, Hnd0.
  destruct (remove_cards_spec (player_hand nd ++ state nd) deck Hnd0) as (Hnd & Hsub & Hlen).
  pose proof (remove_cards_gone (player_hand nd ++ state nd) deck) as Hgone.
  set (deck' := foldl Deck.remove_card deck (player_hand nd ++ state nd)) in *.
  assert (length (Deck.cards deck) = 52%nat) as H52 by (by rewrite Hnew).
  rewrite length_app, Hph, Hsl in Hlen.
  set (oc := match stage nd with
             | opponent => (state nd, [])
             | flop | turn | river => (take 2 (state nd), drop 2 (state nd))
             | root | done => ([], [])
             end).
  assert (oc.1 ++ oc.2 = state nd ∧ (length oc.2 ≤ 5)%nat
          ∧ (oc.1 = [] ∧ oc.2 = [] ∨ length oc.1 = 2%nat)) as (Hoc & Hcl & Hopp).
  { unfold oc. destruct (stage nd); cbn [fst snd stage_len] in *.
    - apply nil_length_inv in Hsl. rewrite Hsl. split_and!; [done | simpl; lia | by left].
    - rewrite app_nil_r. split_and!; [done | simpl; lia | by right].
    - rewrite take_drop, length_drop, length_take, Hsl. split_and!; [done | lia | right; lia].
    - rewrite take_drop, length_drop, length_take, Hsl. split_and!; [done | lia | right; lia].
    - rewrite take_drop, length_drop, length_take, Hsl. split_and!; [done | lia | right; lia].
    - done. }
  destruct oc as [opp comm]. cbn [fst snd] in Hoc, Hcl, Hopp.
  destruct (showdown_tail deck' opp comm) as (oh & board & fresh & Hoh & Hboard & Heq & ? & ? & ? & Hfsub);
    [done | destruct (stage nd); cbn [stage_len] in Hlen; lia | done | done |].
  destruct (match opp with [] => _ | _ :: _ => _ end) as [oh' d1]. cbn [fst snd] in Hoh, Hboard.
  exists oh, board, fresh, g'. rewrite Hoh, Hboard. rewrite Hoc in Heq.
  split_and!; try done.
  intros x Hx%Hfsub. split; [by apply Hgone|]. rewrite <- Hnew. by apply Hsub.
Qed.

Lemma simulate_to_end_showdown g nd :
  length (player_hand nd) = 2%nat → length (state nd) = stage_len (stage nd) →
  stage nd ≠ done →
  ∃ oh board fresh g',
    simulate_to_end g nd
      = (r ← rollout_simulation (player_hand nd) oh board; Ok (r, g'))
    ∧ oh ++ board = state nd ++ fresh
    ∧ length oh = 2%nat ∧ length board = 5%nat
    ∧ NoDup fresh
    ∧ ∀ x, x ∈ fresh → (x ∉ player_hand nd ++ state nd) ∧ x ∈ Deck.fresh_cards.
Proof.
  intros Hph Hsl Hdone.
  destruct (deal_showdown_spec g nd Hph Hsl Hdone) as (oh & board & fresh & g' & Hd & Hrest).
  exists oh, board, fresh, g'. split; [|done].
  rewrite simulate_to_end_factor, Hd. cbv beta iota. rewrite !dealt_Some. reflexivity.
Qed.

Lemma simulate_to_end_unknown g nd :
  length (player_hand nd) = 2%nat → length (state nd) = stage_len (stage nd) →
  stage nd ≠ done → ¬ Forall valid_card (player_hand nd) →
  simulate_to_end g nd = Raise KeyError.
Proof.
  intros Hph Hsl Hdone Hbad.
  destruct (simulate_to_end_showdown g nd Hph Hsl Hdone)
    as (oh & board & fresh & g' & -> & _ & _ & Hbl & _).
  unfold rollout_simulation. rewrite (evaluate_hand_unknown (player_hand nd ++ board)); [reflexivity | |].
  - rewrite length_app. lia.
  - by intros [? _]%Forall_app.
Qed.

End Showdown.

(** X17. For a node with a two-card player hand whose state matches its
    stage, [simulate_to_end] scores a showdown of two opponent cards and
    five board cards: the cards of the node's state followed by cards dealt
    fresh, which are different from each other and from every card of the
    player's hand and of the state. *)
Theorem showdown_deals_fresh_cards `{AmbientLaws} (g : rng) (nd : MCTSNode) :
  length (player_hand nd) = 2%nat → length (state nd) = stage_len (stage nd) →
  stage nd ≠ done →
  ∃ opponent_hand board fresh g',
    simulate_to_end g nd
      = (r ← rollout_simulation (player_hand nd) opponent_hand board; Ok (r, g'))
    ∧ opponent_hand ++ board = state nd ++ fresh
    ∧ length opponent_hand = 2%nat ∧ length board = 5%nat
    ∧ NoDup fresh
    ∧ ∀ x, x ∈ fresh → (x ∉ player_hand nd ++ state nd) ∧ x ∈ Deck.fresh_cards.
Proof. apply simulate_to_end_showdown. Qed.

Lemma showdown_deals_fresh_cards_witness :
  ∃ opponent_hand board fresh g',
    @simulate_to_end demo_ambient 0%nat (init pocket_kings (Some 0%nat) opponent pocket_aces)
      = (r ← rollout_simulation pocket_aces opponent_hand board; Ok (r, g'))
    ∧ opponent_hand ++ board = pocket_kings ++ fresh
    ∧ length board = 5%nat.
Proof.
  destruct (@showdown_deals_fresh_cards demo_ambient demo_laws 0%nat
              (init pocket_kings (Some 0%nat) opponent pocket_aces) eq_refl eq_refl)
    as (oh & board & fresh & g' & Hs & Heq & _ & Hl & _); [discriminate|].
  exists oh, board, fresh, g'. exact (conj Hs (conj Heq Hl)).
Defined.

(** ** Hands that [run_mcts] cannot play *)

Section BadHands.
Context `{AmbientLaws}.

Lemma sample_opponent_hands_short g ph :
  (length ph < 2)%nat → sample_opponent_hands g ph = Raise IndexError.
Proof.
  intros Hlen. unfold sample_opponent_hands. destruct (Deck.new g) as [deck g1].
  destruct ph as [|c0 [|c1 ?]]; [done | done | simpl in Hlen; lia].
Qed.

Lemma iteration_unknown ph g h :
  length ph = 2%nat → ¬ Forall valid_card ph → wf ph h None →
  iteration (g, h) = Raise KeyError.
Proof.
  intros Hlen Hbad Hwf. unfold iteration.
  destruct (select_ok ph h (length h) 0%nat) as (node & -> & Hnode);
    [done | by destruct Hwf | lia |].
  cbn [mbind result_bind].
  destruct (expansion_ok ph g h node Hwf Hnode) as (g1 & h1 & node1 & -> & Hn1 & Hwf1 & _).
  cbn [mbind result_bind].
  destruct (get_lt h1 node1 Hn1) as (nd & Hnd & ->). cbn [mbind result_bind].
  pose proof (proj2 Hwf1 node1 nd Hnd) as Hok.
  rewrite simulate_to_end_unknown; [done | | | |].
  - by rewrite (ok_hand _ _ _ _ _ Hok).
  - apply (ok_state_len _ _ _ _ _ Hok).
  - apply (ok_stage _ _ _ _ _ Hok).
  - by rewrite (ok_hand _ _ _ _ _ Hok).
Qed.

Lemma run_mcts_unknown g ph iterations :
  length ph = 2%nat → ¬ Forall valid_card ph →
  (1 ≤ iterations → run_mcts g ph iterations = Raise KeyError)
  ∧ (iterations ≤ 0 → run_mcts g ph iterations = Ok 0%Q).
Proof.
  intros Hlen Hbad. unfold run_mcts, run_mcts_tree.
  destruct (initial_tree ph Hlen g) as (u & g1 & -> & Hwf). cbn [mbind result_bind].
  split; intros Hit.
  - destruct (Z.to_nat iterations) as [|n] eqn:Hn; [lia|]. cbn [iterations_loop].
    by rewrite (iteration_unknown ph g1 _ Hlen Hbad Hwf).
  - replace (Z.to_nat iterations) with 0%nat by lia. done.
Qed.

(** X18. [run_mcts] raises [IndexError] on a hand of fewer than two cards.
    On a two-card hand with a card whose [card_num] is not a key of
    [CARD_VALUE_MAP] it raises [KeyError] in the first pass, and returns 0
    when no pass is asked for. *)
Theorem run_mcts_rejects_bad_hands (g : rng) (ph : list Card) (iterations : Z) :
  ((length ph < 2)%nat → run_mcts g ph iterations = Raise IndexError)
  ∧ (length ph = 2%nat → ¬ Forall valid_card ph →
       (1 ≤ iterations → run_mcts g ph iterations = Raise KeyError)
       ∧ (iterations ≤ 0 → run_mcts g ph iterations = Ok 0%Q)).
Proof.
  split.
  - intros Hlen. unfold run_mcts, run_mcts_tree.
    by rewrite sample_opponent_hands_short.
  - apply run_mcts_unknown.
Qed.

End BadHands.

Lemma run_mcts_rejects_bad_hands_witness :
  @run_mcts demo_ambient 0%nat [card "AS"] 10 = Raise IndexError
  ∧ @run_mcts demo_ambient 0%nat [card "AS"; card "1H"] 10 = Raise KeyError.
Proof.
  destruct (@run_mcts_rejects_bad_hands demo_ambient demo_laws 0%nat [card "AS"] 10)
    as [Hshort _].
  destruct (@run_mcts_rejects_bad_hands demo_ambient demo_laws 0%nat
              [card "AS"; card "1H"] 10) as [_ Hbad].
  split.
  - apply Hshort. simpl. lia.
  - apply Hbad; [reflexivity | | lia].
    intros [_ [[v Hv] _]%Forall_cons]%Forall_cons. discriminate Hv.
Defined.


(** ** The shape of the tree *)

Section TreeShape.
Context `{AmbientLaws}.

Lemma expansion_cases ph g h node g' h' node' :
  wf ph h None → (node < length h)%nat → expansion g h node = Ok (g', h', node') →
  (h' = h ∧ node' = node)
  ∨ ∃ nd rest action u next,
      h !! node = Some nd ∧ untried_actions nd = rest ++ [action]
      ∧ get_next_stage nd = Ok next ∧ node' = length h
      ∧ h' = <[node := set_children (dict_set (children nd) action (length h))
                         (set_untried_actions rest nd)]> h
             ++ [set_untried_actions u
                   (init (state nd ++ action) (Some node) next (player_hand nd))].
Proof.
  intros Hwf Hnode Hexp. destruct (get_lt h node Hnode) as (nd & Hnd & Hget).
  destruct (untried_actions nd) as [|action rest _] eqn:Hu using rev_ind.
  - left. unfold expansion in Hexp. rewrite Hget in Hexp. cbn [mbind result_bind] in Hexp.
    unfold is_fully_expanded in Hexp. rewrite Hu in Hexp. cbn in Hexp.
    by injection Hexp as <- <- <-.
  - right. destruct (expansion_new_child ph g h node nd rest action Hwf Hnd Hu)
      as (g1 & u & next & Hnext & _ & _ & _ & Heq).
    rewrite Heq in Hexp. injection Hexp as <- <- <-.
    by exists nd, rest, action, u, next.
Qed.

Lemma backpropagate_pointwise ph h fresh node r h' :
  wf ph h fresh → (node < length h)%nat →
  backpropagate (length h) h node r = Ok h' →
  length h' = length h
  ∧ ∀ j x, h !! j = Some x → h' !! j = Some x ∨ h' !! j = Some (bump r x).
Proof.
  intros Hwf Hnode Hrun. pose proof (wf_parents_ok _ _ _ Hwf) as Hpo.
  destruct (backpropagate_spec r (length h) h node Hpo Hnode) as (h2 & Hrun2 & Hlen & Hspec);
    [done|].
  rewrite Hrun in Hrun2. injection Hrun2 as <-. split; [done|].
  intros j x Hx. destruct (Hspec j x Hx) as [Hyes Hno].
  destruct (classic_path h node j Hpo); [right | left]; auto.
Qed.

Lemma iteration_steps ph g h g' h' :
  length ph = 2%nat → Forall valid_card ph →
  wf ph h None → iteration (g, h) = Ok (g', h') →
  ∃ leaf g1 h1 node r,
    select (length h) h 0%nat = Ok leaf ∧ (leaf < length h)%nat
    ∧ expansion g h leaf = Ok (g1, h1, node)
    ∧ wf ph h1 (Some node) ∧ (node < length h1)%nat
    ∧ backpropagate (length h1) h1 node r = Ok h'.
Proof.
  intros Hlen Hvalid Hwf Hit. unfold iteration in Hit.
  destruct (select_ok ph h (length h) 0%nat) as (leaf & Hsel & Hleaf);
    [done | by destruct Hwf | lia |].
  rewrite Hsel in Hit. cbn [mbind result_bind] in Hit.
  destruct (expansion_ok ph g h leaf Hwf Hleaf) as (g1 & h1 & node & Hexp & Hn1 & Hwf1 & _).
  rewrite Hexp in Hit. cbn [mbind result_bind] in Hit.
  destruct (get_lt h1 node Hn1) as (nd & Hnd & Hget). rewrite Hget in Hit.
  cbn [mbind result_bind] in Hit.
  apply bind_Ok in Hit as ([r g2] & _ & Hit).
  apply bind_Ok in Hit as (h2 & Hback & [= <- <-]).
  by exists leaf, g1, h1, node, r.
Qed.

Lemma linked_expansion ph h node nd rest action u next :
  wf ph h None → linked h →
  h !! node = Some nd → untried_actions nd = rest ++ [action] →
  get_next_stage nd = Ok next →
  linked (<[node := set_children (dict_set (children nd) action (length h))
                      (set_untried_actions rest nd)]> h
          ++ [set_untried_actions u
                (init (state nd ++ action) (Some node) next (player_hand nd))]).
Proof.
  intros [Hpos Hall] [(r & Hr & Hrs & Hrst & Hrp) Hlinks] Hnd Hu Hnext.
  set (self' := set_children _ _). set (child := set_untried_actions u _).
  pose proof (lookup_lt_Some _ _ _ Hnd) as Hnode.
  assert (∀ j, (j < length h)%nat → j ≠ node →
            (<[node := self']> h ++ [child]) !! j = h !! j) as Hother.
  { intros j Hj Hne. rewrite lookup_app_l by (rewrite length_insert; lia).
    by rewrite list_lookup_insert_ne. }
  assert ((<[node := self']> h ++ [child]) !! node = Some self') as Hself.
  { rewrite lookup_app_l by (rewrite length_insert; lia).
    by rewrite list_lookup_insert_eq. }
  assert ((<[node := self']> h ++ [child]) !! length h = Some child) as Hchild.
  { rewrite lookup_app_r by (rewrite length_insert; lia).
    by rewrite length_insert, Nat.sub_diag. }
  assert (∀ j x, h !! j = Some x →
            ∃ x', (<[node := self']> h ++ [child]) !! j = Some x'
              ∧ parent x' = parent x ∧ state x' = state x ∧ stage x' = stage x) as Hkeep.
  { intros j x Hx. pose proof (lookup_lt_Some _ _ _ Hx).
    destruct (decide (j = node)) as [->|Hne].
    - exists self'. rewrite Hnd in Hx. injection Hx as <-. done.
    - exists x. by rewrite Hother. }
  split.
  - destruct (Hkeep 0%nat r Hr) as (r' & Hr' & Hp & Hs & Hst).
    exists r'. rewrite Hp, Hs, Hst. done.
  - intros i x a ch Hi Hin.
    assert (∀ y, h !! i = Some y → (a, ch) ∈ children y →
              get_next_stage x = get_next_stage y → state x = state y →
              ∃ cn, (<[node := self']> h ++ [child]) !! ch = Some cn
                ∧ parent cn = Some i ∧ state cn = state x ++ a
                ∧ get_next_stage x = Ok (stage cn)) as Hold.
    { intros y Hy Hychild Hgs Hss.
      destruct (Hlinks i y a ch Hy Hychild) as (cn & Hcn & Hp & Hs & Hst).
      destruct (Hkeep ch cn Hcn) as (cn' & Hcn' & Hp' & Hs' & Hst').
      exists cn'. rewrite Hp', Hs', Hst', Hgs, Hss. done. }
    destruct (decide (i = length h)) as [->|Hil].
    { rewrite Hchild in Hi. injection Hi as <-. by apply elem_of_nil in Hin. }
    assert (i < length h)%nat as Hi'.
    { apply lookup_lt_Some in Hi. rewrite length_app, length_insert in Hi. simpl in Hi. lia. }
    destruct (decide (i = node)) as [->|Hin'].
    + rewrite Hself in Hi. injection Hi as <-.
      apply elem_of_dict_set in Hin as [Hin | [-> ->]].
      * by apply (Hold nd).
      * exists child. split_and!; [done | done | done |].
        unfold get_next_stage in *. exact Hnext.
    + rewrite Hother in Hi by done. by apply (Hold x).
Qed.

Lemma linked_pointwise r h h' :
  length h' = length h →
  (∀ j x, h !! j = Some x → h' !! j = Some x ∨ h' !! j = Some (bump r x)) →
  linked h → linked h'.
Proof.
  intros Hlen Hpt [(r0 & Hr & Hrs & Hrst & Hrp) Hlinks].
  assert (∀ j x, h !! j = Some x →
            ∃ x', h' !! j = Some x' ∧ parent x' = parent x ∧ state x' = state x
              ∧ stage x' = stage x ∧ children x' = children x) as Hkeep.
  { intros j x Hx. destruct (Hpt j x Hx) as [Hj | Hj]; eexists; (split; [exact Hj | done]). }
  split.
  - destruct (Hkeep 0%nat r0 Hr) as (r' & Hr' & Hp & Hs & Hst & _).
    exists r'. rewrite Hp, Hs, Hst. done.
  - intros i x' a ch Hi Hin.
    destruct (lookup_lt_is_Some_2 h i) as [x Hx].
    { apply lookup_lt_Some in Hi. lia. }
    destruct (Hkeep i x Hx) as (x'' & Hx'' & Hp & Hs & Hst & Hch).
    rewrite Hi in Hx''. injection Hx'' as <-. rewrite Hch in Hin.
    destruct (Hlinks i x a ch Hx Hin) as (cn & Hcn & Hcp & Hcs & Hcst).
    destruct (Hkeep ch cn Hcn) as (cn' & Hcn' & Hp' & Hs' & Hst' & _).
    exists cn'. unfold get_next_stage in *. rewrite Hp', Hs', Hst', Hs, Hst. done.
Qed.

Lemma iteration_shape ph g h g' h' :
  length ph = 2%nat → Forall valid_card ph →
  wf ph h None → linked h → iteration (g, h) = Ok (g', h') →
  linked h' ∧ (length h ≤ length h' ≤ S (length h))%nat.
Proof.
  intros Hlen Hvalid Hwf Hl Hit.
  destruct (iteration_steps ph g h g' h' Hlen Hvalid Hwf Hit)
    as (leaf & g1 & h1 & node & r & Hsel & Hleaf & Hexp & Hwf1 & Hn1 & Hback).
  destruct (backpropagate_pointwise ph h1 (Some node) node r h' Hwf1 Hn1 Hback) as [Hlen' Hpt].
  destruct (expansion_cases ph g h leaf g1 h1 node Hwf Hleaf Hexp)
    as [[-> ->] | (nd & rest & action & u & next & Hnd & Hu & Hnext & -> & ->)].
  - split; [by eapply linked_pointwise | lia].
  - split.
    + eapply linked_pointwise; [done | done |]. by eapply linked_expansion.
    + rewrite Hlen', length_app, length_insert. simpl. lia.
Qed.

Lemma iterations_loop_shape ph n : ∀ g h g' h',
  length ph = 2%nat → Forall valid_card ph →
  wf ph h None → linked h → iterations_loop n (g, h) = Ok (g', h') →
  linked h' ∧ (length h ≤ length h' ≤ length h + n)%nat.
Proof.
  induction n as [|n IH]; intros g h g' h' Hlen Hvalid Hwf Hl Hrun.
  - injection Hrun as <- <-. split; [done | lia].
  - cbn [iterations_loop] in Hrun.
    destruct (iteration_ok ph Hlen Hvalid g h Hwf) as (g1 & h1 & Hit & Hwf1 & _).
    rewrite Hit in Hrun. cbn [mbind result_bind] in Hrun.
    destruct (iteration_shape ph g h g1 h1 Hlen Hvalid Hwf Hl Hit) as [Hl1 Hsz1].
    destruct (IH g1 h1 g' h' Hlen Hvalid Hwf1 Hl1 Hrun) as [Hl' Hsz']. split; [done | lia].
Qed.

Lemma run_mcts_tree_shape ph g iterations :
  length ph = 2%nat → Forall valid_card ph →
  ∃ g' h, run_mcts_tree g ph iterations = Ok (g', h)
    ∧ wf ph h None ∧ linked h ∧ (1 ≤ length h ≤ 1 + Z.to_nat iterations)%nat.
Proof.
  intros Hlen Hvalid.
  destruct (run_mcts_tree_ok ph Hlen Hvalid g iterations) as (g' & h & x & Hrun & Hwf & _).
  exists g', h. split; [done|]. split; [done|].
  unfold run_mcts_tree in Hrun. destruct (initial_tree ph Hlen g) as (u & g1 & Hs & Hwf0).
  rewrite Hs in Hrun. cbn [mbind result_bind] in Hrun.
  assert (linked [set_untried_actions u (init [] None root ph)]) as Hl0.
  { split; [by eexists | intros i nd a ch Hi Hin].
    destruct i; [|done]. injection Hi as <-. by apply elem_of_nil in Hin. }
  destruct (iterations_loop_shape ph _ g1 _ g' h Hlen Hvalid Hwf0 Hl0 Hrun) as [Hl Hsz].
  split; [done|]. simpl in Hsz. lia.
Qed.

End TreeShape.

Section TreeTheorems.
Context `{AmbientLaws}.

(** X19. In every tree that [run_mcts] builds the root is node 0, at stage
    [root] with an empty state and no parent; every entry of a node's
    [children] leads to a younger node whose parent is that node, whose
    state is the node's state followed by the action, and whose stage is the
    next stage; every node carries the player's hand, has as many cards in
    its state as its stage says (0, 2, 5, 6, 7), is never at stage [done],
    and at stage [river] has neither untried actions nor children. *)
Theorem tree_structure (ph : list Card) (g : rng) (iterations : Z) :
  length ph = 2%nat → Forall valid_card ph →
  ∃ g' h, run_mcts_tree g ph iterations = Ok (g', h)
    ∧ (∃ r, h !! 0%nat = Some r ∧ stage r = root ∧ state r = [] ∧ parent r = None)
    ∧ (∀ i nd a ch, h !! i = Some nd → (a, ch) ∈ children nd →
         (i < ch)%nat
         ∧ ∃ cn, h !! ch = Some cn ∧ parent cn = Some i
             ∧ state cn = state nd ++ a ∧ get_next_stage nd = Ok (stage cn))
    ∧ (∀ i nd, h !! i = Some nd →
         player_hand nd = ph
         ∧ length (state nd) = stage_len (stage nd)
         ∧ stage nd ≠ done
         ∧ (stage nd = river → untried_actions nd = [] ∧ children nd = [])).
Proof.
  intros Hlen Hvalid.
  destruct (run_mcts_tree_shape ph g iterations Hlen Hvalid)
    as (g' & h & Hrun & [Hpos Hall] & [Hroot Hlinks] & _).
  exists g', h. split_and!; [done | done | |].
  - intros i nd a ch Hi Hin. split; [|by eapply Hlinks].
    destruct (ok_children _ _ _ _ _ (Hall i nd Hi) a ch Hin). lia.
  - intros i nd Hi. pose proof (Hall i nd Hi) as Hok.
    split_and!; [apply Hok.. |].
    intros Hriver. split.
    + destruct (untried_actions nd) as [|a u] eqn:Hu; [done|].
      destruct (ok_untried _ _ _ _ _ Hok a) as (_ & _ & Hnr); [rewrite Hu; left | done].
    + destruct (children nd) as [|[a ch] kids] eqn:Hkids; [done|].
      destruct (Hlinks i nd a ch Hi) as (cn & Hcn & _ & _ & Hst); [rewrite Hkids; left|].
      unfold get_next_stage in Hst. rewrite Hriver in Hst. injection Hst as Hst.
      destruct (ok_stage _ _ _ _ _ (Hall ch cn Hcn)). done.
Qed.

(** X20. Each pass adds at most one node: the tree after [iterations]
    passes has at least one node and at most one more than the number of
    passes. *)
Theorem tree_size (ph : list Card) (g : rng) (iterations : Z) :
  length ph = 2%nat → Forall valid_card ph →
  ∃ g' h, run_mcts_tree g ph iterations = Ok (g', h)
    ∧ (1 ≤ length h ≤ 1 + Z.to_nat iterations)%nat.
Proof.
  intros Hlen Hvalid.
  destruct (run_mcts_tree_shape ph g iterations Hlen Hvalid) as (g' & h & Hrun & _ & _ & Hsz).
  by exists g', h.
Qed.

Lemma select_frontier fuel : ∀ (h : list MCTSNode) node leaf,
  select fuel h node = Ok leaf →
  ∃ nd, h !! leaf = Some nd ∧ (untried_actions nd ≠ [] ∨ children nd = []).
Proof.
  induction fuel as [|fuel IH]; intros h node leaf Hsel; cbn [select] in Hsel;
    apply bind_Ok in Hsel as (nd & Hget & Hsel);
    unfold get in Hget; destruct (h !! node) as [x|] eqn:Hnode; try done;
    injection Hget as ->;
    destruct (is_fully_expanded nd && negb (length (children nd) =? 0)%nat) eqn:Hguard.
  - done.
  - injection Hsel as <-. exists nd. split; [done|].
    apply andb_false_iff in Hguard as [Hu | Hc].
    + left. unfold is_fully_expanded in Hu. apply Nat.eqb_neq in Hu. by destruct (untried_actions nd).
    + right. apply negb_false_iff, Nat.eqb_eq in Hc. by destruct (children nd).
  - apply bind_Ok in Hsel as (best & _ & Hsel). destruct best as [child|]; [|done].
    by eapply IH.
  - injection Hsel as <-. exists nd. split; [done|].
    apply andb_false_iff in Hguard as [Hu | Hc].
    + left. unfold is_fully_expanded in Hu. apply Nat.eqb_neq in Hu. by destruct (untried_actions nd).
    + right. apply negb_false_iff, Nat.eqb_eq in Hc. by destruct (children nd).
Qed.

(** X21. The selection phase always ends, and it ends on a node of the tree
    that still has an untried action or has no child at all. *)
Theorem selection_stops_at_frontier (ph : list Card) (g : rng) (iterations : Z) :
  length ph = 2%nat → Forall valid_card ph →
  ∃ g' h leaf nd, run_mcts_tree g ph iterations = Ok (g', h)
    ∧ select (length h) h 0%nat = Ok leaf
    ∧ h !! leaf = Some nd
    ∧ (untried_actions nd ≠ [] ∨ children nd = []).
Proof.
  intros Hlen Hvalid.
  destruct (run_mcts_tree_ok ph Hlen Hvalid g iterations) as (g' & h & x & Hrun & Hwf & _).
  destruct (select_ok ph h (length h) 0%nat) as (leaf & Hsel & _);
    [done | by destruct Hwf | lia |].
  destruct (select_frontier _ _ _ _ Hsel) as (nd & Hnd & Hfront).
  by exists g', h, leaf, nd.
Qed.

Lemma ucb1_score h n k nd :
  h !! k = Some nd → 1 ≤ visits nd → 1 ≤ n → ucb1 nd n = Ok (score_of h n k).
Proof.
  intros Hk Hv Hn. unfold ucb1, score_of. rewrite Hk.
  destruct (Z.eqb_spec (visits nd) 0); [lia|].
  destruct (Z.leb_spec n 0); [lia|].
  by destruct (Z.ltb_spec (visits nd) 0); [lia|].
Qed.

Lemma best_child_loop_first_max h n kids : ∀ bs bn r,
  1 ≤ n → Forall (scorable h) kids →
  best_child_loop h n kids bs bn = Ok r →
  (r = bn ∧ ∀ k, k ∈ kids → (score_of h n k <= bs)%Q)
  ∨ ∃ pre b post, kids = pre ++ b :: post ∧ r = Some b
      ∧ (bs < score_of h n b)%Q
      ∧ (∀ k, k ∈ pre → (score_of h n k < score_of h n b)%Q)
      ∧ (∀ k, k ∈ post → (score_of h n k <= score_of h n b)%Q).
Proof.
  intros bs bn r Hn Hkids; revert bs bn r.
  induction Hkids as [|kid rest (nd & Hnd & _ & Hv) _ IH]; intros bs bn r Hrun;
    cbn [best_child_loop] in Hrun.
  - left. injection Hrun as <-. split; [done|]. intros k []%elem_of_nil.
  - rewrite (get_Some h kid nd Hnd) in Hrun. cbn [mbind result_bind] in Hrun.
    rewrite (ucb1_score h n kid nd Hnd Hv Hn) in Hrun. cbn [mbind result_bind] in Hrun.
    destruct (Qlt_le_dec bs (score_of h n kid)) as [Hlt | Hle].
    + right. destruct (IH _ _ _ Hrun) as [[-> Hall] | (pre & b & post & -> & -> & Hb & Hpre & Hpost)].
      * exists [], kid, rest. split_and!; [done | done | done | | done].
        intros k []%elem_of_nil.
      * exists (kid :: pre), b, post. split_and!; [done | done | | | done].
        -- by eapply Qlt_trans.
        -- intros k [-> | Hk]%elem_of_cons; [done | by apply Hpre].
    + destruct (IH _ _ _ Hrun) as [[-> Hall] | (pre & b & post & -> & -> & Hb & Hpre & Hpost)].
      * left. split; [done|]. intros k [-> | Hk]%elem_of_cons; [done | by apply Hall].
      * right. exists (kid :: pre), b, post. split_and!; [done | done | done | | done].
        intros k [-> | Hk]%elem_of_cons; [by eapply Qle_lt_trans | by apply Hpre].
Qed.

(** X22. At every node with children of every tree of the search,
    [best_child] returns the first child, in the order the children were
    added, among those with the highest UCB1 score: the children before it
    score strictly less and those after it score no more. *)
Theorem best_child_first_maximum (ph : list Card) (g : rng) (iterations : Z) :
  length ph = 2%nat → Forall valid_card ph →
  ∃ g' h, run_mcts_tree g ph iterations = Ok (g', h)
    ∧ ∀ i nd, h !! i = Some nd → children nd ≠ [] →
        ∃ vs pre best post,
          mapR (λ child, x ← get h child; Ok (visits x)) (map snd (children nd)) = Ok vs
          ∧ map snd (children nd) = pre ++ best :: post
          ∧ best_child h nd = Ok (Some best)
          ∧ (∀ k, k ∈ pre →
               (score_of h (foldl Z.add 0%Z vs) k < score_of h (foldl Z.add 0%Z vs) best)%Q)
          ∧ (∀ k, k ∈ post →
               (score_of h (foldl Z.add 0%Z vs) k <= score_of h (foldl Z.add 0%Z vs) best)%Q).
Proof.
  intros Hlen Hvalid.
  destruct (run_mcts_tree_ok ph Hlen Hvalid g iterations) as (g' & h & x & Hrun & Hwf & _).
  exists g', h. split; [done|]. intros i nd Hi Hne.
  pose proof (wf_scorable ph h i nd Hwf Hi) as Hsc.
  destruct (children_visits_ok h (map snd (children nd))) as (vs & Hvs & Hn);
    [by destruct (children nd) | done |].
  destruct (best_child_ok h nd Hne Hsc) as (a & b & Hbest & _).
  pose proof Hbest as Hloop. unfold best_child in Hloop. rewrite Hvs in Hloop.
  cbn [mbind result_bind] in Hloop.
  destruct (best_child_loop_first_max h _ _ _ _ _ Hn Hsc Hloop)
    as [[[=] _] | (pre & best & post & Hsplit & [= <-] & _ & Hpre & Hpost)].
  by exists vs, pre, b, post.
Qed.

End TreeTheorems.

Lemma tree_structure_witness :
  ∃ g' h, @run_mcts_tree demo_ambient 0%nat pocket_aces 3 = Ok (g', h)
    ∧ ∀ i nd, h !! i = Some nd →
        player_hand nd = pocket_aces
        ∧ length (state nd) = stage_len (stage nd)
        ∧ stage nd ≠ done
        ∧ (stage nd = river → untried_actions nd = [] ∧ children nd = []).
Proof.
  destruct (@tree_structure demo_ambient demo_laws pocket_aces 0%nat 3
              eq_refl pocket_aces_valid) as (g' & h & Hrun & _ & _ & Hnodes).
  exists g', h. exact (conj Hrun Hnodes).
Defined.

Lemma tree_size_witness :
  ∃ g' h, @run_mcts_tree demo_ambient 0%nat pocket_aces 3 = Ok (g', h)
    ∧ (1 ≤ length h ≤ 1 + Z.to_nat 3)%nat.
Proof.
  exact (@tree_size demo_ambient demo_laws pocket_aces 0%nat 3 eq_refl pocket_aces_valid).
Defined.

Lemma selection_stops_at_frontier_witness :
  ∃ g' h leaf nd, @run_mcts_tree demo_ambient 0%nat pocket_aces 3 = Ok (g', h)
    ∧ @select demo_ambient (length h) h 0%nat = Ok leaf
    ∧ h !! leaf = Some nd
    ∧ (untried_actions nd ≠ [] ∨ children nd = []).
Proof.
  exact (@selection_stops_at_frontier demo_ambient demo_laws pocket_aces 0%nat 3
           eq_refl pocket_aces_valid).
Defined.

Lemma best_child_first_maximum_witness :
  ∃ g' h, @run_mcts_tree demo_ambient 0%nat pocket_aces 3 = Ok (g', h)
    ∧ ∀ i nd, h !! i = Some nd → children nd ≠ [] →
        ∃ best, @best_child demo_ambient h nd = Ok (Some best).
Proof.
  destruct (@best_child_first_maximum demo_ambient demo_laws pocket_aces 0%nat 3
              eq_refl pocket_aces_valid) as (g' & h & Hrun & Hbest).
  exists g', h. split; [exact Hrun|]. intros i nd Hi Hne.
  destruct (Hbest i nd Hi Hne) as (vs & pre & best & post & _ & _ & Hb & _).
  exists best. exact Hb.
Defined.

(** ** The command line, continued *)

Section CommandLine.






Lemma run_mcts_ok `{AmbientLaws} g ph iterations :
  length ph = 2%nat → Forall valid_card ph →
  ∃ q, run_mcts g ph iterations = Ok q ∧ (0 <= q)%Q ∧ (q <= 1)%Q.
Proof.
  intros Hlen Hvalid.
  destruct (run_mcts_tree_ok ph Hlen Hvalid g iterations) as (g' & h & x & Hrun & Hwf & Hx & _).
  pose proof (ok_stats _ _ _ _ _ (proj2 Hwf 0%nat x Hx)) as [Hw0 Hw1].
  unfold run_mcts. rewrite Hrun. cbn [mbind result_bind].
  rewrite (get_Some h 0%nat x Hx). cbn [mbind result_bind]. unfold truediv.
  destruct (Z.eqb_spec (visits x) 0) as [Hzero | Hne].
  - exists 0%Q. split_and!; done.
  - exists (Qred (wins x / inject_Z (visits x))).
    destruct (quotient_bounds (wins x) (visits x)) as [Hq0 Hq1]; [done | done | |].
    + assert (0 <= inject_Z (visits x))%Q as Hv by lra.
      change 0%Q with (inject_Z 0) in Hv. rewrite <- Zle_Qle in Hv. lia.
    + done.
Qed.

End CommandLine.


Section MainRuns.
Context `{AmbientLaws}.

(** X24. Given a program name and two tokens that parse to cards with known
    values, [main] announces the hand, runs the search with 1000 iterations
    and prints a win rate between 0 and 1; nothing is left uncaught. *)
Theorem main_prints_win_rate (g : rng) (prog card1 card2 : string) (c1 c2 : Card) :
  Main.parse_cards card1 card2 = Main.Hand [c1; c2] →
  valid_card c1 → valid_card c2 →
  ∃ q, Main.main g [prog; card1; card2]
       = [Main.Print ("Running MCTS for hand: " +:+ (card_num c1 +:+ suit c1)
                       +:+ " " +:+ (card_num c2 +:+ suit c2));
          Main.CallRunMcts (Main.Hand [c1; c2]) 1000;
          Main.PrintWinRate q]
    ∧ (0 <= q)%Q ∧ (q <= 1)%Q.
Proof.
  intros Hparse Hv1 Hv2.
  destruct (run_mcts_ok g [c1; c2] 1000 eq_refl) as (q & Hq & Hq0 & Hq1);
    [by repeat constructor|].
  exists q. split; [|done]. unfold Main.main.
  cbn [length Nat.eqb negb lookup list_lookup default from_option id].
  rewrite Hparse. cbn [Main.show_item lookup list_lookup Main.call_run_mcts].
  by rewrite Hq.
Qed.


End MainRuns.


Lemma main_prints_win_rate_witness :
  ∃ q, @Main.main demo_ambient 0%nat ["main.py"; "as"; "Ah"]%string
       = [Main.Print "Running MCTS for hand: AS AH";
          Main.CallRunMcts (Main.Hand pocket_aces) 1000;
          Main.PrintWinRate q]
    ∧ (0 <= q)%Q ∧ (q <= 1)%Q.
Proof.
  exact (@main_prints_win_rate demo_ambient demo_laws 0%nat "main.py" "as" "Ah"
           (card "AS") (card "AH") eq_refl
           (ex_intro _ 14 eq_refl) (ex_intro _ 14 eq_refl)).
Defined.


(** ** Visits of a node and of its children *)

Section VisitCounts.
Context `{AmbientLaws}.

Lemma on_path_parent (h : list MCTSNode) n c cn j :
  on_path h n c → h !! c = Some cn → parent cn = Some j → on_path h n j.
Proof.
  induction 1 as [c|n x p c Hn Hp _ IH]; intros Hc Hj.
  - eapply on_path_up; [done | done | constructor].
  - eapply on_path_up; [done | done | by apply IH].
Qed.

Lemma on_path_linear (h : list MCTSNode) n c1 c2 :
  on_path h n c1 → on_path h n c2 → on_path h c1 c2 ∨ on_path h c2 c1.
Proof.
  induction 1 as [c1|n x p c1 Hn Hp Hrest IH]; intros H2; [by left|].
  destruct (on_path_inv h n c2 x Hn H2) as [-> | (p' & Hp' & H2')].
  - right. by eapply on_path_up.
  - rewrite Hp in Hp'. injection Hp' as <-. by apply IH.
Qed.

(** Two nodes with the same parent on one path to the root are the same. *)
Lemma on_path_one_child (h : list MCTSNode) n c1 c2 x1 x2 j :
  parents_ok h → on_path h n c1 → on_path h n c2 →
  h !! c1 = Some x1 → h !! c2 = Some x2 → parent x1 = Some j → parent x2 = Some j →
  c1 = c2.
Proof.
  intros Hpo H1 H2 Hx1 Hx2 Hj1 Hj2.
  pose proof (Hpo c1 x1 j Hx1 Hj1). pose proof (Hpo c2 x2 j Hx2 Hj2).
  destruct (on_path_linear h n c1 c2 H1 H2) as [H12 | H21].
  - destruct (on_path_inv h c1 c2 x1 Hx1 H12) as [-> | (p & Hp & Hrest)]; [done|].
    rewrite Hj1 in Hp. injection Hp as <-. apply on_path_le in Hrest; [lia | done].
  - destruct (on_path_inv h c2 c1 x2 Hx2 H21) as [-> | (p & Hp & Hrest)]; [done|].
    rewrite Hj2 in Hp. injection Hp as <-. apply on_path_le in Hrest; [lia | done].
Qed.

Lemma dict_set_values {K V} `{EqDecision K} (d : list (K * V)) k v :
  NoDup (map snd d) → v ∉ map snd d → NoDup (map snd (dict_set d k v)).
Proof.
  induction d as [|[k' v'] d IH]; cbn [dict_set map snd]; intros Hnd Hv.
  - apply NoDup_singleton.
  - apply NoDup_cons in Hnd as [Hv' Hnd]. apply not_elem_of_cons in Hv as [Hne Hv].
    destruct (decide (k' = k)); cbn [map snd]; apply NoDup_cons.
    + done.
    + split; [|by apply IH]. intros Hin. apply list_elem_of_fmap in Hin as ([a b] & -> & Hin).
      apply elem_of_dict_set in Hin as [Hin | [_ ->]]; [|done].
      apply Hv'. apply list_elem_of_fmap. by exists (a, b).
Qed.

(** Replacing or adding an entry for a node without visits does not raise
    the total. *)
Lemma dict_set_total {K} `{EqDecision K} (f : nat → Z) (d : list (K * nat)) k v :
  (∀ c, 0 ≤ f c) → f v = 0 →
  foldr (λ c acc, f c + acc) 0 (map snd (dict_set d k v))
  ≤ foldr (λ c acc, f c + acc) 0 (map snd d).
Proof.
  intros Hf Hv. induction d as [|[k' v'] d IH]; cbn [dict_set map snd foldr]; [lia|].
  destruct (decide (k' = k)); cbn [map snd foldr]; [specialize (Hf v'); lia | lia].
Qed.

Lemma total_ext (f f' : nat → Z) (kids : list nat) :
  (∀ c, c ∈ kids → f' c = f c) →
  foldr (λ c acc, f' c + acc) 0 kids = foldr (λ c acc, f c + acc) 0 kids.
Proof.
  induction kids as [|c kids IH]; intros Hext; cbn [foldr]; [done|].
  rewrite Hext by left. rewrite IH; [done|]. intros c' Hc'. apply Hext. by right.
Qed.

Lemma total_one_more (f f' : nat → Z) (P : nat → Prop) (kids : list nat) :
  NoDup kids → (∀ c, P c ∨ ¬ P c) →
  (∀ c, c ∈ kids → P c → f' c = f c + 1) →
  (∀ c, c ∈ kids → ¬ P c → f' c = f c) →
  (∀ c1 c2, c1 ∈ kids → c2 ∈ kids → P c1 → P c2 → c1 = c2) →
  foldr (λ c acc, f' c + acc) 0 kids ≤ foldr (λ c acc, f c + acc) 0 kids + 1.
Proof.
  intros Hnd Hdec Hyes Hno Hone. induction Hnd as [|c kids Hc Hnd IH]; cbn [foldr]; [lia|].
  destruct (Hdec c) as [Hp | Hnp].
  - rewrite (Hyes c) by (done || left).
    rewrite (total_ext f f' kids); [lia|].
    intros c' Hc'. apply Hno; [by right|]. intros Hp'.
    assert (c = c') as -> by (apply Hone; [left | by right | done | done]). done.
  - rewrite (Hno c) by (done || left).
    assert (foldr (λ c0 acc, f' c0 + acc) 0 kids ≤ foldr (λ c0 acc, f c0 + acc) 0 kids + 1);
      [|lia].
    apply IH.
    + intros c' Hc'. apply Hyes. by right.
    + intros c' Hc'. apply Hno. by right.
    + intros c1 c2 H1 H2. apply Hone; by right.
Qed.

(** The two counting invariants: child ids are not repeated within a node,
    and the children of a node have no more visits than the node. *)
Lemma counts_expansion ph h node nd rest action u next :
  wf ph h None →
  (∀ i x, h !! i = Some x → NoDup (map snd (children x)) ∧ children_visits h x ≤ visits x) →
  h !! node = Some nd → untried_actions nd = rest ++ [action] →
  ∀ i x,
    (<[node := set_children (dict_set (children nd) action (length h))
                 (set_untried_actions rest nd)]> h
     ++ [set_untried_actions u
           (init (state nd ++ action) (Some node) next (player_hand nd))]) !! i = Some x →
    NoDup (map snd (children x))
    ∧ children_visits
        (<[node := set_children (dict_set (children nd) action (length h))
                     (set_untried_actions rest nd)]> h
         ++ [set_untried_actions u
               (init (state nd ++ action) (Some node) next (player_hand nd))]) x
      ≤ visits x.
Proof.
  intros [Hpos Hall] Hinv Hnd Hu.
  set (self' := set_children _ _). set (child := set_untried_actions u _).
  set (h1 := <[node := self']> h ++ [child]).
  pose proof (lookup_lt_Some _ _ _ Hnd) as Hnode.
  assert (∀ c, (c < length h)%nat → visits_of h1 c = visits_of h c) as Hsame.
  { intros c Hc. unfold visits_of, h1. rewrite lookup_app_l by (rewrite length_insert; lia).
    destruct (decide (c = node)) as [->|Hne].
    - rewrite list_lookup_insert_eq by done. by rewrite Hnd.
    - by rewrite list_lookup_insert_ne. }
  assert (visits_of h1 (length h) = 0) as Hnew.
  { unfold visits_of, h1. rewrite lookup_app_r by (rewrite length_insert; lia).
    by rewrite length_insert, Nat.sub_diag. }
  assert (∀ c, 0 ≤ visits_of h1 c) as Hnonneg.
  { intros c. destruct (le_lt_dec (length h) c) as [Hge | Hlt].
    - destruct (decide (c = length h)) as [->|]; [lia|].
      unfold visits_of, h1. rewrite lookup_ge_None_2; [done|].
      rewrite length_app, length_insert. simpl. lia.
    - rewrite Hsame by done. unfold visits_of.
      destruct (h !! c) as [y|] eqn:Hy; [|done].
      apply stats_ok_visits, (ok_stats _ _ _ _ _ (Hall c y Hy)). }
  assert (∀ j y, h !! j = Some y →
            children_visits h1 y = children_visits h y) as Hold.
  { intros j y Hy. unfold children_visits. apply total_ext.
    intros c Hc. apply Hsame. apply list_elem_of_fmap in Hc as ([a c'] & -> & Hin).
    apply (ok_children _ _ _ _ _ (Hall j y Hy) a c' Hin). }
  intros i x Hi. fold h1. unfold h1 in Hi.
  destruct (decide (i = length h)) as [->|Hil].
  { rewrite lookup_app_r in Hi by (rewrite length_insert; lia).
    rewrite length_insert, Nat.sub_diag in Hi. injection Hi as <-.
    split; [constructor | done]. }
  assert (i < length h)%nat as Hi'.
  { apply lookup_lt_Some in Hi. rewrite length_app, length_insert in Hi. simpl in Hi. lia. }
  rewrite lookup_app_l in Hi by (rewrite length_insert; lia).
  destruct (decide (i = node)) as [->|Hin].
  - rewrite list_lookup_insert_eq in Hi by done. injection Hi as <-.
    destruct (Hinv node nd Hnd) as [Hnd' Hsum]. split.
    + cbn [children self' set_children]. apply dict_set_values; [done|].
      intros Hin. apply list_elem_of_fmap in Hin as ([a c] & Hc & Hin). simpl in Hc. subst c.
      pose proof (ok_children _ _ _ _ _ (Hall node nd Hnd) a _ Hin). lia.
    + etrans; [|exact Hsum]. rewrite <- (Hold node nd Hnd).
      unfold children_visits. cbn [children self' set_children].
      by apply dict_set_total.
  - rewrite list_lookup_insert_ne in Hi by done.
    destruct (Hinv i x Hi) as [Hnd' Hsum]. split; [done|]. by rewrite (Hold i x Hi).
Qed.

Lemma counts_backpropagate ph (h : list MCTSNode) node r h' :
  wf ph h (Some node) → linked h → (node < length h)%nat →
  (∀ i x, h !! i = Some x → NoDup (map snd (children x)) ∧ children_visits h x ≤ visits x) →
  backpropagate (length h) h node r = Ok h' →
  ∀ i x, h' !! i = Some x →
    NoDup (map snd (children x)) ∧ children_visits h' x ≤ visits x.
Proof.
  intros Hwf [_ Hlinks] Hnode Hinv Hrun.
  pose proof (wf_parents_ok _ _ _ Hwf) as Hpo.
  destruct (backpropagate_spec r (length h) h node Hpo Hnode) as (h2 & Hrun2 & Hlen & Hspec);
    [done|].
  rewrite Hrun in Hrun2. injection Hrun2 as <-.
  destruct Hwf as [Hpos Hall].
  assert (∀ c y, h !! c = Some y →
            (on_path h node c → visits_of h' c = visits_of h c + 1)
            ∧ (¬ on_path h node c → visits_of h' c = visits_of h c)) as Hvis.
  { intros c y Hy. destruct (Hspec c y Hy) as [Hyes Hno]. unfold visits_of. rewrite Hy.
    split; intros Hp; [rewrite (Hyes Hp) | rewrite (Hno Hp)]; done. }
  intros i x' Hi.
  destruct (lookup_lt_is_Some_2 h i) as [x Hx].
  { apply lookup_lt_Some in Hi. lia. }
  destruct (Hinv i x Hx) as [Hnd Hsum]. destruct (Hspec i x Hx) as [Hyes Hno].
  assert (∀ c, c ∈ map snd (children x) →
            ∃ y, h !! c = Some y ∧ parent y = Some i) as Hkid.
  { intros c Hc. apply list_elem_of_fmap in Hc as ([a c'] & -> & Hin).
    destruct (Hlinks i x a c' Hx Hin) as (cn & Hcn & Hp & _). by exists cn. }
  destruct (classic_path h node i Hpo) as [Hp | Hnp].
  - rewrite (Hyes Hp) in Hi. injection Hi as <-. split; [done|].
    unfold children_visits, bump. cbn [children visits set_wins set_visits].
    etrans; [apply (total_one_more (visits_of h) (visits_of h') (on_path h node))|].
    + done.
    + intros c. by apply classic_path.
    + intros c Hc Hpc. destruct (Hkid c Hc) as (y & Hy & _). by apply (Hvis c y Hy).
    + intros c Hc Hpc. destruct (Hkid c Hc) as (y & Hy & _). by apply (Hvis c y Hy).
    + intros c1 c2 H1 H2 Hp1 Hp2.
      destruct (Hkid c1 H1) as (y1 & Hy1 & Hpar1). destruct (Hkid c2 H2) as (y2 & Hy2 & Hpar2).
      by eapply (on_path_one_child h node c1 c2).
    + unfold children_visits in Hsum. lia.
  - rewrite (Hno Hnp) in Hi. injection Hi as <-. split; [done|].
    etrans; [|exact Hsum]. unfold children_visits.
    rewrite (total_ext (visits_of h) (visits_of h')); [done|].
    intros c Hc. destruct (Hkid c Hc) as (y & Hy & Hpar).
    apply (Hvis c y Hy). intros Hpc. apply Hnp. by eapply on_path_parent.
Qed.

Lemma iteration_counts ph g h g' h' :
  length ph = 2%nat → Forall valid_card ph →
  wf ph h None → linked h →
  (∀ i x, h !! i = Some x → NoDup (map snd (children x)) ∧ children_visits h x ≤ visits x) →
  iteration (g, h) = Ok (g', h') →
  ∀ i x, h' !! i = Some x →
    NoDup (map snd (children x)) ∧ children_visits h' x ≤ visits x.
Proof.
  intros Hlen Hvalid Hwf Hl Hinv Hit.
  destruct (iteration_steps ph g h g' h' Hlen Hvalid Hwf Hit)
    as (leaf & g1 & h1 & node & r & Hsel & Hleaf & Hexp & Hwf1 & Hn1 & Hback).
  destruct (expansion_cases ph g h leaf g1 h1 node Hwf Hleaf Hexp)
    as [[-> ->] | (nd & rest & action & u & next & Hnd & Hu & Hnext & -> & ->)].
  - by eapply counts_backpropagate.
  - eapply counts_backpropagate; [done | by eapply linked_expansion | done | | done].
    by eapply counts_expansion.
Qed.

Lemma iterations_loop_counts ph n : ∀ g h g' h',
  length ph = 2%nat → Forall valid_card ph →
  wf ph h None → linked h →
  (∀ i x, h !! i = Some x → NoDup (map snd (children x)) ∧ children_visits h x ≤ visits x) →
  iterations_loop n (g, h) = Ok (g', h') →
  ∀ i x, h' !! i = Some x →
    NoDup (map snd (children x)) ∧ children_visits h' x ≤ visits x.
Proof.
  induction n as [|n IH]; intros g h g' h' Hlen Hvalid Hwf Hl Hinv Hrun.
  - cbn [iterations_loop] in Hrun. injection Hrun as <- <-. exact Hinv.
  - cbn [iterations_loop] in Hrun.
    destruct (iteration_ok ph Hlen Hvalid g h Hwf) as (g1 & h1 & Hit & Hwf1 & _).
    rewrite Hit in Hrun. cbn [mbind result_bind] in Hrun.
    destruct (iteration_shape ph g h g1 h1 Hlen Hvalid Hwf Hl Hit) as [Hl1 _].
    eapply IH; [done | done | exact Hwf1 | exact Hl1 | | exact Hrun].
    exact (iteration_counts ph g h g1 h1 Hlen Hvalid Hwf Hl Hinv Hit).
Qed.

(** X26. In every tree of the search the child ids of a node are all
    different, and the children of a node never have more visits in total
    than the node itself. *)
Theorem children_visits_bounded (ph : list Card) (g : rng) (iterations : Z) :
  length ph = 2%nat → Forall valid_card ph →
  ∃ g' h, run_mcts_tree g ph iterations = Ok (g', h)
    ∧ ∀ i nd, h !! i = Some nd →
        NoDup (map snd (children nd)) ∧ children_visits h nd ≤ visits nd.
Proof.
  intros Hlen Hvalid.
  destruct (run_mcts_tree_ok ph Hlen Hvalid g iterations) as (g' & h & x & Hrun & Hwf & _).
  exists g', h. split; [done|].
  unfold run_mcts_tree in Hrun. destruct (initial_tree ph Hlen g) as (u & g1 & Hs & Hwf0).
  rewrite Hs in Hrun. cbn [mbind result_bind] in Hrun.
  eapply (iterations_loop_counts ph); [done | done | exact Hwf0 | | | exact Hrun].
  - split; [by eexists | intros i nd a ch Hi Hin].
    destruct i; [|done]. injection Hi as <-. by apply elem_of_nil in Hin.
  - intros i nd Hi. destruct i; [|done]. injection Hi as <-. split; [constructor | done].
Qed.

End VisitCounts.

Lemma children_visits_bounded_witness :
  ∃ g' h, @run_mcts_tree demo_ambient 0%nat pocket_aces 3 = Ok (g', h)
    ∧ ∀ i nd, h !! i = Some nd →
        NoDup (map snd (children nd)) ∧ children_visits h nd ≤ visits nd.
Proof.
  exact (@children_visits_bounded demo_ambient demo_laws pocket_aces 0%nat 3
           eq_refl pocket_aces_valid).
Defined.


(** ** The range of a rank *)

Section RankRange.

Lemma card_value_range x v : card_value x = Ok v → 2 ≤ v ≤ 14.
Proof.
  unfold card_value, CARD_VALUE_MAP. cbn [dict_get].
  repeat (destruct (decide _); [intros [= <-]; lia|]). done.
Qed.

Local Ltac tiebreak_done :=
  eexists; split; [reflexivity|]; split; [cbn; lia|];
  cbn [snd]; intros v; rewrite !elem_of_cons, !elem_of_nil; tauto.

Lemma rank_five_card_hand_tiebreak hand values :
  length hand = 5%nat → mapR card_value hand = Ok values →
  ∃ r, rank_five_card_hand hand = Ok r ∧ 0 ≤ fst r ≤ 9
    ∧ ∀ v, v ∈ snd r → v ∈ values.
Proof.
  intros Hlen Hvs.
  assert (length values = 5%nat) as Hl.
  { apply mapR_Ok_inv, Forall2_length in Hvs. lia. }
  unfold rank_five_card_hand. rewrite Hvs. cbn [mbind result_bind].
  setoid_rewrite <- (elem_of_sorted_desc _ values).
  destruct (sorted_desc_five values Hl) as (a & b & c & d & e & -> & Hab & Hbc & Hcd & Hde).
  generalize (check_straight [a; b; c; d; e]) as st.
  generalize (length (remove_dups (map suit hand)) =? 1)%nat as fl.
  intros fl st.
  unfold Counter, next_with_count, py_next, zmem.
  destruct (Z.eq_dec a b) as [->|], (Z.eq_dec b c) as [->|], (Z.eq_dec c d) as [->|],
    (Z.eq_dec d e) as [->|]; destruct fl, st; decide_tests;
    first [ tiebreak_done
          | match goal with |- context [if ?t then _ else _] => destruct t end;
            tiebreak_done ].
Qed.

End RankRange.

(** X27. On five cards with known values [rank_five_card_hand] returns a
    category from 0 to 9 and a tiebreak list made only of values of the
    hand's cards, each between 2 and 14. *)
Theorem rank_within_range (hand : list Card) :
  length hand = 5%nat → Forall valid_card hand →
  ∃ r values, rank_five_card_hand hand = Ok r
    ∧ mapR card_value hand = Ok values
    ∧ 0 ≤ fst r ≤ 9
    ∧ ∀ v, v ∈ snd r → v ∈ values ∧ 2 ≤ v ≤ 14.
Proof.
  intros Hlen Hv. destruct (mapR_Ok_Forall card_value hand Hv) as (values & Hvs & _).
  destruct (rank_five_card_hand_tiebreak hand values Hlen Hvs) as (r & Hr & Hcat & Htie).
  exists r, values. split_and!; [done | done | lia | lia |].
  intros v Hin%Htie. split; [done|].
  apply mapR_Ok_inv in Hvs. apply list_elem_of_lookup_1 in Hin as (i & Hi).
  destruct (Forall2_lookup_r _ _ _ _ _ Hvs Hi) as (x & _ & Hx).
  by eapply card_value_range.
Qed.

Lemma rank_within_range_witness :
  ∃ r values, rank_five_card_hand wheel_hand = Ok r
    ∧ mapR card_value wheel_hand = Ok values
    ∧ 0 ≤ fst r ≤ 9
    ∧ ∀ v, v ∈ snd r → v ∈ values ∧ 2 ≤ v ≤ 14.
Proof.
  apply (rank_within_range wheel_hand eq_refl). repeat constructor; by eexists.
Defined.
